(** * units.py: the Units test harness of ctags

    A shallow embedding of [misc/units.py]: the regular-expression
    substitutions of the output normaliser ([basename_filter],
    [run_filter]), the gating helpers ([check_units], [check_features],
    [check_languages]), the per-case classifier [run_tcase] and the exit
    status of [action_run]; then the discovery of the cases ([run_dir],
    [make_pretense_map]), the summary of a run ([run_summary]), the tmain
    tests ([tmain_sub], [tmain_run], [action_tmain]) and the guess of the
    language.

    Text is modelled as [list ascii]: one element per character of a
    Python [str], restricted to code points below 256. *)

From Stdlib Require Import List String Ascii ZArith Bool Arith Lia.
From Stdlib Require Import DecimalString Permutation.
Import ListNotations.

Set Implicit Arguments.

Local Open Scope list_scope.

(** ** Python's [re] module, as far as units.py uses it *)

Module Re.

Definition text := list ascii.

Definition t (s : string) : text := list_ascii_of_string s.

Definition TAB : ascii := "009"%char.
Definition NL : ascii := "010"%char.

(** The constructs that occur in the patterns of units.py.  [Chr p] is any
    atom that consumes exactly one character (a literal, a class, [.]).
    Every repetition in those patterns has a body that consumes at least
    one character. *)
Inductive regex : Type :=
| Chr (p : ascii -> bool)
| Bol                       (* ^ without re.MULTILINE *)
| Eol                       (* $ without re.MULTILINE *)
| Eps
| Seq (r1 r2 : regex)
| Star (r : regex)          (* r*   greedy *)
| StarLazy (r : regex)      (* r*?  *)
| Opt (r : regex)           (* r?   greedy *)
| Group (n : nat) (r : regex).

Definition Plus (r : regex) : regex := Seq r (Star r).

Fixpoint Lit (s : text) : regex :=
  match s with
  | [] => Eps
  | c :: s' => Seq (Chr (Ascii.eqb c)) (Lit s')
  end.

(** Captured groups: the most recent binding of a group number is first. *)
Definition caps := list (nat * text).

Fixpoint group (n : nat) (c : caps) : text :=
  match c with
  | [] => []
  | (i, s) :: c' => if Nat.eqb i n then s else group n c'
  end.

(** The backtracking matcher, in continuation-passing style.  [pos] is the
    offset of [s] in the subject string; [k] continues the match after
    [r]; the first successful path wins, as in the sre engine. *)
Fixpoint m (r : regex) (pos : nat) (s : text) (c : caps)
    (k : nat -> text -> caps -> option (nat * caps)) {struct r}
    : option (nat * caps) :=
  match r with
  | Chr p =>
      match s with
      | a :: s' => if p a then k (S pos) s' c else None
      | [] => None
      end
  | Bol => if Nat.eqb pos 0 then k pos s c else None
  | Eol =>
      match s with
      | [] => k pos s c
      | [a] => if Ascii.eqb a NL then k pos s c else None
      | _ => None
      end
  | Eps => k pos s c
  | Seq r1 r2 => m r1 pos s c (fun pos' s' c' => m r2 pos' s' c' k)
  | Star r1 =>
      (fix loop (fuel : nat) (pos : nat) (s : text) (c : caps) :=
         match fuel with
         | O => k pos s c
         | S f =>
             match m r1 pos s c
                     (fun pos' s' c' =>
                        if Nat.ltb pos pos' then loop f pos' s' c' else None)
             with
             | Some x => Some x
             | None => k pos s c
             end
         end) (List.length s) pos s c
  | StarLazy r1 =>
      (fix loop (fuel : nat) (pos : nat) (s : text) (c : caps) :=
         match k pos s c with
         | Some x => Some x
         | None =>
             match fuel with
             | O => None
             | S f =>
                 m r1 pos s c
                   (fun pos' s' c' =>
                      if Nat.ltb pos pos' then loop f pos' s' c' else None)
             end
         end) (List.length s) pos s c
  | Opt r1 =>
      match m r1 pos s c k with
      | Some x => Some x
      | None => k pos s c
      end
  | Group n r1 =>
      m r1 pos s c
        (fun pos' s' c' => k pos' s' ((n, firstn (pos' - pos) s) :: c'))
  end.

(** One attempt at offset [pos]; with [must_advance] an empty match at the
    place where the search started is rejected. *)
Definition match_here (r : regex) (must_advance : bool) (pos : nat) (s : text)
    : option (nat * caps) :=
  m r pos s []
    (fun e _ c => if must_advance && Nat.eqb e pos then None else Some (e, c)).

(** [re.search] from offset [pos]: the leftmost start wins.  The result is
    (start, end, groups). *)
Fixpoint search (r : regex) (must_advance : bool) (pos : nat) (s : text)
    : option (nat * nat * caps) :=
  match match_here r must_advance pos s with
  | Some (e, c) => Some (pos, e, c)
  | None =>
      match s with
      | [] => None
      | _ :: s' => search r false (S pos) s'
      end
  end.

(** [re.match]: one attempt at the start of the string. *)
Definition rmatch (r : regex) (s : text) : option caps :=
  match match_here r false 0 s with
  | Some (_, c) => Some c
  | None => None
  end.

(** Replacement templates: literal text and group references. *)
Inductive piece : Type :=
| PLit (s : text)
| PRef (n : nat).

Definition template := list piece.

Fixpoint expand (tpl : template) (c : caps) : text :=
  match tpl with
  | [] => []
  | PLit s :: tpl' => s ++ expand tpl' c
  | PRef n :: tpl' => group n c ++ expand tpl' c
  end.

(** The loop of [pattern.sub] / [pattern.subn]: [count = 0] means no limit;
    [n] counts the substitutions made so far; [s] is the part of the
    string from offset [pos] on. *)
Fixpoint subx (fuel : nat) (r : regex) (tpl : template) (count n : nat)
    (must_advance : bool) (pos : nat) (s : text) : text * nat :=
  match fuel with
  | O => (s, n)
  | S f =>
      if negb (Nat.eqb count 0) && Nat.leb count n then (s, n)
      else
        match search r must_advance pos s with
        | None => (s, n)
        | Some (b, e, c) =>
            let (rest, n') :=
              subx f r tpl count (S n) (Nat.eqb e b) e (skipn (e - pos) s) in
            (firstn (b - pos) s ++ expand tpl c ++ rest, n')
        end
  end.

Definition subn (r : regex) (tpl : template) (s : text) (count : nat)
    : text * nat :=
  subx (2 * List.length s + 2) r tpl count 0 false 0 s.

Definition sub (r : regex) (tpl : template) (s : text) (count : nat) : text :=
  fst (subn r tpl s count).

(** Character classes.  For code points below 256 [\d] is [0-9] and [\s]
    is 9..13, 28..32, 0x85 and 0xA0. *)
Definition only (a : ascii) : ascii -> bool := Ascii.eqb a.
Definition except (a : ascii) : ascii -> bool := fun c => negb (Ascii.eqb a c).
Definition dot : ascii -> bool := except NL.

Definition is_digit (c : ascii) : bool :=
  let n := nat_of_ascii c in Nat.leb 48 n && Nat.leb n 57.

Definition is_space (c : ascii) : bool :=
  let n := nat_of_ascii c in
  (Nat.leb 9 n && Nat.leb n 13) || (Nat.leb 28 n && Nat.leb n 32)
  || Nat.eqb n 133 || Nat.eqb n 160.

Definition non_space (c : ascii) : bool := negb (is_space c).

Definition is_hex_lower (c : ascii) : bool :=
  let n := nat_of_ascii c in
  is_digit c || (Nat.leb 97 n && Nat.leb n 102).

End Re.

(** ** The output normaliser *)

Module Normalizer.
Import Re.

Definition QUOTE : ascii := "034"%char.

Definition both (p q : ascii -> bool) : ascii -> bool := fun c => p c && q c.

Inductive OutputType : Type := ctags | etags | xref | json.

(** The four compiled patterns of [filters_internal]. *)

(* 'ctags', written with spaces:  ( ^ [^\t]+ \t ) ( /? ( [^/\t]+ / )* ) *)
Definition ctags_re : regex :=
  Seq (Group 1 (Seq Bol (Seq (Plus (Chr (except TAB))) (Chr (only TAB)))))
      (Group 2
         (Seq (Opt (Chr (only "/")))
              (Star (Group 3
                       (Seq (Plus (Chr (both (except "/") (except TAB))))
                            (Chr (only "/"))))))).

(* 'etags', written with spaces:  .* / ( \S+ ) , ( [0-9]+ $ ) *)
Definition etags_re : regex :=
  Seq (Star (Chr dot))
   (Seq (Chr (only "/"))
   (Seq (Group 1 (Plus (Chr non_space)))
   (Seq (Chr (only ","))
        (Group 2 (Seq (Plus (Chr is_digit)) Eol))))).

(* 'xref', with SP for the space:
   ( .* \d+ SP ) ( [^SP]+ [^SP]+ ) / ( [^SP] .+ .+ $ ) *)
Definition xref_re : regex :=
  Seq (Group 1
         (Seq (Star (Chr dot)) (Seq (Plus (Chr is_digit)) (Chr (only " ")))))
   (Seq (Group 2 (Seq (Plus (Chr (except " "))) (Plus (Chr (except " ")))))
   (Seq (Chr (only "/"))
        (Group 3 (Seq (Chr (except " "))
                 (Seq (Plus (Chr dot)) (Seq (Plus (Chr dot)) Eol)))))).

(* 'json', with Q for the double quote and SP for the space:
   ( Q path Q : SP ) Q [^Q]+ / ( [^/Q]+ ) Q *)
Definition json_re : regex :=
  Seq (Group 1 (Lit (QUOTE :: t "path" ++ QUOTE :: t ": ")))
   (Seq (Chr (only QUOTE))
   (Seq (Plus (Chr (except QUOTE)))
   (Seq (Chr (only "/"))
   (Seq (Group 2 (Plus (Chr (both (except "/") (except QUOTE)))))
        (Chr (only QUOTE)))))).

(** [basename_filter(True, output_type)]: the pattern and its replacement
    (\1 for ctags, \1,\2 for etags, \1\3 for xref, and \1 Q \2 Q for
    json).  With [internal] false the function returns the text of a sed
    command, which only the shell interprets. *)
Definition basename_filter (output_type : OutputType) : regex * template :=
  match output_type with
  | ctags => (ctags_re, [PRef 1])
  | etags => (etags_re, [PRef 1; PLit (t ","); PRef 2])
  | xref => (xref_re, [PRef 1; PRef 3])
  | json => (json_re, [PRef 1; PLit [QUOTE]; PRef 2; PLit [QUOTE]])
  end.

(** An anonymisation pair (actual, expected): the first lines of what the
    subject prints for two [--_anonhash] queries. *)
Definition anon_pair := (text * text)%type.

(** The characters that mean something in a pattern. *)
Definition special (c : ascii) : bool :=
  existsb (Ascii.eqb c) (t ".^$*+?{}[]\|()").

(** A text that, as a pattern, is the literal text: it is not empty and
    holds no special character. *)
Definition plain_pattern (p : text) : bool :=
  negb (Nat.eqb (List.length p) 0) && negb (existsb special p).

(** A text that, as a replacement, stands for itself: it holds no
    backslash. *)
Definition plain_replacement (e : text) : bool :=
  negb (existsb (Ascii.eqb "\") e).

(** Python's [re] on the patterns and replacements that this model does
    not interpret: whether [re.compile(p)] gives a pattern (it raises
    [re.error] otherwise), and what [re.compile(p).sub(e, l)] gives,
    nothing when it raises [re.error]. *)
Record Library : Type := mkLibrary {
  compiles : text -> bool;
  substitute : text -> text -> text -> option text
}.

(** A compiled pattern of [pat2]. *)
Inductive Compiled : Type :=
| Literal (a : text)
| Other (p : text).

(** [re.compile(p)] *)
Definition compile (lib : Library) (p : text) : option Compiled :=
  if plain_pattern p then Some (Literal p)
  else if compiles lib p then Some (Other p)
  else None.

(** [pat2 = [(re.compile(p[0]), p[1]) for p in anon_filters]] *)
Fixpoint compile_all (lib : Library) (anon_filters : list anon_pair)
    : option (list (Compiled * text)) :=
  match anon_filters with
  | [] => Some []
  | p :: ps =>
      match compile lib (fst p) with
      | None => None
      | Some c =>
          match compile_all lib ps with
          | None => None
          | Some cs => Some ((c, snd p) :: cs)
          end
      end
  end.

(** [p[0].sub(p[1], l)] *)
Definition compiled_sub (lib : Library) (c : Compiled) (e l : text)
    : option text :=
  match c with
  | Literal a =>
      if plain_replacement e then Some (sub (Lit a) [PLit e] l 0)
      else substitute lib a e l
  | Other p => substitute lib p e l
  end.

(** The body of the loop of [run_filter], for one line. *)
Definition filter_basename (base_filter : regex * template) (l : text) : text :=
  sub (fst base_filter) (snd base_filter) l 1.

Fixpoint filter_anon (lib : Library) (pat2 : list (Compiled * text))
    (l : text) : option text :=
  match pat2 with
  | [] => Some l
  | p :: ps =>
      match compiled_sub lib (fst p) (snd p) l with
      | None => None
      | Some l' => filter_anon lib ps l'
      end
  end.

Definition filter_line (lib : Library) (base_filter : regex * template)
    (pat2 : list (Compiled * text)) (l : text) : option text :=
  filter_anon lib pat2 (filter_basename base_filter l).

(** The loop over the lines of the input file. *)
Fixpoint filter_lines (lib : Library) (base_filter : regex * template)
    (pat2 : list (Compiled * text)) (fin : list text) : option (list text) :=
  match fin with
  | [] => Some []
  | l :: fin' =>
      match filter_line lib base_filter pat2 l with
      | None => None
      | Some out =>
          match filter_lines lib base_filter pat2 fin' with
          | None => None
          | Some outs => Some (out :: outs)
          end
      end
  end.

(** [run_filter]: the lines written to the output file, in order, or
    nothing when [re.error] is raised. *)
Definition run_filter (lib : Library) (finput : list text)
    (base_filter : regex * template) (anon_filters : list anon_pair)
    : option (list text) :=
  match compile_all lib anon_filters with
  | None => None
  | Some pat2 => filter_lines lib base_filter pat2 finput
  end.

(* [0-9a-f]{8} *)
Definition hex8_re : regex :=
  let h := Chr is_hex_lower in
  Seq h (Seq h (Seq h (Seq h (Seq h (Seq h (Seq h h)))))).

Definition is_anon_normalize_needed (rawout : text) : bool :=
  match search hex8_re false 0 rawout with
  | Some _ => true
  | None => false
  end.

(* ^ .*? /Units *)
Definition units_prefix_re : regex :=
  Seq Bol (Seq (StarLazy (Chr dot)) (Lit (t "/Units"))).

(** [input_expected] of [anon_normalize_sub]. *)
Definition input_expected (input_actual : text) : text :=
  t "./Units" ++ sub units_prefix_re [] input_actual 1.

End Normalizer.

(** ** Global parameters, results and the effects of a test case *)

Module Harness.
Import Re Normalizer.

Local Notation "a ^^ b" := (String.append a%string b%string)
  (at level 60, right associativity).

Definition dq : string := String QUOTE EmptyString.

Definition mem (x : string) (l : list string) : bool :=
  existsb (String.eqb x) l.

Definition s_of (x : text) : string := string_of_list_ascii x.

(** [str(n)] for an integer. *)
Definition str (n : Z) : string := NilZero.string_of_int (Z.to_int n).

Fixpoint spaces (n : nat) : string :=
  match n with
  | O => EmptyString
  | S n' => String " " (spaces n')
  end.

(** ['%-59s ' % x] *)
Definition fmt_msg (x : string) : string :=
  x ^^ spaces (59 - String.length x) ^^ " ".

Definition _TIMEOUT_EXIT : Z := 124.
Definition _VG_TIMEOUT_FACTOR : Z := 10.
Definition _VALGRIND_EXIT : Z := 58.

(** The global parameters that [run_tcase] reads. *)
Record Globals : Type := mkGlobals {
  UNITS : list string;
  _FEATURE_LIST : list string;
  WITH_TIMEOUT : Z;
  WITH_VALGRIND : bool;
  RUN_SHRINK : bool
}.

(** The result lists. *)
Record Results : Type := mkResults {
  L_PASSED : list string;
  L_FIXED : list string;
  L_FAILED_BY_STATUS : list string;
  L_FAILED_BY_DIFF : list string;
  L_SKIPPED_BY_FEATURES : list string;
  L_SKIPPED_BY_LANGUAGES : list string;
  L_SKIPPED_BY_ILOOP : list string;
  L_KNOWN_BUGS : list string;
  L_FAILED_BY_TIMEED_OUT : list string;
  L_BROKEN_ARGS_CTAGS : list string;
  L_VALGRIND : list string
}.

Definition no_results : Results :=
  mkResults [] [] [] [] [] [] [] [] [] [] [].

(** The outcome categories, one per result list. *)
Inductive Outcome : Type :=
| Passed | Fixed | FailedStatus | FailedDiff | SkippedFeature
| SkippedLanguage | SkippedInfiniteLoopRisk | KnownBug | TimedOut
| BrokenPrerequisite | ValgrindError.

Definition all_outcomes : list Outcome :=
  [Passed; Fixed; FailedStatus; FailedDiff; SkippedFeature; SkippedLanguage;
   SkippedInfiniteLoopRisk; KnownBug; TimedOut; BrokenPrerequisite;
   ValgrindError].

Definition collection (o : Outcome) (r : Results) : list string :=
  match o with
  | Passed => L_PASSED r
  | Fixed => L_FIXED r
  | FailedStatus => L_FAILED_BY_STATUS r
  | FailedDiff => L_FAILED_BY_DIFF r
  | SkippedFeature => L_SKIPPED_BY_FEATURES r
  | SkippedLanguage => L_SKIPPED_BY_LANGUAGES r
  | SkippedInfiniteLoopRisk => L_SKIPPED_BY_ILOOP r
  | KnownBug => L_KNOWN_BUGS r
  | TimedOut => L_FAILED_BY_TIMEED_OUT r
  | BrokenPrerequisite => L_BROKEN_ARGS_CTAGS r
  | ValgrindError => L_VALGRIND r
  end.

(** [L_X += [x]] *)
Definition add_to (o : Outcome) (x : string) (r : Results) : Results :=
  match r with
  | mkResults pa fi st di fe la il kb tmo br vg =>
      match o with
      | Passed => mkResults (pa ++ [x]) fi st di fe la il kb tmo br vg
      | Fixed => mkResults pa (fi ++ [x]) st di fe la il kb tmo br vg
      | FailedStatus => mkResults pa fi (st ++ [x]) di fe la il kb tmo br vg
      | FailedDiff => mkResults pa fi st (di ++ [x]) fe la il kb tmo br vg
      | SkippedFeature => mkResults pa fi st di (fe ++ [x]) la il kb tmo br vg
      | SkippedLanguage => mkResults pa fi st di fe (la ++ [x]) il kb tmo br vg
      | SkippedInfiniteLoopRisk =>
          mkResults pa fi st di fe la (il ++ [x]) kb tmo br vg
      | KnownBug => mkResults pa fi st di fe la il (kb ++ [x]) tmo br vg
      | TimedOut => mkResults pa fi st di fe la il kb (tmo ++ [x]) br vg
      | BrokenPrerequisite =>
          mkResults pa fi st di fe la il kb tmo (br ++ [x]) vg
      | ValgrindError => mkResults pa fi st di fe la il kb tmo br (vg ++ [x])
      end
  end.

(** The commands that a test case starts. *)
Inductive Command : Type :=
| CForceQuit                      (* cmdline --_force-quit=0 *)
| CPrintLanguage                  (* cmdline --print-language finput *)
| CListLanguages                  (* cmdline --list-languages *)
| CTagging (timeout : option Z)   (* the run of the subject on the input *)
| CAnonhash (path : text)         (* CTAGS --_anonhash=path *)
| CFilterPipeline                 (* sed ... | ffilter *)
| CDiff.

Inductive ResultType : Type := skip | error | ok | known_error.

(** What a test case does besides updating the result lists: the programs
    it starts, its calls of [run_result] ([output] tells whether the
    result goes to RESULT.tmp as well), of [clean_tcase], of [os.makedirs]
    with [prepare_bundles], and of [run_record_cmdline]. *)
Inductive Event : Type :=
| EvRun (c : Command)
| EvResult (result_type : ResultType) (msg : string) (output : bool)
    (args : list string)
| EvCleanTcase
| EvMakeBuildDir
| EvRecordCmdline.

Record State : Type := mkState {
  lists : Results;
  trace : list Event
}.

(** How a call ends: with a value, with a Python exception that the
    worker catches, or not at all. *)
Inductive Ending (A : Type) : Type :=
| Returns (a : A)
| Raises (e : string)
| Hangs.
Arguments Raises {A} e.
Arguments Hangs {A}.

Definition M (A : Type) : Type := State -> State * Ending A.

Definition ret {A} (a : A) : M A := fun st => (st, Returns a).

Definition bind {A B} (c : M A) (f : A -> M B) : M B :=
  fun st =>
    match c st with
    | (st', Returns a) => f a st'
    | (st', Raises e) => (st', Raises e)
    | (st', Hangs) => (st', Hangs)
    end.

Definition raise {A} (e : string) : M A := fun st => (st, Raises e).
Definition hang {A} : M A := fun st => (st, Hangs).

Definition emit (e : Event) : M unit :=
  fun st => (mkState (lists st) (trace st ++ [e]), Returns tt).

Definition record (o : Outcome) (x : string) : M unit :=
  fun st => (mkState (add_to o x (lists st)) (trace st), Returns tt).

Definition run_result (result_type : ResultType) (msg : string)
    (output : bool) (args : list string) : M unit :=
  emit (EvResult result_type msg output args).

Definition when (b : bool) (c : M unit) : M unit :=
  if b then c else ret tt.

Notation "x <- c ;; k" := (bind c (fun x => k))
  (at level 61, c at next level, right associativity).
Notation "c ;; k" := (bind c (fun _ => k))
  (at level 61, right associativity).

(** ** The gating helpers *)

(* (.+)/(.+) *)
Definition unit_re : regex :=
  Seq (Group 1 (Plus (Chr dot)))
      (Seq (Chr (only "/")) (Group 2 (Plus (Chr dot)))).

Fixpoint check_units_loop (units : list string) (name category : string)
    : bool :=
  match units with
  | [] => false
  | u :: units' =>
      match rmatch unit_re (t u) with
      | Some c =>
          if String.eqb (s_of (group 1 c)) category
             && String.eqb (s_of (group 2 c)) name
          then true
          else check_units_loop units' name category
      | None =>
          if String.eqb u name then true
          else check_units_loop units' name category
      end
  end.

Definition check_units (g : Globals) (name category : string) : bool :=
  if Nat.eqb (List.length (UNITS g)) 0 then true
  else check_units_loop (UNITS g) name category.

(** The loop of [check_features] over the lines [features]. *)
Fixpoint check_features_loop (g : Globals) (features : list string)
    : bool * string :=
  match features with
  | [] => (true, EmptyString)
  | expected :: features' =>
      if String.eqb expected EmptyString then check_features_loop g features'
      else
        let found_unexpectedly :=
          match expected with
          | String "!" rest => mem rest (_FEATURE_LIST g)
          | _ => false
          end in
        let found :=
          match expected with
          | String "!" _ => false
          | _ => mem expected (_FEATURE_LIST g)
          end in
        if found_unexpectedly then (false, expected)
        else if negb found then (false, expected)
        else check_features_loop g features'
  end.

(** [check_features(feature, ffile)]; [ffile] holds the lines of the file
    when it exists. *)
Definition check_features (g : Globals) (feature : string)
    (ffile : option (list string)) : bool * string :=
  let features :=
    if negb (String.eqb feature EmptyString) then [feature]
    else match ffile with
         | Some lines => lines
         | None => []
         end in
  check_features_loop g features.

Fixpoint check_languages_loop (langs expected_langs : list string)
    : bool * string :=
  match expected_langs with
  | [] => (true, EmptyString)
  | expected :: rest =>
      if negb (mem expected langs) then (false, expected)
      else check_languages_loop langs rest
  end.

(** [check_languages(cmdline, lfile)]; [langs] is what the subject prints
    for [--list-languages]. *)
Definition check_languages (langs : list string)
    (lfile : option (list string)) : M (bool * string) :=
  match lfile with
  | None => ret (true, EmptyString)
  | Some lines =>
      emit (EvRun CListLanguages) ;;
      ret (check_languages_loop langs lines)
  end.

(** ** The test case and its surroundings *)

(** The arguments of [run_tcase]. *)
Record TestCase : Type := mkTestCase {
  finput : string;
  tdir : string;            (* t *)
  name : string;
  tclass : ascii;
  category : string;
  build_t : string;
  extra_inputs : list string
}.

(** How the subject behaves on the input: it exits after some time
    (in milliseconds) with a return code, or it never exits. *)
Inductive Behaviour : Type :=
| Exits (elapsed_ms : Z) (returncode : Z)
| Loops.

(** What [run_tcase] reads from the file system and from the programs it
    starts.  The programs other than the subject on its input are taken
    to end, what they print to decode as UTF-8, and the calls of the file
    system to succeed. *)
Record World : Type := mkWorld {
  expected_tags : bool;        (* isfile(t/expected.tags) *)
  expected_tags_e : bool;      (* isfile(t/expected.tags-e) *)
  expected_tags_x : bool;      (* isfile(t/expected.tags-x) *)
  expected_tags_json : bool;   (* isfile(t/expected.tags-json) *)
  which_ffilter : bool;        (* shutil.which(t/filter) finds a program *)
  isfile_fargs : bool;         (* isfile(t/args.ctags) *)
  force_quit_returncode : Z;
  guessed_lang : string;
  ffeatures : option (list string);    (* lines of t/features *)
  flanguages : option (list string);   (* lines of t/languages *)
  list_languages : list string;
  subject : Behaviour;
  rawout : list text;          (* the lines of RAWOUT.tmp *)
  anonhash : text -> list text;  (* the lines printed for --_anonhash=path *)
  pipeline_output : text;      (* FILTERED.tmp as the shell pipeline writes it *)
  filecmp : text -> bool;      (* filecmp.cmp(fexpected, ofiltered) *)
  diff : text -> Z;            (* return code of diff on fexpected, ofiltered *)
  library : Library            (* Python's re on the hashes that are not plain text *)
}.

Inductive Completed : Type :=
| Finished (returncode : Z)
| TimeoutExpired.

(** [subprocess.run(..., timeout=timeout)] on the subject; the timeout is
    in seconds. *)
Definition subprocess_run (timeout : option Z) (b : Behaviour) : M Completed :=
  emit (EvRun (CTagging timeout)) ;;
  match timeout, b with
  | None, Exits _ rc => ret (Finished rc)
  | None, Loops => hang
  | Some secs, Exits ms rc =>
      if (1000 * secs <? ms)%Z then ret TimeoutExpired else ret (Finished rc)
  | Some _, Loops => ret TimeoutExpired
  end.

(** [x.splitlines()[0]] *)
Definition first_line (lines : list text) : M text :=
  match lines with
  | l :: _ => ret l
  | [] => raise "IndexError"
  end.

(** [anon_normalize_sub] with [internal] true.  With [internal] false it
    starts the same programs and raises alike; what it returns then is
    the text of sed commands, which only the shell interprets. *)
Fixpoint anon_normalize_sub (w : World) (input_actual : text)
    (args : list text) : M (list anon_pair) :=
  emit (EvRun (CAnonhash input_actual)) ;;
  actual <- first_line (anonhash w input_actual) ;;
  emit (EvRun (CAnonhash (input_expected input_actual))) ;;
  expected <- first_line (anonhash w (input_expected input_actual)) ;;
  match args with
  | a :: args' =>
      rest <- anon_normalize_sub w a args' ;;
      ret ((actual, expected) :: rest)
  | [] => ret [(actual, expected)]
  end.

Definition anon_normalize (w : World) (input_actual : text)
    (args : list text) : M (list anon_pair) :=
  if is_anon_normalize_needed (List.concat (rawout w))
  then anon_normalize_sub w input_actual args
  else ret [].

Local Open Scope string_scope.

(** The choice of the expected file, lines 376 to 393 of units.py. *)
Definition output_type (w : World) : OutputType :=
  if expected_tags w then ctags
  else if expected_tags_e w then etags
  else if expected_tags_x w then xref
  else if expected_tags_json w then json
  else ctags.

Definition output_label (w : World) : string :=
  if expected_tags w then EmptyString
  else if expected_tags_e w then "/etags"
  else if expected_tags_x w then "/xref"
  else if expected_tags_json w then "/json"
  else EmptyString.

Definition output_feature (w : World) : string :=
  if expected_tags w then EmptyString
  else if expected_tags_e w then EmptyString
  else if expected_tags_x w then EmptyString
  else if expected_tags_json w then "json"
  else EmptyString.

(** [os.path.isfile(fexpected)] for the file chosen above. *)
Definition isfile_fexpected (w : World) : bool :=
  expected_tags w || expected_tags_e w || expected_tags_x w
  || expected_tags_json w.

(** [run_shrink] is a stub in units.py. *)
Definition run_shrink : M unit := ret tt.

(** [timeout_value] of [run_tcase]. *)
Definition timeout_value (g : Globals) : option Z :=
  let v := WITH_TIMEOUT g in
  let v := if WITH_VALGRIND g then (v * _VG_TIMEOUT_FACTOR)%Z else v in
  if (v =? 0)%Z then None else Some v.

(** ** [run_tcase] *)

(** [category + '/' + name] *)
Definition case_id (tc : TestCase) : string := category tc ^^ "/" ^^ name tc.

(** [msg] *)
Definition message (tc : TestCase) (w : World) : string :=
  let output_lang_extras : string :=
    if Nat.ltb 0 (List.length (extra_inputs tc)) then " (multi inputs)"
    else EmptyString in
  fmt_msg ("Testing " ^^ name tc ^^ " as " ^^ guessed_lang w
           ^^ output_lang_extras ^^ output_label w).

(** [if RUN_SHRINK and len(extra_inputs) == 0: run_shrink(...)] *)
Definition shrink (g : Globals) (tc : TestCase) : M unit :=
  when (RUN_SHRINK g && Nat.eqb (List.length (extra_inputs tc)) 0) run_shrink.

(** Lines 533 to 545: the text of FILTERED.tmp. *)
Definition normalize (tc : TestCase) (w : World) : M text :=
  if which_ffilter w then
    (* Use external filter *)
    anon_normalize w (t (finput tc)) (map t (extra_inputs tc)) ;;
    emit (EvRun CFilterPipeline) ;;
    ret (pipeline_output w)
  else
    (* Use internal filter *)
    anon_filters <-
      anon_normalize w (t (finput tc)) (map t (extra_inputs tc)) ;;
    match run_filter (library w) (rawout w)
            (basename_filter (output_type w)) anon_filters with
    | Some lines => ret (List.concat lines)
    | None => raise "re.error"
    end.

(** Lines 549 to 553: [ret.returncode] after the comparison. *)
Definition compare (w : World) (filtered : text) : M Z :=
  if filecmp w filtered then ret 0%Z
  else emit (EvRun CDiff) ;; ret (diff w filtered).

(** Lines 487 to 576: what [run_tcase] does once [subprocess.run] on the
    subject has returned or has raised [TimeoutExpired]. *)
Definition after_run (g : Globals) (tc : TestCase) (w : World)
    (done : Completed) : M bool :=
  let id := case_id tc in
  let msg := message tc w in
  match done with
  | TimeoutExpired =>
      record TimedOut id ;;
      run_result error msg true ["TIMED OUT"] ;;
      emit EvRecordCmdline ;;
      shrink g tc ;;
      ret false
  | Finished returncode =>
      emit EvRecordCmdline ;;
      if negb (returncode =? 0)%Z then
        if WITH_VALGRIND g && (returncode =? _VALGRIND_EXIT)%Z
           && negb (Ascii.eqb (tclass tc) "v")
        then
          record ValgrindError id ;;
          run_result error msg true ["valgrind-error"] ;;
          emit EvRecordCmdline ;;
          ret false
        else if Ascii.eqb (tclass tc) "b" then
          record KnownBug id ;;
          run_result known_error msg true [] ;;
          emit EvRecordCmdline ;;
          shrink g tc ;;
          ret true
        else
          record FailedStatus id ;;
          run_result error msg true
            ["unexpected exit status: " ^^ str returncode] ;;
          emit EvRecordCmdline ;;
          shrink g tc ;;
          ret false
      else
      when (WITH_VALGRIND g && Ascii.eqb (tclass tc) "v")
        (record Fixed id) ;;
      if negb (isfile_fexpected w) then
        emit EvCleanTcase ;;
        when (Ascii.eqb (tclass tc) "b" || Ascii.eqb (tclass tc) "i")
          (record Fixed id) ;;
        record Passed id ;;
        run_result ok msg false
          [dq ^^ "expected.tags*" ^^ dq ^^ " not found"] ;;
        ret true
      else
      filtered <- normalize tc w ;;
      returncode <- compare w filtered ;;
      if (returncode =? 0)%Z then
        emit EvCleanTcase ;;
        when (Ascii.eqb (tclass tc) "b"
              || (negb (WITH_TIMEOUT g =? 0)%Z && Ascii.eqb (tclass tc) "i"))
          (record Fixed id) ;;
        record Passed id ;;
        run_result ok msg false [] ;;
        ret true
      else if Ascii.eqb (tclass tc) "b" then
        record KnownBug id ;;
        run_result known_error msg true [] ;;
        emit EvRecordCmdline ;;
        ret true
      else
        record FailedDiff id ;;
        run_result error msg true ["unexpected output"] ;;
        emit EvRecordCmdline ;;
        ret false
  end.

(** Lines 349 to 486: the gates, then the run of the subject. *)
Definition run_tcase (g : Globals) (tc : TestCase) (w : World) : M bool :=
  let id := case_id tc in
  (* Filtered by UNIT *)
  if negb (check_units g (name tc) (category tc)) then ret false
  else
    (* Build cmdline *)
    broken_args_ctags <-
      (if isfile_fargs w
       then emit (EvRun CForceQuit) ;;
            ret (negb (force_quit_returncode w =? 0)%Z)
       else ret false) ;;
    emit (EvRun CPrintLanguage) ;;
    emit EvCleanTcase ;;
    emit EvMakeBuildDir ;;
    let msg := message tc w in
    let (tmp, feat) := check_features g (output_feature w) (ffeatures w) in
    if negb tmp then
      record SkippedFeature id ;;
      match feat with
      | String "!" rest =>
          run_result skip msg true
            ["unwanted feature " ^^ dq ^^ rest ^^ dq ^^ " is available"]
      | _ =>
          run_result skip msg true
            ["required feature " ^^ dq ^^ feat ^^ dq ^^ " is not available"]
      end ;;
      ret false
    else
    checked <- check_languages (list_languages w) (flanguages w) ;;
    let (tmp, lang) := checked : bool * string in
    if negb tmp then
      record SkippedLanguage id ;;
      run_result skip msg true
        ["required language parser " ^^ dq ^^ lang ^^ dq
         ^^ " is not available"] ;;
      ret false
    else if (WITH_TIMEOUT g =? 0)%Z && Ascii.eqb (tclass tc) "i" then
      record SkippedInfiniteLoopRisk id ;;
      run_result skip msg true ["may cause an infinite loop"] ;;
      ret false
    else if broken_args_ctags then
      record BrokenPrerequisite id ;;
      run_result error msg false ["broken args.ctags?"] ;;
      ret false
    else
    done <- subprocess_run (timeout_value g) (subject w) ;;
    after_run g tc w done.

Local Close Scope string_scope.

(** ** [run_dir] and [action_run] *)

(** The cases of a run, each with its surroundings, taken one after the
    other.  An exception of a case is caught by [worker]; a case that
    does not return keeps [join_workers] waiting. *)
Fixpoint run_cases (g : Globals) (cases : list (TestCase * World))
    : M unit :=
  match cases with
  | [] => ret tt
  | (tc, w) :: cases' =>
      fun st =>
        match run_tcase g tc w st with
        | (st', Hangs) => (st', Hangs)
        | (st', _) => run_cases g cases' st'
        end
  end.

Definition nonempty (l : list string) : bool :=
  match l with
  | [] => false
  | _ :: _ => true
  end.

(** The last statement of [action_run]. *)
Definition exit_status (r : Results) : Z :=
  if nonempty (L_FAILED_BY_STATUS r) || nonempty (L_FAILED_BY_DIFF r)
     || nonempty (L_FAILED_BY_TIMEED_OUT r) || nonempty (L_BROKEN_ARGS_CTAGS r)
  then 1%Z else 0%Z.

Definition initial : State := mkState no_results [].

(** [action_run], once the arguments are parsed: the cases of all
    categories, then the summary and the exit status. *)
Definition action_run (g : Globals) (cases : list (TestCase * World))
    : Ending Z :=
  match run_cases g cases initial with
  | (st, Returns _) => Returns (exit_status (lists st))
  | (_, Raises e) => Raises e
  | (_, Hangs) => Hangs
  end.

End Harness.

(** * Notions used in the statements *)

Module Notions.
Import Re Normalizer Harness.

(** ** A test case adds to the state; it never reads it *)

Definition merge (r r0 : Results) : Results :=
  mkResults
    (L_PASSED r ++ L_PASSED r0) (L_FIXED r ++ L_FIXED r0)
    (L_FAILED_BY_STATUS r ++ L_FAILED_BY_STATUS r0)
    (L_FAILED_BY_DIFF r ++ L_FAILED_BY_DIFF r0)
    (L_SKIPPED_BY_FEATURES r ++ L_SKIPPED_BY_FEATURES r0)
    (L_SKIPPED_BY_LANGUAGES r ++ L_SKIPPED_BY_LANGUAGES r0)
    (L_SKIPPED_BY_ILOOP r ++ L_SKIPPED_BY_ILOOP r0)
    (L_KNOWN_BUGS r ++ L_KNOWN_BUGS r0)
    (L_FAILED_BY_TIMEED_OUT r ++ L_FAILED_BY_TIMEED_OUT r0)
    (L_BROKEN_ARGS_CTAGS r ++ L_BROKEN_ARGS_CTAGS r0)
    (L_VALGRIND r ++ L_VALGRIND r0).

Definition st_app (a b : State) : State :=
  mkState (merge (lists a) (lists b)) (trace a ++ trace b).

(** [framed c]: from any state, [c] adds what it adds from the empty
    state, and ends the same way. *)
Definition framed {A} (c : M A) : Prop :=
  forall st, c st = (st_app st (fst (c initial)), snd (c initial)).

(** The gating checks, in the order of section 4.3 of the specification. *)
Inductive Gate : Type :=
| GateUnit | GateFeature | GateLanguage | GateInfiniteLoop | GateBroken.

Definition gate_order : list Gate :=
  [GateUnit; GateFeature; GateLanguage; GateInfiniteLoop; GateBroken].

Definition gate_holds (g : Globals) (tc : TestCase) (w : World) (gate : Gate)
    : bool :=
  match gate with
  | GateUnit => check_units g (name tc) (category tc)
  | GateFeature => fst (check_features g (output_feature w) (ffeatures w))
  | GateLanguage =>
      match flanguages w with
      | None => true
      | Some lines => fst (check_languages_loop (list_languages w) lines)
      end
  | GateInfiniteLoop =>
      negb ((WITH_TIMEOUT g =? 0)%Z && Ascii.eqb (tclass tc) "i")
  | GateBroken =>
      negb (isfile_fargs w && negb (force_quit_returncode w =? 0)%Z)
  end.

Definition first_failing (g : Globals) (tc : TestCase) (w : World)
    : option Gate :=
  find (fun gate => negb (gate_holds g tc w gate)) gate_order.

Definition gates_pass (g : Globals) (tc : TestCase) (w : World) : bool :=
  forallb (gate_holds g tc w) gate_order.

Definition gate_outcome (gate : Gate) : option Outcome :=
  match gate with
  | GateUnit => None
  | GateFeature => Some SkippedFeature
  | GateLanguage => Some SkippedLanguage
  | GateInfiniteLoop => Some SkippedInfiniteLoopRisk
  | GateBroken => Some BrokenPrerequisite
  end.

(** What a case does before the feature gate, and before the run of the
    subject when it gets that far. *)
Definition probe_trace (w : World) : list Event :=
  (if isfile_fargs w then [EvRun CForceQuit] else [])
  ++ [EvRun CPrintLanguage; EvCleanTcase; EvMakeBuildDir].

Definition gate_trace (w : World) : list Event :=
  probe_trace w
  ++ match flanguages w with
     | Some _ => [EvRun CListLanguages]
     | None => []
     end.

(** The subject is still running when the deadline of [run_tcase]
    expires. *)
Definition deadline_exceeded (g : Globals) (w : World) : bool :=
  match timeout_value g, subject w with
  | Some secs, Exits ms _ => (1000 * secs <? ms)%Z
  | Some _, Loops => true
  | None, _ => false
  end.

Definition is_tagging (e : Event) : bool :=
  match e with
  | EvRun (CTagging _) => true
  | _ => false
  end.

Definition is_list_languages (e : Event) : bool :=
  match e with
  | EvRun CListLanguages => true
  | _ => false
  end.

Definition is_print_language (e : Event) : bool :=
  match e with
  | EvRun CPrintLanguage => true
  | _ => false
  end.

Definition is_result (e : Event) : bool :=
  match e with
  | EvResult _ _ _ _ => true
  | _ => false
  end.

(** [needle in hay] for strings. *)
Fixpoint contains (needle hay : string) : bool :=
  if String.prefix needle hay then true
  else match hay with
       | EmptyString => false
       | String _ hay' => contains needle hay'
       end.

(** Some result of the trace tells the exit code [rc] in its detail. *)
Definition exit_code_recorded (rc : Z) (tr : list Event) : bool :=
  existsb (fun e =>
             match e with
             | EvResult _ _ _ args => existsb (contains (str rc)) args
             | _ => false
             end) tr.

(** The case was put on the list of outcome [o] by its run. *)
Definition classified (g : Globals) (tc : TestCase) (w : World) (o : Outcome)
    : bool :=
  nonempty (collection o (lists (fst (run_tcase g tc w initial)))).

(** The case is on the Fixed list and not on the Passed list. *)
Definition fixed_never_passed (r : Results) (id : string) : Prop :=
  In id (L_FIXED r) /\ ~ In id (L_PASSED r).

(** The number of result lists on which [id] stands. *)
Definition lists_holding (r : Results) (id : string) : nat :=
  List.length
    (filter (fun o => existsb (String.eqb id) (collection o r)) all_outcomes).

(** The length of the longest prefix of [s] whose characters satisfy
    [p]. *)
Fixpoint run (p : ascii -> bool) (s : text) : nat :=
  match s with
  | a :: s' => if p a then S (run p s') else 0
  | [] => 0
  end.

(** What a greedy repetition of a one-character atom does: take one more
    character when possible, and come back to this place when what
    follows fails. *)
Fixpoint greedy (p : ascii -> bool) (pos : nat) (s : text)
    (k : nat -> text -> option (nat * caps)) : option (nat * caps) :=
  match s with
  | a :: s' =>
      if p a then
        match greedy p (S pos) s' k with
        | Some x => Some x
        | None => k pos s
        end
      else k pos s
  | [] => k pos s
  end.

(** The shape of a text that the etags pattern matches from its start:
    any characters but newlines, a slash, a name without spaces, a comma,
    digits, and then the end of the text or a last newline. *)
Definition EtagsMatch (s A g1 g2 tl : text) : Prop :=
  s = A ++ "/"%char :: g1 ++ ","%char :: g2 ++ tl
  /\ forallb dot A = true
  /\ g1 <> [] /\ forallb non_space g1 = true
  /\ g2 <> [] /\ forallb is_digit g2 = true
  /\ (tl = [] \/ tl = [NL]).

(** The etags pattern after its leading [.*]. *)
Definition etags_tail : regex :=
  Seq (Chr (only "/"))
   (Seq (Group 1 (Plus (Chr non_space)))
   (Seq (Chr (only ","))
        (Group 2 (Seq (Plus (Chr is_digit)) Eol)))).

(** The continuation at the end of a pattern, without [must_advance]. *)
Definition accept : nat -> text -> caps -> option (nat * caps) :=
  fun e _ c => Some (e, c).

(** The loop of the matcher for [Star r], by name. *)
Definition star_loop (r : regex)
    (k : nat -> text -> caps -> option (nat * caps))
    : nat -> nat -> text -> caps -> option (nat * caps) :=
  fix loop (fuel : nat) (pos : nat) (s : text) (c : caps) :=
    match fuel with
    | O => k pos s c
    | S f =>
        match m r pos s c
                (fun pos' s' c' =>
                   if Nat.ltb pos pos' then loop f pos' s' c' else None)
        with
        | Some x => Some x
        | None => k pos s c
        end
    end.

(** The characters of a path component, and the third group of the ctags
    pattern: a component with its slash. *)
Definition path_char : ascii -> bool := both (except "/") (except TAB).

Definition component_re : regex :=
  Group 3 (Seq (Plus (Chr path_char)) (Chr (only "/"))).

(** The second group of the ctags pattern: the directories of a path. *)
Definition dirs_re : regex :=
  Group 2 (Seq (Opt (Chr (only "/"))) (Star component_re)).

(** [s] starts with a path component and a slash. *)
Definition starts_component (s : text) : bool :=
  Nat.ltb 0 (run path_char s)
  && match skipn (run path_char s) s with
     | c :: _ => Ascii.eqb c "/"
     | [] => false
     end.

Definition starts_slash (s : text) : bool :=
  match s with
  | c :: _ => Ascii.eqb c "/"
  | [] => false
  end.

(** The second field of a line of tags: the text between the first tab
    and the next one. *)
Fixpoint after_tab (s : text) : text :=
  match s with
  | [] => []
  | c :: s' => if Ascii.eqb c TAB then s' else after_tab s'
  end.

Fixpoint field (s : text) : text :=
  match s with
  | [] => []
  | c :: s' => if Ascii.eqb c TAB then [] else c :: field s'
  end.

Definition path_field (l : text) : text := field (after_tab l).

(** [s] holds two slashes in a row. *)
Fixpoint has_double_slash (s : text) : bool :=
  match s with
  | [] => false
  | c :: s' => (Ascii.eqb c "/" && starts_slash s') || has_double_slash s'
  end.

(** A continuation that accepts where it stands and keeps group 1. *)
Definition accepting (k : nat -> text -> caps -> option (nat * caps)) : Prop :=
  forall pos s c, exists c', k pos s c = Some (pos, c') /\ group 1 c' = group 1 c.

(** [a] is a prefix of [s]. *)
Fixpoint prefixb (a s : text) : bool :=
  match a, s with
  | [], _ => true
  | x :: a', y :: s' => Ascii.eqb x y && prefixb a' s'
  | _ :: _, [] => false
  end.

(** [Replaced a e s out]: [out] is [s] with every occurrence of [a]
    replaced by [e], the occurrences being taken from left to right and
    not overlapping. *)
Inductive Replaced (a e : text) : text -> text -> Prop :=
| Replaced_end : Replaced a e [] []
| Replaced_hit rest out :
    Replaced a e rest out -> Replaced a e (a ++ rest) (e ++ out)
| Replaced_miss c s out :
    prefixb a (c :: s) = false ->
    Replaced a e s out -> Replaced a e (c :: s) (c :: out).

(** Both texts of the pair stand for themselves. *)
Definition plain_pair (p : anon_pair) : bool :=
  plain_pattern (fst p) && plain_replacement (snd p).

(** The line with the leftmost match of the basename pattern replaced
    by the expansion of its template, and nothing else changed. *)
Definition once (output_type : OutputType) (l : text) : text :=
  match search (fst (basename_filter output_type)) false 0 l with
  | None => l
  | Some (b, e, c) =>
      firstn b l ++ expand (snd (basename_filter output_type)) c ++ skipn e l
  end.

(** The pairs of [anon_filters] applied one after the other. *)
Fixpoint replaced_by_all (anon_filters : list anon_pair) (l out : text)
    : Prop :=
  match anon_filters with
  | [] => out = l
  | p :: ps =>
      exists mid, Replaced (fst p) (snd p) l mid /\ replaced_by_all ps mid out
  end.

(** The case makes the run fail: it is on one of the four lists that
    [action_run] looks at. *)
Definition fails_run (g : Globals) (c : TestCase * World) : bool :=
  classified g (fst c) (snd c) FailedStatus
  || classified g (fst c) (snd c) FailedDiff
  || classified g (fst c) (snd c) TimedOut
  || classified g (fst c) (snd c) BrokenPrerequisite.

(** Sample lines of output: a tags line whose path has an empty
    component, a usual tags line, an xref line with two numbers followed
    by paths, and a json line with two path entries. *)
Definition ctags_line_double_slash : text :=
  t "main" ++ TAB :: t "src//main.c" ++ TAB :: t "/^int main()$/".

Definition ctags_line_usual : text :=
  t "main" ++ TAB :: t "/home/u/src/main.c" ++ TAB :: t "/^int main()$/".

Definition xref_line_two_paths : text :=
  t "f function 12 aa/bb 34 cc/dd/eee".

Definition json_line_two_paths : text :=
  [QUOTE] ++ t "path" ++ [QUOTE] ++ t ": " ++ [QUOTE] ++ t "a/b" ++ [QUOTE]
  ++ t ", " ++ [QUOTE] ++ t "path" ++ [QUOTE] ++ t ": " ++ [QUOTE]
  ++ t "c/d" ++ [QUOTE].

(** A sample line of json output with two path entries and a hash that
    occurs twice, and a sample pair of hashes. *)
Definition sample_json_line : text :=
  [QUOTE] ++ t "path" ++ [QUOTE] ++ t ": " ++ [QUOTE] ++ t "a/x.c" ++ [QUOTE]
  ++ t ", " ++ [QUOTE] ++ t "path" ++ [QUOTE] ++ t ": " ++ [QUOTE]
  ++ t "b/y.c" ++ [QUOTE] ++ t " anon1f2e3d4c anon1f2e3d4c".

Definition sample_pairs : list anon_pair := [(t "1f2e3d4c", t "0a0b0c0d")].

(** Sample surroundings: a subject that knows json and regex, a case
    directory with [expected.tags] only, a subject that exits with 0 after
    10 ms, and a comparison that finds the files equal. *)
Definition sample_globals : Globals :=
  mkGlobals [] ["json"%string; "regex"%string] 0 false false.

(** A library for the samples: it refuses the patterns that are left to
    it, as Python's [re] refuses an opening parenthesis alone. *)
Definition sample_library : Library :=
  mkLibrary (fun _ => false) (fun _ _ _ => None).

Definition sample_world : World :=
  mkWorld true false false false false false 0 "C" None None []
    (Exits 10 0) [] (fun _ => []) [] (fun _ => true) (fun _ => 0%Z)
    sample_library.

Definition sample_case (name : string) (tclass : ascii) : TestCase :=
  mkTestCase "Units/case/input.c" "Units/case" name tclass "ROOT"
    "Units/case" [].

Definition with_subject (w : World) (b : Behaviour) : World :=
  mkWorld (expected_tags w) (expected_tags_e w) (expected_tags_x w)
    (expected_tags_json w) (which_ffilter w) (isfile_fargs w)
    (force_quit_returncode w) (guessed_lang w) (ffeatures w) (flanguages w)
    (list_languages w) b (rawout w) (anonhash w) (pipeline_output w)
    (filecmp w) (diff w) (library w).

Definition with_features (w : World) (lines : list string) : World :=
  mkWorld (expected_tags w) (expected_tags_e w) (expected_tags_x w)
    (expected_tags_json w) (which_ffilter w) (isfile_fargs w)
    (force_quit_returncode w) (guessed_lang w) (Some lines) (flanguages w)
    (list_languages w) (subject w) (rawout w) (anonhash w)
    (pipeline_output w) (filecmp w) (diff w) (library w).

End Notions.

(** * Further notions *)

Module MoreNotions.
Import Re Normalizer Harness Notions.

(** [c] never ends without returning or raising. *)
Definition never_hangs {A} (c : M A) : Prop :=
  forall st, snd (c st) <> Hangs.

(** The outcomes for which [run_tcase] returns True. *)
Definition tolerated (o : Outcome) : bool :=
  match o with
  | Passed | KnownBug => true
  | _ => false
  end.

(** The paths that [anon_normalize_sub] asks the subject about. *)
Fixpoint anon_queries (input_actual : text) (args : list text) : list text :=
  input_actual :: input_expected input_actual
  :: match args with
     | a :: args' => anon_queries a args'
     | [] => []
     end.

(** The inputs of a case: the input file, then the extra inputs. *)
Definition inputs (tc : TestCase) : list text :=
  t (finput tc) :: map t (extra_inputs tc).

(** The pairs of hashes for the inputs: for each input, the first line
    of what the subject prints for it and the first line of what it
    prints for its path under [./Units]. *)
Definition hash_pairs (w : World) (inputs : list text) : list anon_pair :=
  map (fun a => (hd [] (anonhash w a),
                 hd [] (anonhash w (input_expected a)))) inputs.

Definition is_anonhash (e : Event) : bool :=
  match e with
  | EvRun (CAnonhash _) => true
  | _ => false
  end.

Definition is_diff (e : Event) : bool :=
  match e with
  | EvRun CDiff => true
  | _ => false
  end.

Definition is_filter_pipeline (e : Event) : bool :=
  match e with
  | EvRun CFilterPipeline => true
  | _ => false
  end.

(** The events of the normaliser and of the comparison. *)
Definition is_comparison (e : Event) : bool :=
  is_anonhash e || is_diff e || is_filter_pipeline e.

(** Surroundings in which the raw output holds a hash: [answers] is what
    the subject prints for [--_anonhash]. *)
Definition hashing_world (answers : text -> list text) : World :=
  mkWorld true false false false false false 0 "C" None None []
    (Exits 10 0) [t "x anon1f2e3d4c"] answers [] (fun _ => true)
    (fun _ => 0%Z) sample_library.

(** Surroundings without any expected file. *)
Definition bare_world : World :=
  mkWorld false false false false false false 0 "C" None None []
    (Exits 10 0) [] (fun _ => []) [] (fun _ => true) (fun _ => 0%Z)
    sample_library.

(** The run of the case does not end. *)
Definition hangs_case (g : Globals) (c : TestCase * World) : bool :=
  match snd (run_tcase g (fst c) (snd c) initial) with
  | Hangs => true
  | _ => false
  end.

(** The character [a] occurs in [s]. *)
Definition has (a : ascii) (s : string) : bool := existsb (Ascii.eqb a) (t s).

(** One turn of the loop of [check_units]: the unit [u] selects the case
    [name] of [category]. *)
Definition selects (u name category : string) : bool :=
  match rmatch unit_re (t u) with
  | Some c =>
      String.eqb (s_of (group 1 c)) category
      && String.eqb (s_of (group 2 c)) name
  | None => String.eqb u name
  end.

(** The entry of a features file asks for the absence of a feature. *)
Definition negated (x : string) : bool :=
  match x with
  | String "!" _ => true
  | _ => false
  end.

(** The entries that [check_features] goes through. *)
Definition features_asked (feature : string) (ffile : option (list string))
    : list string :=
  if negb (String.eqb feature EmptyString) then [feature]
  else match ffile with
       | Some lines => lines
       | None => []
       end.

(** The entry is empty, or it names, without negation, a feature of the
    subject. *)
Definition feature_met (g : Globals) (x : string) : Prop :=
  x = EmptyString \/ (negated x = false /\ In x (_FEATURE_LIST g)).

(** A path component: some characters, none of them a slash or a tab. *)
Definition component (x : text) : Prop :=
  x <> [] /\ forallb path_char x = true.

(** The directories of a path: each component with its slash. *)
Definition joined (comps : list text) : text :=
  List.concat (map (fun x => x ++ ["/"%char]) comps).

(** What a lazy repetition of a one-character atom does: go on with what
    follows where it stands, and take one more character only when that
    fails. *)
Fixpoint lazy (p : ascii -> bool) (pos : nat) (s : text)
    (k : nat -> text -> option (nat * caps)) : option (nat * caps) :=
  match k pos s with
  | Some x => Some x
  | None =>
      match s with
      | a :: s' => if p a then lazy p (S pos) s' k else None
      | [] => None
      end
  end.

(** [a] occurs in [s] at offset [i]. *)
Definition occurs_at (a s : text) (i : nat) : bool := prefixb a (skipn i s).

(** What an event does to the files CMDLINE.tmp and RESULT.tmp in the
    build directory of the case: [clean_tcase] removes them,
    [run_record_cmdline] writes the first, and [run_result] with an
    output file writes the second.  When the build directory is made,
    [prepare_bundles] copies into it the files of the case directory that
    are no input, expected output, README or condition of the case:
    [bundled] says whether it copies a CMDLINE.tmp, and whether it
    copies a RESULT.tmp. *)
Definition leave (bundled kept : bool * bool) (e : Event) : bool * bool :=
  match e with
  | EvCleanTcase => (false, false)
  | EvMakeBuildDir => (fst kept || fst bundled, snd kept || snd bundled)
  | EvRecordCmdline => (true, snd kept)
  | EvResult _ _ true _ => (fst kept, true)
  | _ => kept
  end.

(** The outcomes of a case that a gate stops once its build directory is
    made. *)
Definition stopped (o : Outcome) : bool :=
  match o with
  | SkippedFeature | SkippedLanguage | SkippedInfiniteLoopRisk
  | BrokenPrerequisite => true
  | _ => false
  end.

Definition is_broken (o : Outcome) : bool :=
  match o with
  | BrokenPrerequisite => true
  | _ => false
  end.

Definition cmdline_kept (o : Outcome) : bool :=
  match o with
  | FailedStatus | FailedDiff | TimedOut | KnownBug | ValgrindError => true
  | _ => false
  end.

Definition result_kept (o : Outcome) : bool :=
  match o with
  | Passed | Fixed | BrokenPrerequisite => false
  | _ => true
  end.

(** The text before the path in a line of json output. *)
Definition json_key : text := QUOTE :: t "path" ++ QUOTE :: t ": ".

(** A character of a file name in json output: neither a slash nor a
    double quote. *)
Definition name_char : ascii -> bool := both (except "/") (except QUOTE).

(** The number of entries on the ten lists other than the Fixed list. *)
Definition listed (r : Results) : nat :=
  List.length (L_PASSED r) + List.length (L_FAILED_BY_STATUS r)
  + List.length (L_FAILED_BY_DIFF r) + List.length (L_SKIPPED_BY_FEATURES r)
  + List.length (L_SKIPPED_BY_LANGUAGES r) + List.length (L_SKIPPED_BY_ILOOP r)
  + List.length (L_KNOWN_BUGS r) + List.length (L_FAILED_BY_TIMEED_OUT r)
  + List.length (L_BROKEN_ARGS_CTAGS r) + List.length (L_VALGRIND r).

(** The case passes the unit filter and its run returns. *)
Definition counted (g : Globals) (c : TestCase * World) : bool :=
  check_units g (name (fst c)) (category (fst c))
  && match snd (run_tcase g (fst c) (snd c) initial) with
     | Returns _ => true
     | _ => false
     end.

End MoreNotions.

(** * Finding the test cases *)

Module Discovery.
Import Re Normalizer Harness Notions.

Local Open Scope string_scope.

Definition BACKSLASH : ascii := "092"%char.

(** [string.startswith(prefix)] and [string.endswith(suffix)] *)
Definition startswith (s prefix : text) : bool := prefixb prefix s.

Definition endswith (s suffix : text) : bool := prefixb (rev suffix) (rev s).

Definition remove_prefix (s prefix : string) : string :=
  if startswith (t s) (t prefix)
  then s_of (skipn (List.length (t prefix)) (t s))
  else s.

(** [line()]: sixty times the character. *)
Definition line (ch : ascii) : string := s_of (repeat ch 60).

Definition accepted_file (fname : string) : bool :=
  (* Ignore backup files *)
  negb (endswith (t fname) (t "~")).

(** [x.replace('\\', '/')] *)
Definition to_slashes (x : string) : string :=
  s_of (map (fun c => if Ascii.eqb c BACKSLASH then "/"%char else c) (t x)).

Fixpoint dropwhile (p : ascii -> bool) (s : text) : text :=
  match s with
  | [] => []
  | c :: s' => if p c then dropwhile p s' else s
  end.

(** [os.path.dirname] of posixpath: the text up to the last slash, without
    its trailing slashes unless it is made of slashes only. *)
Definition dirname (p : string) : string :=
  let daeh := dropwhile (except "/") (rev (t p)) in
  match daeh with
  | [] => EmptyString
  | _ :: _ =>
      if negb (forallb (only "/") daeh)
      then s_of (rev (dropwhile (only "/") daeh))
      else s_of (rev daeh)
  end.

(** [sorted] on strings. *)
Fixpoint insert_sorted (x : string) (l : list string) : list string :=
  match l with
  | [] => [x]
  | y :: l' => if String.leb x y then x :: l else y :: insert_sorted x l'
  end.

Definition sorted (l : list string) : list string :=
  fold_right insert_sorted [] l.

Definition is_tclass (c : ascii) : bool := existsb (Ascii.eqb c) (t "dbtiv").

(* ^ .* / ( .* ) \. ( [dbtiv] ) $ *)
Definition tcase_re : regex :=
  Seq Bol
   (Seq (Star (Chr dot))
   (Seq (Chr (only "/"))
   (Seq (Group 1 (Star (Chr dot)))
   (Seq (Chr (only "."))
   (Seq (Group 2 (Chr is_tclass)) Eol))))).

(** [(name, tclass) = ret.group(1, 2)]; without a match [ret] is None. *)
Definition name_and_tclass (tcase_dir : string) : option (string * ascii) :=
  match rmatch tcase_re (t tcase_dir) with
  | Some c =>
      match group 2 c with
      | [x] => Some (s_of (group 1 c), x)
      | _ => None
      end
  | None => None
  end.

(** The loop of [run_dir] over the paths that the first [glob] gives;
    [glob_extra dname] is what the two other calls of [glob] give
    together.  The result is what has been put on the queue, and the
    exception that has ended the loop, if any. *)
Fixpoint run_dir_loop (category base_dir build_base_dir : string)
    (glob_extra : string -> list string) (inputs : list string)
    : list TestCase * option string :=
  match inputs with
  | [] => ([], None)
  | finput :: inputs' =>
      let finput := to_slashes finput in     (* for Windows *)
      if negb (accepted_file finput)
      then run_dir_loop category base_dir build_base_dir glob_extra inputs'
      else
        let dname := dirname finput in
        let extra_inputs :=
          sorted (map to_slashes (filter accepted_file (glob_extra dname))) in
        let tcase_dir := dname in
        let build_tcase_dir :=
          build_base_dir ++ remove_prefix tcase_dir base_dir in
        match name_and_tclass tcase_dir with
        | None => ([], Some "AttributeError")
        | Some (name, tclass) =>
            let (queue, e) :=
              run_dir_loop category base_dir build_base_dir glob_extra
                inputs' in
            (mkTestCase finput tcase_dir name tclass category build_tcase_dir
               extra_inputs :: queue, e)
        end
  end.

(** [run_dir]: what it prints, what it puts on the queue, and the
    exception that ends it, if any. *)
Definition run_dir (CATEGORIES : list string)
    (category base_dir build_base_dir : string)
    (glob_extra : string -> list string) (inputs : list string)
    : list string * (list TestCase * option string) :=
  (* Filtered by CATEGORIES *)
  if Nat.ltb 0 (List.length CATEGORIES) && negb (mem category CATEGORIES)
  then ([], ([], None))
  else ([String NL "Category: " ++ category; line "-"],
        run_dir_loop category base_dir build_base_dir glob_extra inputs).

(** [str.split(sep)] for a separator of one character. *)
Fixpoint split_on (sep : ascii) (s : text) : list text :=
  match s with
  | [] => [[]]
  | c :: s' =>
      if Ascii.eqb c sep then [] :: split_on sep s'
      else match split_on sep s' with
           | h :: tl => (c :: h) :: tl
           | [] => [[c]]
           end
  end.

(** The value of CATEGORIES that [action_run] makes of the argument of
    [--categories]; without the option, or with an empty argument,
    CATEGORIES stays empty. *)
Definition normalize_category (x : string) : string :=
  if String.eqb x "ROOT" || endswith (t x) (t ".r") then x else x ++ ".r".

Definition categories_of (arg : string) : list string :=
  if String.eqb arg EmptyString then []
  else map (fun x => normalize_category (s_of x)) (split_on "," (t arg)).

(* ( .* ) / ( .* ) *)
Definition pretend_re : regex :=
  Seq (Group 1 (Star (Chr dot)))
      (Seq (Chr (only "/")) (Group 2 (Star (Chr dot)))).

(** [make_pretense_map]: [error_exit] is defined nowhere in units.py, so
    that each of its three calls raises NameError. *)
Fixpoint make_pretense_map_loop (pieces : list text) (r : text)
    : Ending text :=
  match pieces with
  | [] => Returns r
  | p :: pieces' =>
      match rmatch pretend_re p with
      | None => Raises "NameError"
      | Some c =>
          let newlang := group 1 c in
          let oldlang := group 2 c in
          match newlang, oldlang with
          | [], _ => Raises "NameError"
          | _, [] => Raises "NameError"
          | _, _ =>
              make_pretense_map_loop pieces'
                (r ++ t " --_pretend-" ++ newlang ++ t "=" ++ oldlang)%list
          end
      end
  end.

Definition make_pretense_map (arg : string) : Ending text :=
  make_pretense_map_loop (split_on "," (t arg)) [].

End Discovery.

(** * Further notions, for the discovery of the cases *)

Module DiscoveryNotions.
Import Re Normalizer Harness Notions MoreNotions Discovery.

(** One entry of the argument of [--with-pretense-map], and the entries
    with a comma between them. *)
Definition pretense_entry (p : text * text) : text :=
  fst p ++ "/"%char :: snd p.

Fixpoint join_commas (pieces : list text) : text :=
  match pieces with
  | [] => []
  | [p] => p
  | p :: pieces' => p ++ ","%char :: join_commas pieces'
  end.

(** A language name in such an entry: not empty, without newline, slash
    or comma. *)
Definition lang_name (x : text) : Prop :=
  x <> [] /\ forallb dot x = true /\ forallb (except "/") x = true
  /\ forallb (except ",") x = true.

(** The pieces of the argument of [--categories]. *)
Definition category_args (arg : string) : list string :=
  map s_of (split_on "," (t arg)).

End DiscoveryNotions.

(** * The summary of a run *)

Module Summary.
Import Re Normalizer Harness Notions Discovery.

Local Notation "a ^^ b" := (String.append a%string b%string)
  (at level 60, right associativity).

Local Open Scope string_scope.
Local Open Scope list_scope.












End Summary.

(** * Further notions, for the summary *)

Module SummaryNotions.
Import Re Normalizer Harness Notions MoreNotions Discovery Summary.

(** The sections that [run_summary] leaves out are empty. *)
Definition nothing_hidden (g : Globals) (r : Results) : Prop :=
  (WITH_TIMEOUT g = 0%Z -> L_FAILED_BY_TIMEED_OUT r = [])
  /\ (WITH_TIMEOUT g <> 0%Z -> L_SKIPPED_BY_ILOOP r = [])
  /\ (WITH_VALGRIND g = false -> L_VALGRIND r = []).

(** What [after_run] can make of a run that has ended in [done]. *)
Definition possible_after (g : Globals) (done : Completed) (o : Outcome)
    : bool :=
  match o, done with
  | TimedOut, TimeoutExpired => true
  | ValgrindError, Finished _ => WITH_VALGRIND g
  | (Passed | KnownBug | FailedStatus | FailedDiff), Finished _ => true
  | _, _ => false
  end.

End SummaryNotions.

(** * The tmain tests *)

Module Tmain.
Import Re Normalizer Harness Notions Discovery.

Local Notation "a ^^ b" := (String.append a%string b%string)
  (at level 60, right associativity).

Local Open Scope string_scope.
Local Open Scope list_scope.

Inductive Aspect : Type := a_stdout | a_stderr | a_exit | a_tags.

Definition aspect_name (a : Aspect) : string :=
  match a with
  | a_stdout => "stdout"
  | a_stderr => "stderr"
  | a_exit => "exit"
  | a_tags => "tags"
  end.

Definition CODE_FOR_IGNORING_THIS_TMAIN_TEST : Z := 77.

(** A test directory, and what [tmain_sub] gets from the file system and
    from the programs it starts there.  The programs are taken to end,
    and the calls of the file system to succeed. *)
Record TestDir : Type := mkTestDir {
  subdir : string;
  returncode : Z;               (* of run.sh *)
  stdout_text : text;           (* of run.sh, decoded *)
  stderr_decodes : bool;        (* ret.stderr.decode('utf-8') gives a text *)
  stderr_writes : bool;         (* that text can be written to
                                   stderr-actual.txt, in the encoding of
                                   the locale *)
  expected_txt : Aspect -> bool;  (* isfile(subdir/<aspect>-expected.txt) *)
  tags_file : bool;             (* isfile(build_subdir/tags) after run.sh *)
  filecmp_cmp : Aspect -> bool;   (* filecmp.cmp(actual, expected) *)
  git_ls_files : Aspect -> bool;  (* git ls-files prints the expected file *)
  core_dump : bool;             (* 'core dump' in stderr-actual.txt *)
  print_backtraces_raises : option string
                                (* the exception of print_backtraces, if
                                   any: the output of gdb for a core file
                                   does not decode as UTF-8, or cannot be
                                   written to gdb-backtrace.txt *)
}.

(** The programs that [shutil.which] looks for, the global [CTAGS], and
    Python's [re] on the pattern made of the name of the program. *)
Record Tools : Type := mkTools {
  which_git : bool;
  which_gdb : bool;
  CTAGS : string;
  re_library : Library
}.

(** What goes to the buffer of a test: text, and the lines that
    [run_result] writes. *)
Inductive Item : Type :=
| ItText (s : string)
| ItResult (result_type : ResultType) (msg : string) (args : list string).

Inductive TEvent : Type :=
| TMakedirs (build_subdir : string)
| TRemoveStale                 (* the files *-actual.txt of an earlier run *)
| TRunSh (subdir : string)
| TWrite (a : Aspect)          (* <aspect>-actual.txt *)
| TRenameTags                  (* tags to tags-actual.txt *)
| TDiff (a : Aspect)           (* writes <aspect>-diff.txt *)
| TRemove (a : Aspect)         (* <aspect>-actual.txt *)
| TGitLsFiles (a : Aspect)
| TBacktraces
| TPrint (buf : list Item)
| TTraceback (e : string).     (* traceback.print_exc() of [worker] *)

Record TState : Type := mkTState {
  TMAIN_STATUS : bool;
  TMAIN_FAILED : list string;
  events : list TEvent
}.

Definition did (evs : list TEvent) (st : TState) : TState :=
  mkTState (TMAIN_STATUS st) (TMAIN_FAILED st) (events st ++ evs).

(** [isfile(actual_txt)] in the loop of [tmain_sub]: the files of the
    earlier runs are removed, three files are written, and
    tags-actual.txt is there when run.sh has left a tags file. *)
Definition actual_txt (td : TestDir) (a : Aspect) : bool :=
  match a with
  | a_tags => tags_file td
  | _ => true
  end.

(** [tmain_compare]: the result, what it starts, and what it adds to the
    buffer. *)
Definition tmain_compare (td : TestDir) (build_subdir : string) (a : Aspect)
    : bool * list TEvent * Item :=
  let msg := fmt_msg (aspect_name a) in
  let generated := build_subdir ^^ "/" ^^ aspect_name a ^^ "-diff.txt" in
  if actual_txt td a && expected_txt td a && filecmp_cmp td a
  then (true, [], ItResult ok msg [])
  else (false, [TDiff a], ItResult error msg ["diff: " ^^ generated]).

(** [failed_git_marker] *)
Definition failed_git_marker (tools : Tools) (td : TestDir) (a : Aspect)
    : list TEvent * string :=
  if which_git tools
  then ([TGitLsFiles a], if git_ls_files td a then EmptyString else "<G>")
  else ([], EmptyString).

Definition is_stderr (a : Aspect) : bool :=
  match a with
  | a_stderr => true
  | _ => false
  end.

(** The loop of [tmain_sub] over the aspects: the state, the buffer,
    and the exception that ends the loop, if any. *)
Fixpoint aspects_loop (tools : Tools) (td : TestDir)
    (test_name build_subdir : string) (l : list Aspect)
    (st : TState) (buf : list Item) : TState * list Item * option string :=
  match l with
  | [] => (st, buf, None)
  | a :: l' =>
      if expected_txt td a then
        let '(same, evs, item) := tmain_compare td build_subdir a in
        if same then
          aspects_loop tools td test_name build_subdir l'
            (did (evs ++ [TRemove a]) st) (buf ++ [item])
        else
          let (git, marker) := failed_git_marker tools td a in
          let failed :=
            TMAIN_FAILED st
            ++ [test_name ^^ "/" ^^ aspect_name a ^^ "-compare" ^^ marker] in
          let st := mkTState false failed (events st ++ evs ++ git) in
          if is_stderr a && core_dump td && which_gdb tools then
            (* print_backtraces *)
            let st := did [TBacktraces] st in
            match print_backtraces_raises td with
            | None =>
                aspects_loop tools td test_name build_subdir l' st
                  (buf ++ [item])
            | Some e => (st, buf ++ [item], Some e)
            end
          else
            aspects_loop tools td test_name build_subdir l' st
              (buf ++ [item])
      else if actual_txt td a then
        aspects_loop tools td test_name build_subdir l'
          (did [TRemove a] st) buf
      else aspects_loop tools td test_name build_subdir l' st buf
  end.

(** [stdout.replace("\n", '')] *)
Definition without_newlines (s : text) : string :=
  s_of (filter (fun c => negb (Ascii.eqb c NL)) s).

(** [os.path.basename] of posixpath, and [os.path.basename(subdir)[:-2]] *)
Definition basename (p : string) : string :=
  s_of (rev (firstn (run (except "/") (rev (t p))) (rev (t p)))).

Definition test_name_of (subdir : string) : string :=
  let b := t (basename subdir) in
  s_of (firstn (List.length b - 2) b).

(** The pattern of [re.sub] that makes the name of the program
    canonical. *)
Definition program_pattern (tools : Tools) : text :=
  t "(?m)^" ++ t (basename (CTAGS tools)) ++ t ":".

(** [tmain_sub]: the state it leaves, and how it ends.  The text that
    goes into the three files (the exit code, the decoded output, the
    error output with the name of the program made canonical) is seen
    again through [filecmp_cmp] only.  The output of run.sh always
    decodes, as iso-8859-1 when not as UTF-8; its error output is decoded
    as UTF-8 only. *)
Definition tmain_sub (tools : Tools) (td : TestDir)
    (test_name build_subdir : string) (st : TState) : TState * Ending bool :=
  let st := did [TMakedirs build_subdir; TRemoveStale] st in
  let strbuf := [ItText (String NL "Testing " ^^ test_name);
                 ItText (line "-")] in
  let st := did [TRunSh (subdir td)] st in
  if negb (stderr_decodes td) then (st, Raises "UnicodeDecodeError")
  else if negb (String.eqb (basename (CTAGS tools)) "ctags")
          && negb (compiles (re_library tools) (program_pattern tools))
  then (st, Raises "re.error")
  else if (returncode td =? CODE_FOR_IGNORING_THIS_TMAIN_TEST)%Z then
    (did [TPrint (strbuf
                  ++ [ItResult skip EmptyString
                        [without_newlines (stdout_text td)]])] st,
     Returns true)
  else
    let st := did [TWrite a_exit; TWrite a_stdout] st in
    if negb (stderr_writes td) then (st, Raises "UnicodeEncodeError")
    else
    let st := did [TWrite a_stderr] st in
    let st := if tags_file td then did [TRenameTags] st else st in
    match aspects_loop tools td test_name build_subdir
            [a_stdout; a_stderr; a_exit; a_tags] st strbuf with
    | (st, strbuf, None) => (did [TPrint strbuf] st, Returns true)
    | (st, _, Some e) => (st, Raises e)
    end.

(** [worker], for one item of the queue: an exception of the call is
    printed and goes no further. *)
Definition worker (call : TState -> TState * Ending bool) (st : TState)
    : TState :=
  match call st with
  | (st', Raises e) => did [TTraceback e] st'
  | (st', _) => st'
  end.

(** The loop of [tmain_run] over the directories that [glob] gives, and
    the workers on the queue that it fills.  The tests are taken one
    after the other here; the workers of units.py take them as they
    come, several at a time. *)
Fixpoint tmain_loop (tools : Tools) (build_topdir : string)
    (units : list string) (dirs : list TestDir) (st : TState) : TState :=
  match dirs with
  | [] => st
  | td :: dirs' =>
      let test_name := test_name_of (subdir td) in
      if Nat.ltb 0 (List.length units) && negb (mem test_name units)
      then tmain_loop tools build_topdir units dirs' st
      else
        let build_subdir := build_topdir ^^ "/" ^^ basename (subdir td) in
        tmain_loop tools build_topdir units dirs'
          (worker (tmain_sub tools td test_name build_subdir) st)
  end.

(** [tmain_run]; [detail] is what [tmain_compare_result] prints. *)
Definition tmain_run (tools : Tools) (SHOW_DIFF_OUTPUT : bool)
    (detail : list Item) (build_topdir : string) (units : list string)
    (dirs : list TestDir) (st : TState) : bool * TState :=
  let st := mkTState true (TMAIN_FAILED st) (events st) in
  let st := tmain_loop tools build_topdir units dirs st in
  let report :=
    [ItText EmptyString]
    ++ if negb (TMAIN_STATUS st) then
         [ItText "Failed tests"; ItText (line "=")]
         ++ map (fun f =>
                   ItText (s_of (sub (Lit (t "<G>"))
                                   [PLit (t " (not committed/cached yet)")]
                                   (t f) 0)))
              (TMAIN_FAILED st)
         ++ [ItText EmptyString]
         ++ (if SHOW_DIFF_OUTPUT
             then [ItText "Detail [compare]"; ItText (line "-")] ++ detail
             else [])
       else [] in
  (TMAIN_STATUS st, did [TPrint report] st).

(** The state when units.py is loaded. *)
Definition loaded : TState := mkTState true [] [].

(** [action_tmain], once the arguments are parsed. *)
Definition action_tmain (tools : Tools) (SHOW_DIFF_OUTPUT : bool)
    (detail : list Item) (build_dir : string) (units : list string)
    (dirs : list TestDir) : Z :=
  if fst (tmain_run tools SHOW_DIFF_OUTPUT detail build_dir units dirs loaded)
  then 0%Z else 1%Z.

End Tmain.

(** * Further notions, for the tmain tests *)

Module TmainNotions.
Import Re Normalizer Harness Notions Discovery Tmain.

(** The test of the directory is among those asked for. *)
Definition selected (units : list string) (td : TestDir) : bool :=
  negb (Nat.ltb 0 (List.length units)
        && negb (mem (test_name_of (subdir td)) units)).

(** The comparison of the aspect, when it is made, fails. *)
Definition aspect_fails (td : TestDir) (a : Aspect) : bool :=
  expected_txt td a && negb (actual_txt td a && filecmp_cmp td a).

Definition all_aspects : list Aspect := [a_stdout; a_stderr; a_exit; a_tags].

(** The name of the program needs no pattern, or its pattern compiles. *)
Definition canonical (tools : Tools) : bool :=
  String.eqb (basename (CTAGS tools)) "ctags"
  || compiles (re_library tools) (program_pattern tools).

(** The test gets as far as its comparisons: its error output decodes
    and can be written, the name of the program can be made canonical,
    and run.sh does not exit with 77. *)
Definition compared (tools : Tools) (td : TestDir) : bool :=
  stderr_decodes td && canonical tools
  && negb (returncode td =? CODE_FOR_IGNORING_THIS_TMAIN_TEST)%Z
  && stderr_writes td.

(** The backtraces are asked for after the comparison of the aspect,
    and printing them raises. *)
Definition backtraces_raise (tools : Tools) (td : TestDir) (a : Aspect)
    : bool :=
  aspect_fails td a && is_stderr a && core_dump td && which_gdb tools
  && match print_backtraces_raises td with
     | Some _ => true
     | None => false
     end.

(** The aspects of [l] that the loop of [tmain_sub] gets to. *)
Fixpoint reached (tools : Tools) (td : TestDir) (l : list Aspect)
    : list Aspect :=
  match l with
  | [] => []
  | a :: l' =>
      a :: if backtraces_raise tools td a then [] else reached tools td l'
  end.

Definition test_fails (tools : Tools) (td : TestDir) : bool :=
  compared tools td && existsb (aspect_fails td) all_aspects.

(** Sample tools, and a sample directory: run.sh exits with 0, its error
    output decodes, only stdout-expected.txt is there, and the comparison
    is as [same] tells. *)
Definition sample_tools : Tools :=
  mkTools true false "ctags" sample_library.

Definition sample_dir (name : string) (same : bool) : TestDir :=
  mkTestDir ("Tmain/" ++ name ++ ".d") 0 [] true true (fun a =>
    match a with a_stdout => true | _ => false end) false (fun _ => same)
    (fun _ => true) false None.

(** The same directory with an error output that does not decode. *)
Definition garbled_dir (name : string) (same : bool) : TestDir :=
  mkTestDir ("Tmain/" ++ name ++ ".d") 0 [] false true (fun a =>
    match a with a_stdout => true | _ => false end) false (fun _ => same)
    (fun _ => true) false None.

(** The entry of TMAIN_FAILED for a failed comparison. *)
Definition failed_entry (tools : Tools) (td : TestDir) (a : Aspect) : string :=
  (test_name_of (subdir td) ++ "/" ++ aspect_name a ++ "-compare"
   ++ snd (failed_git_marker tools td a))%string.

(** The entries that a test adds to TMAIN_FAILED. *)
Definition failed_entries (tools : Tools) (units : list string) (td : TestDir)
    : list string :=
  if selected units td && compared tools td
  then map (failed_entry tools td)
         (filter (aspect_fails td) (reached tools td all_aspects))
  else [].

End TmainNotions.

(** * The language that the subject guesses *)

Module Probe.
Import Re Normalizer Harness Notions.

Definition CR : ascii := "013"%char.

(** [x.replace("\r\n", "\n")] *)
Fixpoint crlf_to_lf (s : text) : text :=
  match s with
  | [] => []
  | c :: s' =>
      match s' with
      | d :: s'' =>
          if Ascii.eqb c CR && Ascii.eqb d NL then NL :: crlf_to_lf s''
          else c :: crlf_to_lf s'
      | [] => [c]
      end
  end.

(** [x.replace("\n", '')] *)
Definition drop_newlines (s : text) : text :=
  filter (fun c => negb (Ascii.eqb c NL)) s.

(* ^ .* : SP , with SP for the space *)
Definition lang_prefix_re : regex :=
  Seq Bol (Seq (Star (Chr dot)) (Lit (t ": "))).

(** [guessed_lang] of [run_tcase], from what the subject prints for
    [--print-language]. *)
Definition guess_lang (stdout : text) : text :=
  sub lang_prefix_re [] (drop_newlines (crlf_to_lf stdout)) 0.

End Probe.

(** * Further notions, for the guessed language *)

Module ProbeNotions.
Import Re Normalizer Harness Notions Probe.

(** Neither a carriage return nor a newline. *)
Definition plain (c : ascii) : bool :=
  negb (Ascii.eqb c CR) && negb (Ascii.eqb c NL).

End ProbeNotions.

(** * Properties *)

Unset Implicit Arguments.

Module Properties.
Import Re Normalizer Harness Notions.


Lemma merge_assoc r1 r2 r3 : merge r1 (merge r2 r3) = merge (merge r1 r2) r3.
Proof. unfold merge; simpl; now rewrite !app_assoc. Qed.

Lemma merge_nil_r r : merge r no_results = r.
Proof. destruct r; unfold merge; simpl; now rewrite !app_nil_r. Qed.

Lemma merge_nil_l r : merge no_results r = r.
Proof. now destruct r. Qed.

Lemma st_app_assoc a b c : st_app a (st_app b c) = st_app (st_app a b) c.
Proof. unfold st_app; simpl; now rewrite merge_assoc, app_assoc. Qed.

Lemma st_app_initial_r a : st_app a initial = a.
Proof. destruct a; unfold st_app; simpl; now rewrite merge_nil_r, app_nil_r. Qed.

Lemma st_app_initial_l a : st_app initial a = a.
Proof. destruct a; unfold st_app; simpl; now rewrite merge_nil_l. Qed.

Lemma merge_add_to o x r r0 : add_to o x (merge r r0) = merge r (add_to o x r0).
Proof. destruct r, r0, o; unfold merge; simpl; now rewrite <- ?app_assoc. Qed.

Lemma framed_ret {A} (a : A) : framed (ret a).
Proof. intro st; unfold ret; simpl; now rewrite st_app_initial_r. Qed.

Lemma framed_raise {A} e : framed (@raise A e).
Proof. intro st; unfold raise; simpl; now rewrite st_app_initial_r. Qed.

Lemma framed_hang {A} : framed (@hang A).
Proof. intro st; unfold hang; simpl; now rewrite st_app_initial_r. Qed.

Lemma framed_emit e : framed (emit e).
Proof.
  intro st; unfold emit, st_app; simpl. now rewrite merge_nil_r.
Qed.

Lemma framed_record o x : framed (record o x).
Proof.
  intro st; unfold record, st_app, initial; cbn [fst snd lists trace].
  now rewrite app_nil_r, <- merge_add_to, merge_nil_r.
Qed.

Lemma framed_bind {A B} (c : M A) (f : A -> M B) :
  framed c -> (forall a, framed (f a)) -> framed (bind c f).
Proof.
  intros Hc Hf st. unfold bind. rewrite (Hc st).
  destruct (c initial) as [s0 [a | e | ]]; simpl.
  - rewrite (Hf a (st_app st s0)), (Hf a s0). simpl.
    now rewrite st_app_assoc.
  - reflexivity.
  - reflexivity.
Qed.

Create HintDb framed discriminated.
#[local] Hint Resolve framed_ret framed_raise framed_hang framed_emit
  framed_record : framed.

Ltac framed_step :=
  match goal with
  | |- framed (bind _ _) => apply framed_bind; [ | intros ]
  | |- framed (if ?b then _ else _) => destruct b
  | |- framed (match ?x with _ => _ end) => destruct x
  | |- framed (run_result _ _ _ _) => apply framed_emit
  | |- framed (when _ _) => unfold when
  | |- framed run_shrink => apply framed_ret
  | |- framed _ => solve [ auto with framed ]
  end.

Lemma framed_check_languages langs lfile : framed (check_languages langs lfile).
Proof. unfold check_languages. repeat framed_step. Qed.

Lemma framed_subprocess_run timeout b : framed (subprocess_run timeout b).
Proof. unfold subprocess_run. repeat framed_step. Qed.

Lemma framed_first_line l : framed (first_line l).
Proof. unfold first_line. repeat framed_step. Qed.

Lemma framed_anon_normalize_sub w args :
  forall input_actual, framed (anon_normalize_sub w input_actual args).
Proof.
  induction args as [ | a args IH ]; intro input_actual; simpl;
    repeat first [ apply framed_first_line | apply IH | framed_step ].
Qed.

Lemma framed_anon_normalize w input_actual args :
  framed (anon_normalize w input_actual args).
Proof.
  unfold anon_normalize.
  destruct (is_anon_normalize_needed _);
    [ apply framed_anon_normalize_sub | apply framed_ret ].
Qed.

#[local] Hint Resolve framed_check_languages framed_subprocess_run
  framed_first_line framed_anon_normalize : framed.

Lemma framed_shrink g tc : framed (shrink g tc).
Proof. unfold shrink. repeat framed_step. Qed.

#[local] Hint Resolve framed_shrink : framed.

Lemma framed_normalize tc w : framed (normalize tc w).
Proof. unfold normalize. repeat framed_step. Qed.

Lemma framed_compare w filtered : framed (compare w filtered).
Proof. unfold compare. repeat framed_step. Qed.

#[local] Hint Resolve framed_normalize framed_compare : framed.

Lemma framed_after_run g tc w done : framed (after_run g tc w done).
Proof. unfold after_run. repeat framed_step. Qed.

#[local] Hint Resolve framed_after_run : framed.

Lemma framed_run_tcase g tc w : framed (run_tcase g tc w).
Proof. unfold run_tcase. repeat framed_step. Qed.

(** ** The gates *)

Lemma trace_framed {A} (c : M A) st :
  framed c -> trace (fst (c st)) = trace st ++ trace (fst (c initial)).
Proof. intro H. now rewrite (H st). Qed.

Lemma existsb_app_l {A} (f : A -> bool) l1 l2 :
  existsb f l1 = true -> existsb f (l1 ++ l2) = true.
Proof. intro H. rewrite existsb_app, H. reflexivity. Qed.

(** The five gates as equations on the tests of [run_tcase]. *)
Lemma gates_pass_inv g tc w :
  gates_pass g tc w = true ->
  check_units g (name tc) (category tc) = true
  /\ fst (check_features g (output_feature w) (ffeatures w)) = true
  /\ gate_holds g tc w GateLanguage = true
  /\ (WITH_TIMEOUT g =? 0)%Z && Ascii.eqb (tclass tc) "i" = false
  /\ isfile_fargs w && negb (force_quit_returncode w =? 0)%Z = false.
Proof.
  unfold gates_pass; simpl. rewrite !andb_true_iff, !negb_true_iff.
  tauto.
Qed.

Ltac run_steps :=
  unfold run_result, when, bind, emit, record, ret, raise, hang;
  cbn [lists trace fst snd].

Lemma bind_ret {A B} (a : A) (f : A -> M B) st : bind (ret a) f st = f a st.
Proof. reflexivity. Qed.

Lemma bind_emit {B} e (f : unit -> M B) st :
  bind (emit e) f st = f tt (mkState (lists st) (trace st ++ [e])).
Proof. reflexivity. Qed.

Lemma bind_record {B} o x (f : unit -> M B) st :
  bind (record o x) f st = f tt (mkState (add_to o x (lists st)) (trace st)).
Proof. reflexivity. Qed.

Lemma bind_returns {A B} (c : M A) (f : A -> M B) st a :
  framed c -> snd (c initial) = Returns a ->
  bind c f st = f a (st_app st (fst (c initial))).
Proof. intros Hc Ha. unfold bind. now rewrite (Hc st), Ha. Qed.

Lemma bind_framed {A B} (c : M A) (f : A -> M B) st :
  framed c ->
  bind c f st =
    match snd (c initial) with
    | Returns a => f a (st_app st (fst (c initial)))
    | Raises e => (st_app st (fst (c initial)), Raises e)
    | Hangs => (st_app st (fst (c initial)), Hangs)
    end.
Proof. intros Hc. unfold bind. now rewrite (Hc st). Qed.

Lemma bind_assoc {A B C} (c : M A) (f : A -> M B) (h : B -> M C) st :
  bind (bind c f) h st = bind c (fun a => bind (f a) h) st.
Proof. unfold bind. now destruct (c st) as [s [a | e | ]]. Qed.

(** One statement of a [do] block at a time. *)
Ltac bind_step :=
  first [ rewrite bind_assoc | rewrite bind_ret | rewrite bind_emit
        | rewrite bind_record ];
  cbv beta; cbn [lists trace].

Ltac bind_steps := unfold run_result, when; repeat bind_step.

Lemma run_tcase_passed g tc w st :
  gates_pass g tc w = true ->
  run_tcase g tc w st =
    bind (subprocess_run (timeout_value g) (subject w)) (after_run g tc w)
      (mkState (lists st) (trace st ++ gate_trace w)).
Proof.
  intro H. apply gates_pass_inv in H.
  destruct H as (Hu & Hf & Hl & Hi & Hb).
  unfold run_tcase. rewrite Hu. cbn [negb].
  destruct (check_features g (output_feature w) (ffeatures w)) as [tmp feat].
  cbn [fst] in Hf. subst tmp.
  unfold gate_trace, probe_trace, check_languages. 
  cbn [gate_holds] in Hl.
  destruct (isfile_fargs w); destruct (flanguages w) as [lines | ];
    cbn [andb] in Hb; run_steps.
  all: try (destruct (check_languages_loop (list_languages w) lines) as [tmp lang];
            cbn [fst] in Hl; subst tmp; cbn [negb]).
  all: rewrite Hi.
  all: try rewrite Hb.
  all: cbn [negb].
  all: cbn [lists trace]; rewrite <- ?app_assoc; reflexivity.
Qed.

Lemma is_tagging_probe w : existsb is_tagging (probe_trace w) = false.
Proof. unfold probe_trace. now destruct (isfile_fargs w). Qed.

Lemma is_tagging_gate w : existsb is_tagging (gate_trace w) = false.
Proof.
  unfold gate_trace. rewrite existsb_app, is_tagging_probe.
  now destruct (flanguages w).
Qed.

Lemma is_list_languages_probe w :
  existsb is_list_languages (probe_trace w) = false.
Proof. unfold probe_trace. now destruct (isfile_fargs w). Qed.

Lemma subprocess_run_starts timeout b st :
  exists e,
    subprocess_run timeout b st =
      (mkState (lists st) (trace st ++ [EvRun (CTagging timeout)]), e).
Proof.
  unfold subprocess_run. run_steps.
  destruct timeout, b; try destruct (_ <? _)%Z; eexists; reflexivity.
Qed.

Lemma run_tcase_gate_cases g tc w st :
  match first_failing g tc w with
  | Some gate =>
      exists tr,
        run_tcase g tc w st =
          (mkState
             (match gate_outcome gate with
              | Some o => add_to o (case_id tc) (lists st)
              | None => lists st
              end)
             (trace st ++ tr), Returns false)
        /\ existsb is_tagging tr = false
        /\ match gate with
           | GateUnit => tr = []
           | GateFeature => existsb is_list_languages tr = false
           | _ => True
           end
        /\ match gate with
           | GateUnit => True
           | _ => existsb is_print_language tr = true
           end
  | None =>
      exists st' e tr,
        run_tcase g tc w st = (st', e)
        /\ trace st' = trace st ++ tr
        /\ existsb is_tagging tr = true
  end.
Proof.
  destruct (first_failing g tc w) as [gate | ] eqn:Hff.
  - unfold first_failing, gate_order in Hff. cbn [find] in Hff.
    destruct (gate_holds g tc w GateUnit) eqn:Hu; cbn [negb] in Hff.
    2:{ injection Hff as <-. exists []. cbn [gate_outcome gate_holds] in *.
        unfold run_tcase. rewrite Hu. cbn [negb]. unfold ret.
        rewrite app_nil_r. destruct st; auto. }
    destruct (gate_holds g tc w GateFeature) eqn:Hf; cbn [negb] in Hff.
    2:{ injection Hff as <-. cbn [gate_outcome gate_holds] in *.
        unfold run_tcase. rewrite Hu. cbn [negb].
        destruct (check_features g (output_feature w) (ffeatures w))
          as [tmp feat].
        cbn [fst] in Hf. subst tmp. cbn [negb].
        destruct (isfile_fargs w); run_steps;
          destruct feat as [ | [[] [] [] [] [] [] [] []] rest ]; run_steps;
          (eexists; split;
           [ rewrite <- ?app_assoc; reflexivity | repeat split ]). }
    destruct (gate_holds g tc w GateLanguage) eqn:Hl; cbn [negb] in Hff.
    2:{ injection Hff as <-. cbn [gate_outcome gate_holds] in *.
        unfold run_tcase. rewrite Hu. cbn [negb].
        destruct (check_features g (output_feature w) (ffeatures w))
          as [tmp feat].
        cbn [fst] in Hf. subst tmp. cbn [negb]. unfold check_languages.
        destruct (flanguages w) as [lines | ]; [ | discriminate ].
        destruct (check_languages_loop (list_languages w) lines)
          as [tmp lang] eqn:Hloop.
        cbn [fst] in Hl. subst tmp.
        destruct (isfile_fargs w); run_steps; rewrite ?Hloop; cbn [negb];
          run_steps;
          (eexists; split;
           [ rewrite <- ?app_assoc; reflexivity | repeat split ]). }
    destruct (gate_holds g tc w GateInfiniteLoop) eqn:Hi; cbn [negb] in Hff.
    2:{ injection Hff as <-. cbn [gate_outcome gate_holds] in *.
        apply negb_false_iff in Hi.
        unfold run_tcase. rewrite Hu. cbn [negb].
        destruct (check_features g (output_feature w) (ffeatures w))
          as [tmp feat].
        cbn [fst] in Hf. subst tmp. cbn [negb]. unfold check_languages.
        destruct (flanguages w) as [lines | ];
          [ destruct (check_languages_loop (list_languages w) lines)
              as [tmp lang] eqn:Hloop; cbn [fst] in Hl; subst tmp | ];
          destruct (isfile_fargs w); run_steps; rewrite ?Hloop, ?Hi;
          cbn [negb]; rewrite ?Hi; run_steps;
          (eexists; split;
           [ rewrite <- ?app_assoc; reflexivity | repeat split ]). }
    destruct (gate_holds g tc w GateBroken) eqn:Hb; cbn [negb] in Hff.
    2:{ injection Hff as <-. cbn [gate_outcome gate_holds] in *.
        apply negb_true_iff in Hi. apply negb_false_iff in Hb.
        apply andb_true_iff in Hb. destruct Hb as [Hargs Hrc].
        unfold run_tcase. rewrite Hu, Hargs. cbn [negb].
        destruct (check_features g (output_feature w) (ffeatures w))
          as [tmp feat].
        cbn [fst] in Hf. subst tmp. cbn [negb]. unfold check_languages.
        destruct (flanguages w) as [lines | ];
          [ destruct (check_languages_loop (list_languages w) lines)
              as [tmp lang] eqn:Hloop; cbn [fst] in Hl; subst tmp | ];
          run_steps; rewrite ?Hloop, ?Hi, ?Hrc;
          cbn [negb]; rewrite ?Hi; run_steps;
          (eexists; split;
           [ rewrite <- ?app_assoc; reflexivity | repeat split ]). }
    discriminate.
  - assert (Hpass : gates_pass g tc w = true).
    { unfold first_failing, gate_order in Hff. unfold gates_pass, gate_order.
      cbn [find] in Hff. cbn [forallb].
      repeat (destruct (gate_holds g tc w _); [ | discriminate ]).
      reflexivity. }
    rewrite run_tcase_passed by exact Hpass. unfold bind.
    destruct (subprocess_run_starts (timeout_value g) (subject w)
                (mkState (lists st) (trace st ++ gate_trace w)))
      as [e He].
    rewrite He. cbn [trace lists] in *.
    destruct e as [done | e | ].
    + rewrite (framed_after_run g tc w done _).
      do 3 eexists. split; [ reflexivity | ].
      unfold st_app; cbn [trace fst snd]. rewrite <- !app_assoc.
      split; [ reflexivity | ].
      rewrite !existsb_app. cbn. now rewrite !orb_true_r.
    + do 3 eexists. split; [ reflexivity | ]. cbn [trace].
      rewrite <- app_assoc. split; [ reflexivity | ].
      rewrite existsb_app. cbn. now rewrite orb_true_r.
    + do 3 eexists. split; [ reflexivity | ]. cbn [trace].
      rewrite <- app_assoc. split; [ reflexivity | ].
      rewrite existsb_app. cbn. now rewrite orb_true_r.
Qed.

(** C5.  The gates of [run_tcase] are tried in the order unit filter,
    features, languages, infinite-loop risk, broken args.ctags.  The first
    gate that fails fixes the result: the case goes on the list of that
    gate (on none for the unit filter), [run_tcase] returns False, the
    subject is not run on the input, and the trace shows nothing of the
    later gates (the unit filter starts no program at all, the feature
    gate does not ask for the list of languages).  When no gate fails the
    subject is run on the input.  The dry run that tells whether
    args.ctags is broken is made before the feature gate; it is its
    result that is tested last. *)
Theorem gates_first_failing_wins g tc w st :
  match first_failing g tc w with
  | Some gate =>
      exists tr,
        run_tcase g tc w st =
          (mkState
             (match gate_outcome gate with
              | Some o => add_to o (case_id tc) (lists st)
              | None => lists st
              end)
             (trace st ++ tr), Returns false)
        /\ existsb is_tagging tr = false
        /\ match gate with
           | GateUnit => tr = []
           | GateFeature => existsb is_list_languages tr = false
           | _ => True
           end
  | None =>
      exists st' e tr,
        run_tcase g tc w st = (st', e)
        /\ trace st' = trace st ++ tr
        /\ existsb is_tagging tr = true
  end.
Proof.
  pose proof (run_tcase_gate_cases g tc w st) as H.
  destruct (first_failing g tc w) as [gate | ]; [ | exact H ].
  destruct H as (tr & Hrun & Htag & Hlater & _). exists tr. auto.
Qed.

(** ** After the gates *)

Lemma run_tcase_finished g tc w st ms rc :
  gates_pass g tc w = true ->
  subject w = Exits ms rc ->
  deadline_exceeded g w = false ->
  run_tcase g tc w st =
    after_run g tc w (Finished rc)
      (mkState (lists st)
         (trace st ++ gate_trace w ++ [EvRun (CTagging (timeout_value g))])).
Proof.
  intros Hpass Hsub Hdead.
  rewrite run_tcase_passed by exact Hpass.
  unfold deadline_exceeded in Hdead. unfold bind at 1, subprocess_run.
  rewrite Hsub in *. run_steps.
  destruct (timeout_value g) as [secs | ]; [ rewrite Hdead | ];
    run_steps; now rewrite <- app_assoc.
Qed.

Lemma run_tcase_timed_out g tc w st :
  gates_pass g tc w = true ->
  deadline_exceeded g w = true ->
  run_tcase g tc w st =
    after_run g tc w TimeoutExpired
      (mkState (lists st)
         (trace st ++ gate_trace w ++ [EvRun (CTagging (timeout_value g))])).
Proof.
  intros Hpass Hdead.
  rewrite run_tcase_passed by exact Hpass.
  unfold deadline_exceeded in Hdead. unfold bind at 1, subprocess_run.
  run_steps.
  destruct (timeout_value g) as [secs | ]; [ | discriminate ].
  destruct (subject w) as [ms rc | ]; [ rewrite Hdead | ];
    run_steps; now rewrite <- app_assoc.
Qed.

(** ** Timeouts *)

(** C6, as the code has it.  A case that passes the gates and whose
    subject is still running at the deadline goes on the timed-out list
    and nowhere else, whatever its return code or its output would have
    been; [run_tcase] returns False, and the only result it writes is
    failed (TIMED OUT): no exit code is written. *)
Theorem deadline_exceeded_is_timed_out g tc w st :
  gates_pass g tc w = true ->
  deadline_exceeded g w = true ->
  exists tr,
    run_tcase g tc w st =
      (mkState (add_to TimedOut (case_id tc) (lists st)) (trace st ++ tr),
       Returns false)
    /\ filter is_result tr =
         [EvResult error (message tc w) true ["TIMED OUT"%string]].
Proof.
  intros Hpass Hdead.
  rewrite run_tcase_timed_out by assumption.
  unfold after_run, shrink, run_shrink.
  destruct (RUN_SHRINK g && Nat.eqb (List.length (extra_inputs tc)) 0);
    run_steps;
    (eexists; split; [ rewrite <- ?app_assoc; reflexivity | ]);
    rewrite !filter_app; unfold gate_trace, probe_trace;
    destruct (isfile_fargs w), (flanguages w); reflexivity.
Qed.

Lemma deadline_exceeded_is_timed_out_witness :
  exists tr,
    run_tcase (mkGlobals [] [] 5 false false) (sample_case "quux" "d")
      (with_subject sample_world (Exits 6000 0)) initial =
      (mkState (add_to TimedOut "ROOT/quux" no_results) (trace initial ++ tr),
       Returns false)
    /\ filter is_result tr =
         [EvResult error
            (message (sample_case "quux" "d")
               (with_subject sample_world (Exits 6000 0)))
            true ["TIMED OUT"%string]].
Proof.
  apply (deadline_exceeded_is_timed_out
           (mkGlobals [] [] 5 false false) (sample_case "quux" "d")
           (with_subject sample_world (Exits 6000 0)) initial);
    reflexivity.
Defined.

(** C6 as stated fails: the case quux.d runs for 6 s under a deadline of
    5 s; it is listed as timed out, but no result tells the exit code
    124. *)
Lemma timeout_exit_code_not_recorded :
  let g := mkGlobals [] [] 5 false false in
  let w := with_subject sample_world (Exits 6000 0) in
  let st := fst (run_tcase g (sample_case "quux" "d") w initial) in
  deadline_exceeded g w = true
  /\ L_FAILED_BY_TIMEED_OUT (lists st) = ["ROOT/quux"%string]
  /\ exit_code_recorded _TIMEOUT_EXIT (trace st) = false.
Proof. repeat split. Qed.

(** ** The memory checker *)

(** C4, as the code has it.  With the memory checker on, a case that
    passes the gates, ends within the deadline with exit code 58 and is
    not of class v goes on the valgrind list and on no other, also when
    its class is b: the test comes before those for known bugs and for
    other exit codes. *)
Theorem valgrind_exit_is_valgrind_error g tc w st ms :
  WITH_VALGRIND g = true ->
  gates_pass g tc w = true ->
  subject w = Exits ms _VALGRIND_EXIT ->
  deadline_exceeded g w = false ->
  tclass tc <> "v"%char ->
  exists tr,
    run_tcase g tc w st =
      (mkState (add_to ValgrindError (case_id tc) (lists st))
         (trace st ++ tr), Returns false).
Proof.
  intros Hvg Hpass Hsub Hdead Hv.
  rewrite (run_tcase_finished g tc w st ms _VALGRIND_EXIT) by assumption.
  unfold after_run. rewrite Hvg.
  apply Ascii.eqb_neq in Hv. rewrite Hv. run_steps. cbn.
  eexists. rewrite <- ?app_assoc. reflexivity.
Qed.

Lemma valgrind_exit_is_valgrind_error_witness :
  exists tr,
    run_tcase (mkGlobals [] [] 0 true false) (sample_case "bar" "b")
      (with_subject sample_world (Exits 10 58)) initial =
      (mkState (add_to ValgrindError "ROOT/bar" no_results)
         (trace initial ++ tr), Returns false).
Proof.
  apply (valgrind_exit_is_valgrind_error
           (mkGlobals [] [] 0 true false) (sample_case "bar" "b")
           (with_subject sample_world (Exits 10 58)) initial 10%Z);
    try reflexivity.
  discriminate.
Defined.

(** C4 as stated fails: without the memory checker, exit code 58 of a
    case of class d is an unexpected exit status. *)
Lemma exit_58_without_valgrind :
  let g := mkGlobals [] [] 0 false false in
  let w := with_subject sample_world (Exits 10 _VALGRIND_EXIT) in
  let st := fst (run_tcase g (sample_case "quux" "d") w initial) in
  gates_pass g (sample_case "quux" "d") w = true
  /\ L_VALGRIND (lists st) = []
  /\ L_FAILED_BY_STATUS (lists st) = ["ROOT/quux"%string].
Proof. repeat split. Qed.

(** ** Known bugs that no longer show *)

(** The normaliser leaves the result lists alone. *)
Lemma anon_normalize_sub_lists w args :
  forall input_actual,
    lists (fst (anon_normalize_sub w input_actual args initial)) = no_results.
Proof.
  induction args as [ | a args IH ]; intro input_actual; simpl;
    unfold first_line;
    destruct (anonhash w input_actual) as [ | actual ? ];
    try reflexivity;
    destruct (anonhash w (input_expected input_actual)) as [ | expected ? ];
    try reflexivity.
  bind_steps.
  unfold bind. rewrite (framed_anon_normalize_sub w args a _).
  specialize (IH a).
  destruct (anon_normalize_sub w a args initial) as [s0 [r | e | ]];
    cbn [fst snd] in *; unfold st_app; cbn [lists]; now rewrite IH.
Qed.

Lemma anon_normalize_lists w input_actual args :
  lists (fst (anon_normalize w input_actual args initial)) = no_results.
Proof.
  unfold anon_normalize. destruct (is_anon_normalize_needed _).
  - apply anon_normalize_sub_lists.
  - reflexivity.
Qed.

Lemma normalize_lists tc w :
  lists (fst (normalize tc w initial)) = no_results.
Proof.
  unfold normalize.
  pose proof (anon_normalize_lists w (t (finput tc)) (map t (extra_inputs tc)))
    as H.
  destruct (which_ffilter w); unfold bind;
    destruct (anon_normalize w _ _ initial) as [s0 [r | e | ]];
    cbn [fst] in *; try assumption; try destruct (run_filter _ _ _ _);
    unfold emit, ret, raise; cbn [fst lists]; assumption.
Qed.

(** C1, as the code has it.  A case of class b that passes the gates,
    ends within the deadline with exit code 0 and whose filtered output
    compares equal to the expected file (for [filecmp], or else for
    [diff]) goes on the Fixed list and on the Passed list, and [run_tcase]
    returns True. *)
Theorem known_bug_success_is_fixed_and_passed g tc w st ms filtered :
  tclass tc = "b"%char ->
  gates_pass g tc w = true ->
  subject w = Exits ms 0 ->
  deadline_exceeded g w = false ->
  isfile_fexpected w = true ->
  snd (normalize tc w initial) = Returns filtered ->
  filecmp w filtered = true \/ diff w filtered = 0%Z ->
  exists tr,
    run_tcase g tc w st =
      (mkState
         (add_to Passed (case_id tc) (add_to Fixed (case_id tc) (lists st)))
         (trace st ++ tr), Returns true).
Proof.
  intros Hb Hpass Hsub Hdead Hexp Hnorm Hcmp.
  rewrite (run_tcase_finished g tc w st ms 0) by assumption.
  unfold after_run. rewrite Hb, Hexp. cbn [Z.eqb negb Ascii.eqb Bool.eqb].
  rewrite andb_false_r. cbn [orb negb].
  bind_steps.
  rewrite (bind_returns _ _ _ filtered) by auto with framed.
  unfold compare.
  destruct (filecmp w filtered) eqn:Hfc; bind_steps;
    [ | destruct Hcmp as [Hcmp | Hcmp]; [ discriminate | rewrite Hcmp ] ];
    cbn [Z.eqb]; bind_steps; unfold ret, st_app; cbn [lists trace];
    rewrite (normalize_lists tc w), merge_nil_r;
    eexists; rewrite <- ?app_assoc; reflexivity.
Qed.

Lemma known_bug_success_is_fixed_and_passed_witness :
  exists tr,
    run_tcase sample_globals (sample_case "bar" "b") sample_world initial =
      (mkState
         (add_to Passed "ROOT/bar" (add_to Fixed "ROOT/bar" no_results))
         (trace initial ++ tr), Returns true).
Proof.
  apply (known_bug_success_is_fixed_and_passed
           sample_globals (sample_case "bar" "b") sample_world initial
           10%Z []);
    try reflexivity.
  left. reflexivity.
Defined.

(** C1 as stated fails: the case bar.b ends with exit code 0 and its
    output compares equal; it is on the Fixed list and on the Passed list
    as well. *)
Lemma fixed_case_is_also_passed :
  let st :=
    fst (run_tcase sample_globals (sample_case "bar" "b") sample_world
           initial) in
  gates_pass sample_globals (sample_case "bar" "b") sample_world = true
  /\ subject sample_world = Exits 10 0
  /\ ~ fixed_never_passed (lists st) "ROOT/bar".
Proof.
  repeat split. intros [_ H]. apply H. cbn. auto.
Qed.

(** ** Cases that may loop *)

(** C7, as the code has it.  Without a timeout, a case of class i that
    passes the unit filter, the feature gate and the language gate is
    listed as skipped for the risk of an infinite loop, whatever the
    subject would do on the input and whatever the state of args.ctags;
    the subject is not run on the input, though it is started for the
    language probe. *)
Theorem iloop_case_without_timeout_is_skipped g tc w st :
  tclass tc = "i"%char ->
  WITH_TIMEOUT g = 0%Z ->
  gate_holds g tc w GateUnit = true ->
  gate_holds g tc w GateFeature = true ->
  gate_holds g tc w GateLanguage = true ->
  exists tr,
    run_tcase g tc w st =
      (mkState (add_to SkippedInfiniteLoopRisk (case_id tc) (lists st))
         (trace st ++ tr), Returns false)
    /\ existsb is_tagging tr = false
    /\ existsb is_print_language tr = true.
Proof.
  intros Hi H0 Hu Hf Hl.
  assert (Hff : first_failing g tc w = Some GateInfiniteLoop).
  { unfold first_failing, gate_order. cbn [find]. rewrite Hu, Hf, Hl.
    cbn [negb gate_holds]. now rewrite Hi, H0. }
  pose proof (run_tcase_gate_cases g tc w st) as H. rewrite Hff in H.
  destruct H as (tr & Hrun & Htag & _ & Hprobe). exists tr. auto.
Qed.

Lemma iloop_case_without_timeout_is_skipped_witness :
  exists tr,
    run_tcase sample_globals (sample_case "baz" "i")
      (with_subject sample_world Loops) initial =
      (mkState (add_to SkippedInfiniteLoopRisk "ROOT/baz" no_results)
         (trace initial ++ tr), Returns false)
    /\ existsb is_tagging tr = false
    /\ existsb is_print_language tr = true.
Proof.
  apply (iloop_case_without_timeout_is_skipped
           sample_globals (sample_case "baz" "i")
           (with_subject sample_world Loops) initial);
    reflexivity.
Defined.

(** C7 as stated fails: without a timeout, the case baz.i that requires
    the feature xpath, which the subject lacks, is listed as skipped for
    its features, not for the risk of an infinite loop; and the subject is
    started, for the language probe. *)
Lemma iloop_case_skipped_by_features :
  let w := with_features sample_world ["xpath"%string] in
  let st := fst (run_tcase sample_globals (sample_case "baz" "i") w initial) in
  WITH_TIMEOUT sample_globals = 0%Z
  /\ L_SKIPPED_BY_ILOOP (lists st) = []
  /\ L_SKIPPED_BY_FEATURES (lists st) = ["ROOT/baz"%string]
  /\ existsb is_print_language (trace st) = true.
Proof. repeat split. Qed.

(** ** Negated feature requirements *)

Lemma negated_requirement_fails g rest others :
  check_features_loop g (String "!" rest :: others)
  = (false, String "!" rest).
Proof.
  cbn [check_features_loop String.eqb].
  destruct (mem rest (_FEATURE_LIST g)); reflexivity.
Qed.

(** C2, at the failing input.  The subject has the features json and
    regex; the file features holds the one line !xpath.  The feature
    xpath is absent, and yet the gate fails, and the case is skipped with
    the message that the unwanted feature xpath is available. *)
Theorem negated_feature_absent_still_skips :
  let w := with_features sample_world ["!xpath"%string] in
  mem "xpath" (_FEATURE_LIST sample_globals) = false
  /\ check_features sample_globals (output_feature w) (ffeatures w)
     = (false, "!xpath"%string)
  /\ L_SKIPPED_BY_FEATURES
       (lists (fst (run_tcase sample_globals (sample_case "qux" "d") w
                      initial)))
     = ["ROOT/qux"%string]
  /\ filter is_result
       (trace (fst (run_tcase sample_globals (sample_case "qux" "d") w
                      initial)))
     = [EvResult skip (message (sample_case "qux" "d") w) true
          [String.append "unwanted feature "
             (String.append dq
                (String.append "xpath"
                   (String.append dq " is available")))]].
Proof. repeat split. Qed.


(** ** How many lists a case goes on *)

Lemma lists_after_normalize st tc w :
  lists (st_app st (fst (normalize tc w initial))) = lists st.
Proof. unfold st_app; cbn [lists]. now rewrite normalize_lists, merge_nil_r. Qed.

Lemma shrink_skip {B} g tc (f : unit -> M B) st :
  bind (shrink g tc) f st = f tt st.
Proof.
  unfold shrink, when, run_shrink.
  now destruct (RUN_SHRINK g && Nat.eqb (List.length (extra_inputs tc)) 0).
Qed.

Lemma class_v_not_b_or_i c :
  Ascii.eqb c "v" = true -> Ascii.eqb c "b" || Ascii.eqb c "i" = false.
Proof. intro H. apply Ascii.eqb_eq in H. now subst c. Qed.

Lemma after_run_lists g tc w done st st' b :
  after_run g tc w done st = (st', Returns b) ->
  exists o fixed,
    o <> Fixed
    /\ lists st' =
         add_to o (case_id tc)
           (if fixed : bool then add_to Fixed (case_id tc) (lists st)
            else lists st).
Proof.
  unfold after_run. destruct done as [rc | ].
  2:{ bind_steps. rewrite shrink_skip. unfold ret. intro H.
      injection H as <- _. exists TimedOut, false. now split. }
  bind_steps. destruct (negb (rc =? 0)%Z).
  { destruct (WITH_VALGRIND g && (rc =? _VALGRIND_EXIT)%Z
              && negb (Ascii.eqb (tclass tc) "v"));
      [ | destruct (Ascii.eqb (tclass tc) "b") ];
      bind_steps; rewrite ?shrink_skip; unfold ret; intro H;
      injection H as <- _;
      [ exists ValgrindError, false | exists KnownBug, false
      | exists FailedStatus, false ]; now split. }
  assert (Hend :
    forall (o : Outcome) (fixed : bool) (r : Results),
      o <> Fixed ->
      r = add_to o (case_id tc)
            (if fixed then add_to Fixed (case_id tc) (lists st)
             else lists st) ->
      exists o fixed,
        o <> Fixed
        /\ r = add_to o (case_id tc)
                 (if fixed : bool then add_to Fixed (case_id tc) (lists st)
                  else lists st)).
  { intros o fixed r Ho Hr. now exists o, fixed. }
  destruct (Ascii.eqb (tclass tc) "v") eqn:Hv.
  - apply Ascii.eqb_eq in Hv. rewrite Hv. cbn [Ascii.eqb Bool.eqb orb andb].
    rewrite andb_false_r, andb_true_r.
    destruct (WITH_VALGRIND g); bind_steps;
      (destruct (negb (isfile_fexpected w));
       [ bind_steps; unfold ret; intro H; injection H as <- _;
         cbn [lists]
       | rewrite bind_framed by auto with framed;
         destruct (snd (normalize tc w initial)) as [filtered | e | ];
         [ | intro H; discriminate H | intro H; discriminate H ];
         unfold compare; destruct (filecmp w filtered); bind_steps;
         [ cbn [Z.eqb] | destruct (diff w filtered =? 0)%Z ];
         bind_steps; unfold ret; rewrite lists_after_normalize;
         cbn [lists]; intro H; injection H as <- _; cbn [lists] ]).
    all: first [ apply (Hend Passed true); [ discriminate | reflexivity ]
               | apply (Hend Passed false); [ discriminate | reflexivity ]
               | apply (Hend FailedDiff true); [ discriminate | reflexivity ]
               | apply (Hend FailedDiff false); [ discriminate | reflexivity ]
               ].
  - rewrite andb_false_r. bind_steps.
    destruct (negb (isfile_fexpected w));
      [ destruct (Ascii.eqb (tclass tc) "b" || Ascii.eqb (tclass tc) "i");
        bind_steps; unfold ret; intro H; injection H as <- _; cbn [lists]
      | rewrite bind_framed by auto with framed;
        destruct (snd (normalize tc w initial)) as [filtered | e | ];
        [ | intro H; discriminate H | intro H; discriminate H ];
        unfold compare; destruct (filecmp w filtered); bind_steps;
        [ cbn [Z.eqb] | destruct (diff w filtered =? 0)%Z ]; bind_steps;
        try destruct (Ascii.eqb (tclass tc) "b"); cbn [orb];
        try destruct (negb (WITH_TIMEOUT g =? 0)%Z
                      && Ascii.eqb (tclass tc) "i");
        bind_steps; unfold ret; rewrite lists_after_normalize;
        cbn [lists]; intro H; injection H as <- _; cbn [lists] ].
    all: first [ apply (Hend Passed true); [ discriminate | reflexivity ]
               | apply (Hend Passed false); [ discriminate | reflexivity ]
               | apply (Hend KnownBug false); [ discriminate | reflexivity ]
               | apply (Hend FailedDiff false); [ discriminate | reflexivity ]
               ].
Qed.


(** C3, as the code has it.  A run of [run_tcase] that returns puts a
    case that passes the unit filter on exactly one of the ten lists other
    than Fixed, and besides that on Fixed or not; a case that the unit
    filter excludes goes on no list. *)
Theorem one_list_besides_fixed g tc w st st' b :
  run_tcase g tc w st = (st', Returns b) ->
  if check_units g (name tc) (category tc) then
    exists o fixed,
      o <> Fixed
      /\ lists st' =
           add_to o (case_id tc)
             (if fixed : bool then add_to Fixed (case_id tc) (lists st)
              else lists st)
  else lists st' = lists st.
Proof.
  intro Hrun. destruct (check_units g (name tc) (category tc)) eqn:Hu.
  2:{ unfold run_tcase in Hrun. rewrite Hu in Hrun. cbn [negb] in Hrun.
      unfold ret in Hrun. now injection Hrun as <- _. }
  pose proof (run_tcase_gate_cases g tc w st) as H.
  destruct (first_failing g tc w) as [gate | ] eqn:Hff.
  - destruct H as (tr & Hrun' & _). rewrite Hrun' in Hrun.
    injection Hrun as <- _. cbn [lists].
    destruct gate; cbn [gate_outcome];
      [ unfold first_failing, gate_order in Hff; cbn [find gate_holds] in Hff;
        rewrite Hu in Hff; cbn [negb] in Hff;
        repeat (destruct (negb _) in Hff; try discriminate)
      | exists SkippedFeature, false | exists SkippedLanguage, false
      | exists SkippedInfiniteLoopRisk, false
      | exists BrokenPrerequisite, false ];
      (split; [ discriminate | reflexivity ]).
  - clear H.
    assert (Hpass : gates_pass g tc w = true).
    { unfold first_failing, gate_order in Hff. unfold gates_pass, gate_order.
      cbn [find] in Hff. cbn [forallb].
      repeat (destruct (gate_holds g tc w _); [ | discriminate ]).
      reflexivity. }
    rewrite run_tcase_passed in Hrun by exact Hpass. unfold bind in Hrun.
    destruct (subprocess_run_starts (timeout_value g) (subject w)
                (mkState (lists st) (trace st ++ gate_trace w)))
      as [e He].
    rewrite He in Hrun. destruct e as [done | e | ]; try discriminate.
    apply after_run_lists in Hrun. exact Hrun.
Qed.

Lemma one_list_besides_fixed_witness :
  exists o fixed,
    o <> Fixed
    /\ lists (fst (run_tcase sample_globals (sample_case "bar" "b")
                     sample_world initial)) =
         add_to o "ROOT/bar"
           (if fixed : bool then add_to Fixed "ROOT/bar" no_results
            else no_results).
Proof.
  exact (one_list_besides_fixed sample_globals (sample_case "bar" "b")
           sample_world initial _ true eq_refl).
Defined.

(** C3 as stated fails: the run of the case bar.b puts it on two lists,
    Passed and Fixed. *)
Lemma case_on_two_lists :
  lists_holding
    (lists (fst (run_tcase sample_globals (sample_case "bar" "b")
                   sample_world initial))) "ROOT/bar" = 2.
Proof. reflexivity. Qed.

(** ** The exit status of a run *)

Lemma collection_merge o r r0 :
  collection o (merge r r0) = collection o r ++ collection o r0.
Proof. now destruct o. Qed.

Lemma nonempty_app (l1 l2 : list string) :
  nonempty (l1 ++ l2) = nonempty l1 || nonempty l2.
Proof. now destruct l1, l2. Qed.

Lemma run_cases_collection g o cases :
  forall st st',
    run_cases g cases st = (st', Returns tt) ->
    nonempty (collection o (lists st')) =
      nonempty (collection o (lists st))
      || existsb (fun c => classified g (fst c) (snd c) o) cases.
Proof.
  induction cases as [ | [tc w] cases IH ]; intros st st' H; cbn in H.
  - injection H as <-. cbn. now rewrite orb_false_r.
  - rewrite (framed_run_tcase g tc w st) in H.
    assert (Hnext :
      run_cases g cases (st_app st (fst (run_tcase g tc w initial))) =
        (st', Returns tt)).
    { destruct (snd (run_tcase g tc w initial)); try exact H.
      discriminate H. }
    apply IH in Hnext. rewrite Hnext. unfold st_app. cbn [lists].
    rewrite collection_merge, nonempty_app. cbn [existsb fst snd].
    unfold classified. now rewrite orb_assoc.
Qed.

Lemma existsb_orb {A} (f h : A -> bool) l :
  existsb f l || existsb h l = existsb (fun x => f x || h x) l.
Proof.
  induction l as [ | x l IH ]; cbn; [ reflexivity | ].
  rewrite <- IH. destruct (f x), (h x), (existsb f l), (existsb h l);
    reflexivity.
Qed.




(** ** Substitution: once for the basename, everywhere for the hashes *)

(** [sub] with [count = 1] rewrites the leftmost match and keeps what
    follows it. *)
Lemma subn_once r tpl l :
  subn r tpl l 1 =
    match search r false 0 l with
    | None => (l, 0)
    | Some (b, e, c) => (firstn b l ++ expand tpl c ++ skipn e l, 1)
    end.
Proof.
  unfold subn. replace (2 * List.length l + 2) with (S (S (2 * List.length l)))
    by lia.
  cbn [subx Nat.eqb negb andb Nat.leb].
  destruct (search r false 0 l) as [[[b e] c] | ]; [ | reflexivity ].
  now rewrite !Nat.sub_0_r.
Qed.

Lemma prefixb_split a s : prefixb a s = true -> s = a ++ skipn (List.length a) s.
Proof.
  revert s. induction a as [ | x a IH ]; intros [ | y s] H; cbn in *;
    try reflexivity; try discriminate.
  apply andb_true_iff in H. destruct H as [Hxy H].
  apply Ascii.eqb_eq in Hxy. subst y. f_equal. now apply IH.
Qed.

Lemma m_Lit a pos s c k :
  m (Lit a) pos s c k =
    if prefixb a s then k (pos + List.length a) (skipn (List.length a) s) c
    else None.
Proof.
  revert pos s. induction a as [ | x a IH ]; intros pos s.
  - cbn. now rewrite Nat.add_0_r.
  - cbn [Lit m prefixb]. destruct s as [ | y s ]; [ reflexivity | ].
    destruct (Ascii.eqb x y); cbn [andb]; [ | reflexivity ].
    rewrite IH. cbn [List.length skipn]. now rewrite Nat.add_succ_r.
Qed.

Section Literal.

Variables a e : text.
Hypothesis a_nonempty : a <> [].

Lemma match_here_Lit must_advance pos s :
  match_here (Lit a) must_advance pos s =
    if prefixb a s then Some (pos + List.length a, []) else None.
Proof.
  unfold match_here. rewrite m_Lit. destruct (prefixb a s); [ | reflexivity ].
  destruct a as [ | x a' ]; [ congruence | ]. cbn [List.length].
  replace (Nat.eqb (pos + S (List.length a')) pos) with false.
  - now rewrite andb_false_r.
  - symmetry. apply Nat.eqb_neq. lia.
Qed.

(** The leftmost match of a literal lies at or after the place where the
    search starts. *)
Lemma search_Lit_bounds must_advance s :
  forall pos b e' c,
    search (Lit a) must_advance pos s = Some (b, e', c) ->
    pos <= b /\ e' = b + List.length a /\ c = [].
Proof.
  revert must_advance.
  induction s as [ | y s IH ]; intros must_advance pos b e' c H;
    cbn [search] in H; rewrite match_here_Lit in H.
  - destruct (prefixb a []); [ | discriminate ].
    injection H as <- <- <-. auto.
  - destruct (prefixb a (y :: s)).
    + injection H as <- <- <-. auto.
    + apply IH in H. intuition lia.
Qed.

(** Without a match at its head, a string keeps its first character. *)
Lemma subx_Lit_miss fuel n must_advance pos y s :
  prefixb a (y :: s) = false ->
  subx fuel (Lit a) [PLit e] 0 n must_advance pos (y :: s) =
    (y :: fst (subx fuel (Lit a) [PLit e] 0 n false (S pos) s),
     snd (subx fuel (Lit a) [PLit e] 0 n false (S pos) s)).
Proof.
  intro Hmiss. destruct fuel as [ | f ]; [ reflexivity | ].
  cbn [subx Nat.eqb negb andb search]. rewrite match_here_Lit, Hmiss.
  destruct (search (Lit a) false (S pos) s) as [[[b e'] c] | ] eqn:Hs;
    [ | reflexivity ].
  apply search_Lit_bounds in Hs. destruct Hs as (Hb & -> & ->).
  replace (b - pos) with (S (b - S pos)) by lia.
  replace (b + List.length a - pos) with (S (b + List.length a - S pos))
    by lia.
  cbn [firstn skipn app].
  now destruct (subx f (Lit a) [PLit e] 0 (S n) _ _ _).
Qed.

Lemma subx_Lit_hit f n must_advance pos s :
  prefixb a s = true ->
  subx (S f) (Lit a) [PLit e] 0 n must_advance pos s =
    (e ++ fst (subx f (Lit a) [PLit e] 0 (S n) false (pos + List.length a)
                 (skipn (List.length a) s)),
     snd (subx f (Lit a) [PLit e] 0 (S n) false (pos + List.length a)
            (skipn (List.length a) s))).
Proof.
  intro Hhit. cbn [subx Nat.eqb negb andb].
  replace (search (Lit a) must_advance pos s)
    with (Some (pos, pos + List.length a, @nil (nat * text))).
  2:{ destruct s; cbn [search]; now rewrite match_here_Lit, Hhit. }
  replace (Nat.eqb (pos + List.length a) pos) with false.
  2:{ symmetry. apply Nat.eqb_neq. destruct a; [ congruence | cbn; lia ]. }
  replace (pos + List.length a - pos) with (List.length a) by lia.
  rewrite Nat.sub_diag. cbn [firstn expand group app].
  rewrite app_nil_r.
  now destruct (subx f (Lit a) [PLit e] 0 (S n) _ _ _).
Qed.

Lemma subx_Lit_Replaced len :
  forall s fuel n must_advance pos,
    List.length s <= len -> List.length s < fuel ->
    Replaced a e s (fst (subx fuel (Lit a) [PLit e] 0 n must_advance pos s)).
Proof.
  induction len as [ | len IH ]; intros s fuel n must_advance pos Hlen Hfuel.
  - destruct s; [ | cbn in Hlen; lia ].
    destruct fuel as [ | f ]; [ lia | ]. cbn [subx Nat.eqb negb andb search].
    rewrite match_here_Lit.
    destruct a; [ congruence | ]. cbn. constructor.
  - destruct (prefixb a s) eqn:Hp.
    + destruct fuel as [ | f ]; [ lia | ].
      rewrite subx_Lit_hit by exact Hp. cbn [fst].
      rewrite (prefixb_split a s Hp) at 1. constructor.
      assert (List.length (skipn (List.length a) s)
              = List.length s - List.length a) by apply length_skipn.
      assert (0 < List.length a) by (destruct a; [ congruence | cbn; lia ]).
      assert (List.length a <= List.length s)
        by (rewrite (prefixb_split a s Hp), length_app; lia).
      apply IH; lia.
    + destruct s as [ | y s ].
      * destruct fuel as [ | f ]; [ lia | ].
        cbn [subx Nat.eqb negb andb search]. rewrite match_here_Lit, Hp.
        constructor.
      * rewrite subx_Lit_miss by exact Hp. cbn [fst].
        constructor; [ exact Hp | ]. cbn in Hlen, Hfuel. apply IH; lia.
Qed.

(** [sub] without a count replaces every occurrence of a literal. *)
Lemma sub_Lit_Replaced s : Replaced a e s (sub (Lit a) [PLit e] s 0).
Proof.
  unfold sub, subn. apply (subx_Lit_Replaced (List.length s)); lia.
Qed.

End Literal.

Lemma plain_pattern_nonempty a : plain_pattern a = true -> a <> [].
Proof. intros H ->. discriminate H. Qed.

(** Pairs of plain texts compile to their literal texts. *)
Lemma compile_all_plain lib anon_filters :
  forallb plain_pair anon_filters = true ->
  compile_all lib anon_filters =
    Some (map (fun p => (Literal (fst p), snd p)) anon_filters).
Proof.
  induction anon_filters as [ | p ps IH ]; intro H; [ reflexivity | ].
  cbn [forallb] in H. apply andb_true_iff in H. destruct H as [Hp H].
  apply andb_true_iff in Hp. destruct Hp as [Hp _].
  cbn [compile_all map]. unfold compile. rewrite Hp, (IH H). reflexivity.
Qed.

Lemma filter_anon_replaced lib anon_filters :
  forall l,
    forallb plain_pair anon_filters = true ->
    exists out,
      filter_anon lib (map (fun p => (Literal (fst p), snd p)) anon_filters) l
        = Some out
      /\ replaced_by_all anon_filters l out.
Proof.
  induction anon_filters as [ | p ps IH ]; intros l H; cbn [map filter_anon].
  - exists l. now split.
  - cbn [forallb] in H. apply andb_true_iff in H. destruct H as [Hp H].
    apply andb_true_iff in Hp. destruct Hp as [Hp He].
    cbn [fst snd compiled_sub]. rewrite He.
    destruct (IH (sub (Lit (fst p)) [PLit (snd p)] l 0) H) as (out & Hout & Hall).
    exists out. split; [ exact Hout | ]. cbn [replaced_by_all].
    exists (sub (Lit (fst p)) [PLit (snd p)] l 0). split; [ | exact Hall ].
    apply sub_Lit_Replaced. now apply plain_pattern_nonempty.
Qed.

(** A hash of hexadecimal digits is a plain text, as a pattern and as a
    replacement. *)
Lemma hex_is_plain a :
  a <> [] -> forallb is_hex_lower a = true ->
  plain_pattern a = true /\ plain_replacement a = true.
Proof.
  intros Hne Hhex. unfold plain_pattern, plain_replacement.
  assert (Hall : forall c, In c a -> special c = false /\ Ascii.eqb "\" c = false).
  { intros c Hc. rewrite forallb_forall in Hhex. specialize (Hhex c Hc).
    unfold is_hex_lower, is_digit in Hhex.
    destruct c as [[] [] [] [] [] [] [] []]; cbn in Hhex; try discriminate;
      now split. }
  split.
  - apply andb_true_iff. split.
    + destruct a; [ congruence | reflexivity ].
    + apply negb_true_iff. apply not_true_is_false. intro Hex.
      apply existsb_exists in Hex. destruct Hex as (c & Hc & Hs).
      destruct (Hall c Hc) as [Hs' _]. congruence.
  - apply negb_true_iff. apply not_true_is_false. intro Hex.
    apply existsb_exists in Hex. destruct Hex as (c & Hc & Hs).
    destruct (Hall c Hc) as [_ Hs']. congruence.
Qed.


(** C10.  [run_filter] with pairs of plain texts, such as the hashes of
    hexadecimal digits that the subject prints, raises nothing and writes
    one line for each line of its input, in order.  On every line, for
    every output format, the basename pattern rewrites the leftmost match
    only and leaves the rest of the line as it is (at most one
    substitution), and then every pair, in turn, has all the occurrences
    of its first text replaced by the second. *)
Theorem basename_once_anon_everywhere lib output_type anon_filters finput :
  forallb plain_pair anon_filters = true ->
  exists outs,
    run_filter lib finput (basename_filter output_type) anon_filters
      = Some outs
    /\ Forall2
         (fun l out =>
            filter_basename (basename_filter output_type) l = once output_type l
            /\ snd (subn (fst (basename_filter output_type))
                      (snd (basename_filter output_type)) l 1) <= 1
            /\ replaced_by_all anon_filters (once output_type l) out)
         finput outs.
Proof.
  intro Hplain. unfold run_filter. rewrite (compile_all_plain lib _ Hplain).
  induction finput as [ | l fin IH ]; cbn [filter_lines].
  - exists []. split; [ reflexivity | constructor ].
  - destruct IH as (outs & Houts & Hall). rewrite Houts.
    assert (Honce : filter_basename (basename_filter output_type) l
                    = once output_type l).
    { unfold filter_basename, once, sub. rewrite subn_once.
      now destruct (search _ false 0 l) as [[[b e] c] | ]. }
    unfold filter_line. rewrite Honce.
    destruct (filter_anon_replaced lib anon_filters (once output_type l) Hplain)
      as (out & Hout & Hrep).
    rewrite Hout. exists (out :: outs). split; [ reflexivity | ].
    constructor; [ | exact Hall ].
    split; [ exact Honce | split; [ | exact Hrep ] ].
    rewrite subn_once.
    destruct (search _ false 0 l) as [[[b e] c] | ]; cbn; lia.
Qed.

Lemma basename_once_anon_everywhere_witness :
  exists outs,
    run_filter sample_library [sample_json_line] (basename_filter json)
      sample_pairs = Some outs
    /\ Forall2
         (fun l out =>
            filter_basename (basename_filter json) l = once json l
            /\ snd (subn (fst (basename_filter json))
                      (snd (basename_filter json)) l 1) <= 1
            /\ replaced_by_all sample_pairs (once json l) out)
         [sample_json_line] outs.
Proof.
  apply (basename_once_anon_everywhere sample_library json sample_pairs
           [sample_json_line]).
  reflexivity.
Defined.

(** On the sample line the first path entry loses its directory, the
    second keeps it, and both occurrences of the hash are replaced. *)
Example run_filter_sample :
  run_filter sample_library [sample_json_line] (basename_filter json)
    sample_pairs =
    Some [[QUOTE] ++ t "path" ++ [QUOTE] ++ t ": " ++ [QUOTE] ++ t "x.c"
          ++ [QUOTE] ++ t ", " ++ [QUOTE] ++ t "path" ++ [QUOTE] ++ t ": "
          ++ [QUOTE] ++ t "b/y.c" ++ [QUOTE]
          ++ t " anon0a0b0c0d anon0a0b0c0d"].
Proof. reflexivity. Qed.

(** A pair whose first text holds a special character is left to the
    library, as a whole: its pattern is not matched as a literal text. *)
Example run_filter_pattern lib l :
  compiles lib (t "a.c") = true ->
  run_filter lib [l] (basename_filter ctags) [(t "a.c", t "X")] =
    match substitute lib (t "a.c") (t "X")
            (filter_basename (basename_filter ctags) l) with
    | Some out => Some [out]
    | None => None
    end.
Proof.
  intro H. unfold run_filter. cbn [compile_all fst snd]. unfold compile.
  replace (plain_pattern (t "a.c")) with false by reflexivity. rewrite H.
  cbn [filter_lines]. unfold filter_line. cbn [filter_anon fst snd compiled_sub].
  now destruct (substitute lib _ _ _).
Qed.


(** ** The matcher on repetitions of one-character atoms *)

Lemma m_Seq r1 r2 pos s c k :
  m (Seq r1 r2) pos s c k = m r1 pos s c (fun pos' s' c' => m r2 pos' s' c' k).
Proof. reflexivity. Qed.

Lemma m_Chr p pos s c k :
  m (Chr p) pos s c k =
    match s with
    | a :: s' => if p a then k (S pos) s' c else None
    | [] => None
    end.
Proof. reflexivity. Qed.

Lemma m_Group n r pos s c k :
  m (Group n r) pos s c k =
    m r pos s c
      (fun pos' s' c' => k pos' s' ((n, firstn (pos' - pos) s) :: c')).
Proof. reflexivity. Qed.

Lemma m_Opt r pos s c k :
  m (Opt r) pos s c k =
    match m r pos s c k with
    | Some x => Some x
    | None => k pos s c
    end.
Proof. reflexivity. Qed.

Lemma m_Star_Chr p pos s c k :
  m (Star (Chr p)) pos s c k = greedy p pos s (fun pos' s' => k pos' s' c).
Proof.
  cbn [m].
  assert (H : List.length s <= List.length s) by lia. revert H.
  generalize (List.length s) at 2 3 as fuel. intro fuel. revert pos s.
  induction fuel as [ | f IH ]; intros pos s H.
  - destruct s; [ reflexivity | cbn in H; lia ].
  - destruct s as [ | a s ]; [ reflexivity | ]. cbn [greedy].
    destruct (p a); [ | reflexivity ].
    replace (Nat.ltb pos (S pos)) with true
      by (symmetry; apply Nat.ltb_lt; lia).
    rewrite IH by (cbn in H; lia). reflexivity.
Qed.

Lemma m_Plus_Chr p pos s c k :
  m (Plus (Chr p)) pos s c k =
    match s with
    | a :: s' =>
        if p a then greedy p (S pos) s' (fun pos' s' => k pos' s' c) else None
    | [] => None
    end.
Proof.
  unfold Plus. rewrite m_Seq, m_Chr. destruct s as [ | a s ]; [ reflexivity | ].
  destruct (p a); [ | reflexivity ]. apply m_Star_Chr.
Qed.

Lemma greedy_fail p k : forall s pos,
  greedy p pos s k = None ->
  forall i, i <= run p s -> k (pos + i) (skipn i s) = None.
Proof.
  induction s as [ | a s IH ]; intros pos H i Hi; cbn [greedy run] in *.
  - assert (i = 0) by lia. subst i. now rewrite Nat.add_0_r.
  - destruct (p a).
    + destruct (greedy p (S pos) s k) eqn:Hg; [ discriminate | ].
      destruct i as [ | i ]; [ now rewrite Nat.add_0_r | ].
      rewrite Nat.add_succ_r. apply (IH (S pos)); [ exact Hg | lia ].
    + assert (i = 0) by lia. subst i. now rewrite Nat.add_0_r.
Qed.

Lemma greedy_pick p k : forall s pos x,
  greedy p pos s k = Some x ->
  exists i,
    i <= run p s /\ k (pos + i) (skipn i s) = Some x
    /\ forall j, i < j -> j <= run p s -> k (pos + j) (skipn j s) = None.
Proof.
  induction s as [ | a s IH ]; intros pos x H; cbn [greedy run] in *.
  - exists 0. rewrite Nat.add_0_r. repeat split; [ lia | exact H | ].
    intros; lia.
  - destruct (p a).
    + destruct (greedy p (S pos) s k) as [y | ] eqn:Hg.
      * injection H as <-. destruct (IH _ _ Hg) as (i & Hi & Hk & Hmax).
        exists (S i). rewrite Nat.add_succ_r. repeat split;
          [ lia | exact Hk | ].
        intros [ | j ] Hj1 Hj2; [ lia | ]. rewrite Nat.add_succ_r.
        apply Hmax; lia.
      * exists 0. rewrite Nat.add_0_r. repeat split; [ lia | exact H | ].
        intros [ | j ] Hj1 Hj2; [ lia | ]. rewrite Nat.add_succ_r.
        apply (greedy_fail p k s (S pos) Hg). lia.
    + exists 0. rewrite Nat.add_0_r. repeat split; [ lia | exact H | ].
      intros; lia.
Qed.

Lemma plus_pick p pos s c k x :
  m (Plus (Chr p)) pos s c k = Some x ->
  exists i,
    1 <= i /\ i <= run p s /\ k (pos + i) (skipn i s) c = Some x
    /\ forall j, i < j -> j <= run p s -> k (pos + j) (skipn j s) c = None.
Proof.
  rewrite m_Plus_Chr. destruct s as [ | a s ]; [ discriminate | ].
  cbn [run]. destruct (p a); [ | discriminate ]. intro H.
  apply greedy_pick in H. destruct H as (i & Hi & Hk & Hmax).
  exists (S i). rewrite Nat.add_succ_r. repeat split; [ lia | lia | exact Hk | ].
  intros [ | j ] Hj1 Hj2; [ lia | ]. rewrite Nat.add_succ_r. apply Hmax; lia.
Qed.

Lemma plus_fail p pos s c k :
  m (Plus (Chr p)) pos s c k = None ->
  forall i, 1 <= i -> i <= run p s -> k (pos + i) (skipn i s) c = None.
Proof.
  rewrite m_Plus_Chr. destruct s as [ | a s ]; cbn [run].
  - intros _ i H1 H2. lia.
  - destruct (p a); [ | intros _ i H1 H2; lia ].
    intros H [ | i ] H1 H2; [ lia | ]. rewrite Nat.add_succ_r.
    apply (greedy_fail p _ s (S pos) H). lia.
Qed.

Lemma run_le_length p s : run p s <= List.length s.
Proof. induction s as [ | a s IH ]; cbn; [ lia | destruct (p a); lia ]. Qed.

Lemma run_forallb p : forall s i, i <= run p s -> forallb p (firstn i s) = true.
Proof.
  induction s as [ | a s IH ]; intros [ | i ] Hi; cbn in *; try reflexivity.
  destruct (p a); [ | lia ]. apply IH. lia.
Qed.

Lemma forallb_run p g rest :
  forallb p g = true -> List.length g <= run p (g ++ rest).
Proof.
  induction g as [ | a g IH ]; cbn; [ lia | ].
  destruct (p a); [ | discriminate ]. intro H. specialize (IH H). lia.
Qed.

Lemma skipn_length_app {A} (g rest : list A) :
  skipn (List.length g) (g ++ rest) = rest.
Proof. induction g; [ reflexivity | assumption ]. Qed.

Lemma firstn_length_app {A} (g rest : list A) :
  firstn (List.length g) (g ++ rest) = g.
Proof. induction g; cbn; [ reflexivity | now f_equal ]. Qed.

(** ** [re.search]: the leftmost place where the pattern matches *)

Lemma search_some r s : forall pos b e c,
  search r false pos s = Some (b, e, c) ->
  exists q,
    q <= List.length s /\ b = pos + q
    /\ match_here r false (pos + q) (skipn q s) = Some (e, c)
    /\ forall q', q' < q ->
         match_here r false (pos + q') (skipn q' s) = None.
Proof.
  induction s as [ | a s IH ]; intros pos b e c H; cbn [search] in H.
  - destruct (match_here r false pos []) as [[e' c'] | ] eqn:Hm;
      [ | discriminate ].
    injection H as <- <- <-. exists 0. rewrite Nat.add_0_r.
    repeat split; [ cbn; lia | exact Hm | intros; lia ].
  - destruct (match_here r false pos (a :: s)) as [[e' c'] | ] eqn:Hm.
    + injection H as <- <- <-. exists 0. rewrite Nat.add_0_r.
      repeat split; [ cbn; lia | exact Hm | intros; lia ].
    + apply IH in H. destruct H as (q & Hq & -> & Hq' & Hleft).
      exists (S q). rewrite Nat.add_succ_r.
      repeat split; [ cbn; lia | exact Hq' | ].
      intros [ | q' ] Hlt; [ now rewrite Nat.add_0_r | ].
      rewrite Nat.add_succ_r. apply Hleft. lia.
Qed.

Lemma search_none r s : forall pos,
  search r false pos s = None ->
  forall q, q <= List.length s ->
    match_here r false (pos + q) (skipn q s) = None.
Proof.
  induction s as [ | a s IH ]; intros pos H q Hq; cbn [search] in H.
  - destruct (match_here r false pos []) as [[e' c'] | ] eqn:Hm;
      [ discriminate | ].
    cbn in Hq. assert (q = 0) by lia. subst q. now rewrite Nat.add_0_r.
  - destruct (match_here r false pos (a :: s)) as [[e' c'] | ] eqn:Hm;
      [ discriminate | ].
    destruct q as [ | q ]; [ now rewrite Nat.add_0_r | ].
    rewrite Nat.add_succ_r. apply (IH (S pos) H). cbn in Hq. lia.
Qed.


(** ** The etags pattern *)

Lemma match_here_accept r pos s : match_here r false pos s = m r pos s [] accept.
Proof. reflexivity. Qed.

Lemma only_eq a c : only a c = true -> c = a.
Proof. unfold only. intro H. now apply Ascii.eqb_eq in H. Qed.

Lemma etags_tail_sound pos s c e caps :
  m etags_tail pos s c accept = Some (e, caps) ->
  exists g1 g2 tl,
    EtagsMatch s [] g1 g2 tl
    /\ e + List.length tl = pos + List.length s
    /\ group 1 caps = g1 /\ group 2 caps = g2.
Proof.
  unfold etags_tail. rewrite m_Seq, m_Chr.
  destruct s as [ | x s2 ]; [ discriminate | ].
  destruct (only "/" x) eqn:Hx; [ | discriminate ].
  apply only_eq in Hx. subst x. rewrite m_Seq, m_Group. intro H.
  apply plus_pick in H. destruct H as (i & Hi1 & Hi2 & H & _).
  cbv beta in H. rewrite m_Seq, m_Chr in H.
  pose proof (firstn_skipn i s2) as Hs2.
  destruct (skipn i s2) as [ | y s4 ]; [ discriminate | ].
  destruct (only "," y) eqn:Hy; [ | discriminate ].
  apply only_eq in Hy. subst y. rewrite m_Group, m_Seq in H.
  apply plus_pick in H. destruct H as (j & Hj1 & Hj2 & H & _).
  cbv beta in H.
  pose proof (firstn_skipn j s4) as Hs4.
  pose proof (run_le_length non_space s2) as Hl2.
  pose proof (run_le_length is_digit s4) as Hl4.
  assert (Hlen1 : List.length (firstn i s2) = i)
    by (apply firstn_length_le; lia).
  assert (Hlen2 : List.length (firstn j s4) = j)
    by (apply firstn_length_le; lia).
  exists (firstn i s2), (firstn j s4), (skipn j s4).
  assert (Htl : (skipn j s4 = [] \/ skipn j s4 = [NL])
                /\ (e, caps) =
                     (S (S pos + i) + j,
                      (2, firstn (S (S pos + i) + j - S (S pos + i)) s4)
                      :: (1, firstn (S pos + i - S pos) s2) :: c)).
  { cbn [m] in H. destruct (skipn j s4) as [ | z [ | z' rest ] ].
    - injection H as <- <-. auto.
    - destruct (Ascii.eqb z NL) eqn:Hz; [ | discriminate ].
      apply Ascii.eqb_eq in Hz. subst z. injection H as <- <-. auto.
    - discriminate. }
  destruct Htl as [Htl Hres]. injection Hres as -> ->.
  split; [ | split; [ | split ] ].
  - unfold EtagsMatch. cbn [app]. rewrite Hs4, Hs2.
    repeat split; try reflexivity.
    + intro E. rewrite E in Hlen1. cbn in Hlen1. lia.
    + now apply run_forallb.
    + intro E. rewrite E in Hlen2. cbn in Hlen2. lia.
    + now apply run_forallb.
    + exact Htl.
  - pose proof (f_equal (@List.length _) Hs2) as Hn2.
    pose proof (f_equal (@List.length _) Hs4) as Hn4.
    rewrite length_app in Hn2, Hn4. cbn [List.length] in *. lia.
  - cbn [group Nat.eqb]. f_equal. lia.
  - cbn [group Nat.eqb]. f_equal. lia.
Qed.

Lemma etags_tail_complete pos s c g1 g2 tl :
  EtagsMatch s [] g1 g2 tl -> m etags_tail pos s c accept <> None.
Proof.
  intros (-> & _ & Hg1 & Hn1 & Hg2 & Hn2 & Htl) H. cbn [app] in H.
  unfold etags_tail in H. rewrite m_Seq, m_Chr in H.
  unfold only at 1 in H. rewrite Ascii.eqb_refl in H.
  rewrite m_Seq, m_Group in H.
  apply plus_fail with (i := List.length g1) in H;
    [ | destruct g1; [ congruence | cbn; lia ] | now apply forallb_run ].
  rewrite skipn_length_app in H. cbv beta in H.
  rewrite m_Seq, m_Chr in H. unfold only at 1 in H.
  rewrite Ascii.eqb_refl in H. rewrite m_Group, m_Seq in H.
  apply plus_fail with (i := List.length g2) in H;
    [ | destruct g2; [ congruence | cbn; lia ] | now apply forallb_run ].
  rewrite skipn_length_app in H. cbv beta in H.
  destruct Htl as [-> | ->]; cbn in H; discriminate.
Qed.

Lemma etags_re_unfold : etags_re = Seq (Star (Chr dot)) etags_tail.
Proof. reflexivity. Qed.

Lemma EtagsMatch_skip s A g1 g2 tl :
  EtagsMatch s A g1 g2 tl ->
  EtagsMatch (skipn (List.length A) s) [] g1 g2 tl
  /\ List.length A <= run dot s.
Proof.
  intros (-> & HA & H). split.
  - rewrite skipn_length_app. unfold EtagsMatch. cbn [app forallb]. tauto.
  - now apply forallb_run.
Qed.

Lemma etags_sound pos s e c :
  match_here etags_re false pos s = Some (e, c) ->
  exists A g1 g2 tl,
    EtagsMatch s A g1 g2 tl
    /\ e + List.length tl = pos + List.length s
    /\ group 1 c = g1 /\ group 2 c = g2
    /\ forall A' g1' g2' tl',
         EtagsMatch s A' g1' g2' tl' -> List.length A' <= List.length A.
Proof.
  rewrite match_here_accept, etags_re_unfold, m_Seq, m_Star_Chr. intro H.
  apply greedy_pick in H. destruct H as (i & Hi & Hk & Hmax).
  apply etags_tail_sound in Hk.
  destruct Hk as (g1 & g2 & tl & (Hs & _ & Hrest) & He & H1 & H2).
  pose proof (run_le_length dot s) as Hl.
  assert (Hlen : List.length (firstn i s) = i)
    by (apply firstn_length_le; lia).
  exists (firstn i s), g1, g2, tl. repeat split; try assumption.
  - cbn [app] in Hs. rewrite <- Hs. symmetry. apply firstn_skipn.
  - now apply run_forallb.
  - tauto.
  - tauto.
  - tauto.
  - tauto.
  - tauto.
  - rewrite length_skipn in He. lia.
  - intros A' g1' g2' tl' HA'. rewrite Hlen.
    apply EtagsMatch_skip in HA'. destruct HA' as [Htail Hrun].
    destruct (Nat.le_gt_cases (List.length A') i) as [Hle | Hgt];
      [ exact Hle | ].
    exfalso. apply (etags_tail_complete (pos + List.length A') _ [] _ _ _ Htail).
    apply Hmax; assumption.
Qed.

Lemma etags_complete pos s A g1 g2 tl :
  EtagsMatch s A g1 g2 tl -> match_here etags_re false pos s <> None.
Proof.
  intros HA H. rewrite match_here_accept, etags_re_unfold, m_Seq, m_Star_Chr in H.
  apply EtagsMatch_skip in HA. destruct HA as [Htail Hrun].
  apply (etags_tail_complete (pos + List.length A) _ [] _ _ _ Htail).
  now apply (greedy_fail dot _ s pos H).
Qed.


Lemma forallb_impl (p q : ascii -> bool) l :
  (forall c, p c = true -> q c = true) ->
  forallb p l = true -> forallb q l = true.
Proof.
  intros Hpq. induction l as [ | a l IH ]; cbn; [ reflexivity | ].
  rewrite !andb_true_iff. intros [Ha Hl]. auto.
Qed.

Lemma non_space_dot c : non_space c = true -> dot c = true.
Proof.
  unfold dot, except. destruct (Ascii.eqb NL c) eqn:E; [ | reflexivity ].
  apply Ascii.eqb_eq in E. subst c. discriminate.
Qed.

Lemma is_digit_dot c : is_digit c = true -> dot c = true.
Proof.
  unfold dot, except. destruct (Ascii.eqb NL c) eqn:E; [ | reflexivity ].
  apply Ascii.eqb_eq in E. subst c. discriminate.
Qed.

(** In a text of the etags shape only the last character can be a
    newline. *)
Lemma EtagsMatch_dot s A g1 g2 tl Y R :
  EtagsMatch s A g1 g2 tl -> s = Y ++ R -> R <> [] -> forallb dot Y = true.
Proof.
  intros (-> & HA & _ & Hn1 & _ & Hn2 & Htl) HY HR.
  assert (Hdots :
    forallb dot (A ++ "/"%char :: g1 ++ ","%char :: g2) = true).
  { rewrite forallb_app. cbn [forallb]. rewrite forallb_app. cbn [forallb].
    rewrite HA, (forallb_impl _ _ _ non_space_dot Hn1),
      (forallb_impl _ _ _ is_digit_dot Hn2).
    reflexivity. }
  destruct (exists_last HR) as (R' & x & ->).
  destruct Htl as [-> | ->].
  - rewrite app_nil_r in HY. rewrite HY, forallb_app in Hdots.
    now apply andb_true_iff in Hdots.
  - assert (E : (A ++ "/"%char :: g1 ++ ","%char :: g2) ++ [NL]
                = (Y ++ R') ++ [x])
      by (repeat (rewrite <- app_assoc; cbn [app]); exact HY).
    apply app_inj_tail in E. destruct E as [E _].
    rewrite E, forallb_app in Hdots. now apply andb_true_iff in Hdots.
Qed.

(** After the comma of a text of the etags shape there is no slash. *)
Lemma no_slash_after_comma g2 tl Z T :
  forallb is_digit g2 = true -> tl = [] \/ tl = [NL] ->
  ","%char :: g2 ++ tl <> Z ++ "/"%char :: T.
Proof.
  intros Hn2 Htl E.
  assert (Hin : In "/"%char (","%char :: g2 ++ tl))
    by (rewrite E; apply in_elt).
  destruct Hin as [Hc | Hin]; [ discriminate | ].
  apply in_app_or in Hin. destruct Hin as [Hin | Hin].
  - rewrite forallb_forall in Hn2. apply Hn2 in Hin. discriminate.
  - destruct Htl as [-> | ->]; cbn in Hin; [ tauto | ].
    destruct Hin as [Hc | []]. discriminate.
Qed.


(** A line rewritten by the etags pattern has no place left where the
    pattern matches: [P ++ M] is the line, [M] the leftmost and longest
    match, [F ++ M'] the rewritten line with a supposed match [M']. *)
Lemma etags_no_rematch P M A g1 g2 tl F M' A' h1 h2 tl' :
  EtagsMatch M A g1 g2 tl ->
  (forall A2 x1 x2 t2,
     EtagsMatch M A2 x1 x2 t2 -> List.length A2 <= List.length A) ->
  (forall q A2 x1 x2 t2,
     q < List.length P -> ~ EtagsMatch (skipn q (P ++ M)) A2 x1 x2 t2) ->
  P ++ g1 ++ ","%char :: g2 ++ tl = F ++ M' ->
  EtagsMatch M' A' h1 h2 tl' ->
  False.
Proof.
  intros HM Hmax Hleft Heq HM'.
  pose proof HM as (EM & HA & Hg1 & Hn1 & Hg2 & Hn2 & Htl).
  pose proof HM' as (EM' & HA' & Hh1 & Hm1 & Hh2 & Hm2 & Htl').
  set (T' := "/"%char :: h1 ++ ","%char :: h2 ++ tl') in *.
  assert (HT' : EtagsMatch T' [] h1 h2 tl')
    by (unfold EtagsMatch; cbn [app forallb]; tauto).
  assert (caseA : forall X, g1 ++ ","%char :: g2 ++ tl = X ++ T' -> False).
  { intros X HR. apply app_eq_app in HR.
    destruct HR as [Z [[E1 E2] | [E1 E2]]].
    - destruct Z as [ | z Z' ]; [ discriminate E2 | ].
      injection E2 as <- E2.
      assert (HX : forallb dot X = true).
      { rewrite E1, forallb_app in Hn1. apply andb_true_iff in Hn1.
        apply (forallb_impl _ _ _ non_space_dot). tauto. }
      assert (Hnew : EtagsMatch M (A ++ "/"%char :: X) h1 h2 tl').
      { unfold EtagsMatch. repeat split; try assumption.
        - rewrite EM, E1. repeat (rewrite <- app_assoc; cbn [app]).
          now rewrite <- E2.
        - rewrite forallb_app. cbn [forallb]. now rewrite HA, HX. }
      apply Hmax in Hnew. rewrite length_app in Hnew. cbn in Hnew. lia.
    - apply (no_slash_after_comma g2 tl Z _ Hn2 Htl E2). }
  rewrite EM', (app_assoc F A' T') in Heq. apply app_eq_app in Heq.
  destruct Heq as [Y [[HP HT] | [HU HR]]].
  - destruct Y as [ | y Y' ]; [ now apply (caseA []) | ].
    assert (HY : forallb dot (y :: Y') = true).
    { apply (EtagsMatch_dot T' [] h1 h2 tl' (y :: Y')
               (g1 ++ ","%char :: g2 ++ tl) HT' HT).
      destruct g1; [ congruence | discriminate ]. }
    assert (Hm : EtagsMatch (A' ++ (y :: Y') ++ M) (A' ++ (y :: Y') ++ A)
                   g1 g2 tl).
    { unfold EtagsMatch. repeat split; try assumption.
      - rewrite EM, <- !app_assoc. reflexivity.
      - rewrite !forallb_app, HA', HY, HA. reflexivity. }
    apply (Hleft (List.length F) (A' ++ (y :: Y') ++ A) g1 g2 tl).
    + rewrite HP, !length_app. cbn. lia.
    + replace (P ++ M) with (F ++ A' ++ (y :: Y') ++ M)
        by (rewrite HP, <- !app_assoc; reflexivity).
      now rewrite skipn_length_app.
  - now apply (caseA Y).
Qed.


Lemma EtagsMatch_rest s A g1 g2 tl n :
  EtagsMatch s A g1 g2 tl -> n + List.length tl = List.length s ->
  skipn n s = tl.
Proof.
  intros (-> & _) Hn.
  replace (A ++ "/"%char :: g1 ++ ","%char :: g2 ++ tl)
    with ((A ++ "/"%char :: g1 ++ ","%char :: g2) ++ tl) in *
    by (repeat (rewrite <- app_assoc; cbn [app]); reflexivity).
  rewrite length_app in Hn.
  replace n with (List.length (A ++ "/"%char :: g1 ++ ","%char :: g2)) by lia.
  apply skipn_length_app.
Qed.

Lemma EtagsMatch_length s A g1 g2 tl :
  EtagsMatch s A g1 g2 tl ->
  List.length s =
    List.length A + 1 + List.length g1 + 1 + List.length g2 + List.length tl.
Proof.
  intros (-> & _). rewrite length_app. cbn [List.length].
  rewrite length_app. cbn [List.length]. rewrite length_app. lia.
Qed.

(** The etags filter, applied to a line that it has rewritten, changes
    nothing. *)
Lemma etags_idempotent l :
  filter_basename (basename_filter etags)
    (filter_basename (basename_filter etags) l)
  = filter_basename (basename_filter etags) l.
Proof.
  unfold filter_basename, sub. cbn [basename_filter fst snd].
  rewrite (subn_once etags_re _ l).
  destruct (search etags_re false 0 l) as [[[b e] c] | ] eqn:Hs; cbn [fst].
  2:{ now rewrite subn_once, Hs. }
  rewrite subn_once.
  match goal with
  | |- context [search etags_re false 0 ?x] => set (l' := x)
  end.
  destruct (search etags_re false 0 l') as [[[b' e'] c'] | ] eqn:Hs';
    [ exfalso | reflexivity ].
  apply search_some in Hs. destruct Hs as (q & Hq & -> & Hm & Hleft).
  cbn [Nat.add] in *.
  apply etags_sound in Hm.
  destruct Hm as (A & g1 & g2 & tl & HM & He & H1 & H2 & Hmax).
  apply search_some in Hs'. destruct Hs' as (q' & Hq' & _ & Hm' & _).
  apply etags_sound in Hm'.
  destruct Hm' as (A' & h1 & h2 & tl' & HM' & _).
  assert (Htl : skipn e l = tl).
  { pose proof (EtagsMatch_length _ _ _ _ _ HM) as Hlen.
    replace e with ((e - q) + q) by lia.
    rewrite <- skipn_skipn. apply (EtagsMatch_rest _ A g1 g2 tl _ HM). lia. }
  apply (etags_no_rematch (firstn q l) (skipn q l) A g1 g2 tl
           (firstn q' l') (skipn q' l') A' h1 h2 tl' HM Hmax).
  - intros q0 A2 x1 x2 t2 Hlt Hmatch. rewrite firstn_skipn in Hmatch.
    rewrite firstn_length_le in Hlt by exact Hq.
    apply (etags_complete q0) in Hmatch. apply Hmatch.
    apply (Hleft q0 Hlt).
  - rewrite firstn_skipn. unfold l'. cbn [expand]. rewrite H1, H2, Htl.
    rewrite app_nil_r. repeat (rewrite <- app_assoc; cbn [app]).
    reflexivity.
  - exact HM'.
Qed.


(** ** The ctags pattern *)

Lemma m_Star r pos s c k :
  m (Star r) pos s c k = star_loop r k (List.length s) pos s c.
Proof. reflexivity. Qed.

Lemma greedy_top p k : forall s pos x,
  k (pos + run p s) (skipn (run p s) s) = Some x -> greedy p pos s k = Some x.
Proof.
  induction s as [ | a s IH ]; intros pos x H; cbn [greedy run] in *.
  - now rewrite Nat.add_0_r in H.
  - destruct (p a).
    + rewrite Nat.add_succ_r in H. cbn [skipn] in H.
      now rewrite (IH (S pos) x H).
    + now rewrite Nat.add_0_r in H.
Qed.

Lemma plus_top p pos s c k x :
  1 <= run p s ->
  k (pos + run p s) (skipn (run p s) s) c = Some x ->
  m (Plus (Chr p)) pos s c k = Some x.
Proof.
  rewrite m_Plus_Chr. destruct s as [ | a s ]; cbn [run]; [ lia | ].
  destruct (p a); [ | lia ]. intros _ H. apply greedy_top.
  now rewrite Nat.add_succ_r in H.
Qed.

Lemma run_skipn_head p : forall s i,
  i < run p s -> exists a s', skipn i s = a :: s' /\ p a = true.
Proof.
  induction s as [ | a s IH ]; intros i Hi; cbn [run] in Hi; [ lia | ].
  destruct (p a) eqn:Hp; [ | lia ].
  destruct i as [ | i ]; [ now exists a, s | ].
  cbn [skipn]. apply IH. lia.
Qed.

Lemma run_skipn_stop p s :
  match skipn (run p s) s with
  | a :: _ => p a = false
  | [] => True
  end.
Proof.
  induction s as [ | a s IH ]; cbn [run]; [ exact I | ].
  destruct (p a) eqn:Hp; [ exact IH | exact Hp ].
Qed.

Lemma run_app_stop p g a rest :
  forallb p g = true -> p a = false -> run p (g ++ a :: rest) = List.length g.
Proof.
  intros Hg Ha. induction g as [ | b g IH ]; cbn in *.
  - now rewrite Ha.
  - apply andb_true_iff in Hg. destruct Hg as [Hb Hg]. rewrite Hb.
    now rewrite IH.
Qed.

(** A repetition of a class followed by one character [d] outside the
    class matches in one way only: the whole run, then [d]. *)
Lemma plus_then_char p d pos s c k x :
  p d = false ->
  m (Plus (Chr p)) pos s c (fun p1 s1 c1 => m (Chr (only d)) p1 s1 c1 k)
  = Some x ->
  1 <= run p s
  /\ exists s', skipn (run p s) s = d :: s'
       /\ k (S (pos + run p s)) s' c = Some x.
Proof.
  intros Hd H. apply plus_pick in H. destruct H as (i & Hi1 & Hi2 & H & _).
  rewrite m_Chr in H.
  destruct (Nat.eq_dec i (run p s)) as [-> | Hne].
  - split; [ exact Hi1 | ].
    destruct (skipn (run p s) s) as [ | a s' ]; [ discriminate | ].
    destruct (only d a) eqn:Ha; [ | discriminate ].
    apply only_eq in Ha. subst a. now exists s'.
  - destruct (run_skipn_head p s i) as (a & s' & Hs & Ha); [ lia | ].
    rewrite Hs in H. destruct (only d a) eqn:Hda; [ | discriminate ].
    apply only_eq in Hda. subst a. congruence.
Qed.


Lemma path_char_slash : path_char "/" = false.
Proof. reflexivity. Qed.

Lemma path_char_no_tab c : path_char c = true -> except TAB c = true.
Proof. unfold path_char, both. intro H. now apply andb_true_iff in H. Qed.

Lemma starts_component_inv s :
  starts_component s = true ->
  1 <= run path_char s
  /\ exists s', skipn (run path_char s) s = "/"%char :: s'.
Proof.
  unfold starts_component. intro H. apply andb_true_iff in H.
  destruct H as [Hn Hs]. apply Nat.ltb_lt in Hn. split; [ lia | ].
  destruct (skipn (run path_char s) s) as [ | a s' ]; [ discriminate | ].
  apply Ascii.eqb_eq in Hs. subst a. now exists s'.
Qed.

Lemma component_miss pos s c k :
  starts_component s = false -> m component_re pos s c k = None.
Proof.
  intro Hmiss. unfold component_re. rewrite m_Group, m_Seq.
  match goal with |- ?lhs = None => destruct lhs as [x | ] eqn:H end;
    [ exfalso | reflexivity ].
  apply plus_then_char in H; [ | reflexivity ].
  destruct H as (Hn & s' & Hs & _).
  unfold starts_component in Hmiss. rewrite Hs in Hmiss.
  replace (Nat.ltb 0 (run path_char s)) with true in Hmiss
    by (symmetry; apply Nat.ltb_lt; lia).
  discriminate.
Qed.

Lemma component_hit pos s c k s' x :
  1 <= run path_char s ->
  skipn (run path_char s) s = "/"%char :: s' ->
  k (S (pos + run path_char s)) s'
    ((3, firstn (S (pos + run path_char s) - pos) s) :: c) = Some x ->
  m component_re pos s c k = Some x.
Proof.
  intros Hn Hs Hk. unfold component_re. rewrite m_Group, m_Seq.
  apply plus_top; [ exact Hn | ]. rewrite Hs, m_Chr. exact Hk.
Qed.

(** The repetition of components takes all the components there are. *)
Lemma star_components k :
  accepting k ->
  forall fuel s pos c,
    List.length s <= fuel ->
    exists G r1 c',
      s = G ++ r1
      /\ star_loop component_re k fuel pos s c = Some (pos + List.length G, c')
      /\ group 1 c' = group 1 c
      /\ forallb (except TAB) G = true
      /\ (G = [] \/ exists G', G = G' ++ ["/"%char])
      /\ starts_component r1 = false
      /\ (starts_component s = false -> G = []).
Proof.
  intros Hk. induction fuel as [ | f IH ]; intros s pos c Hlen.
  - destruct s; [ | cbn in Hlen; lia ].
    destruct (Hk pos [] c) as (c' & Hc & H1).
    exists [], [], c'. cbn [star_loop app List.length].
    rewrite Nat.add_0_r. repeat split; auto.
  - destruct (starts_component s) eqn:Hsc.
    + destruct (starts_component_inv s Hsc) as (Hn & s2 & Hs2).
      pose proof (firstn_skipn (run path_char s) s) as Hs.
      rewrite Hs2 in Hs.
      pose proof (run_le_length path_char s) as Hrl.
      assert (Hfl : List.length (firstn (run path_char s) s)
                    = run path_char s) by (apply firstn_length_le; lia).
      assert (Hl2 : List.length s2 <= f).
      { rewrite <- Hs, length_app, Hfl in Hlen. cbn in Hlen. lia. }
      destruct (IH s2 (S (pos + run path_char s))
                  ((3, firstn (S (pos + run path_char s) - pos) s) :: c) Hl2)
        as (G2 & r1 & c' & HG2 & Hloop & H1 & Htab & Hlast & Hr1 & _).
      exists (firstn (run path_char s) s ++ "/"%char :: G2), r1, c'.
      repeat split.
      * rewrite <- app_assoc. cbn [app]. now rewrite <- HG2.
      * cbn [star_loop].
        match goal with
        | |- context [m component_re pos s c ?K] =>
            assert (Hhit : m component_re pos s c K
                           = Some (S (pos + run path_char s)
                                   + List.length G2, c'))
        end.
        { apply (component_hit pos s c _ s2 _ Hn Hs2).
          replace (Nat.ltb pos (S (pos + run path_char s))) with true
            by (symmetry; apply Nat.ltb_lt; lia).
          exact Hloop. }
        rewrite Hhit, length_app, Hfl. cbn [List.length].
        f_equal. f_equal. lia.
      * rewrite H1. reflexivity.
      * rewrite forallb_app. cbn [forallb]. rewrite Htab.
        rewrite (forallb_impl _ _ _ path_char_no_tab
                   (run_forallb path_char s _ (le_n _))).
        reflexivity.
      * right. destruct Hlast as [-> | (G' & ->)].
        -- now exists (firstn (run path_char s) s).
        -- exists (firstn (run path_char s) s ++ "/"%char :: G').
           now rewrite <- app_assoc.
      * exact Hr1.
      * discriminate.
    + destruct (Hk pos s c) as (c' & Hc & H1).
      exists [], s, c'. cbn [star_loop app List.length].
      rewrite (component_miss pos s c _ Hsc), Nat.add_0_r.
      repeat split; auto.
Qed.


Lemma ctags_re_unfold :
  ctags_re =
    Seq (Group 1 (Seq Bol (Seq (Plus (Chr (except TAB))) (Chr (only TAB)))))
        dirs_re.
Proof. reflexivity. Qed.

(** What the second group takes from a path [r]: an optional slash and
    all the components that follow. *)
Lemma dirs_match pos r c :
  exists G r1 c',
    r = G ++ r1
    /\ m dirs_re pos r c accept = Some (pos + List.length G, c')
    /\ group 1 c' = group 1 c
    /\ forallb (except TAB) G = true
    /\ (G = [] \/ exists G', G = G' ++ ["/"%char])
    /\ starts_component r1 = false
    /\ (starts_slash r = false -> starts_component r = false -> G = [])
    /\ (G = [] -> starts_slash r = false).
Proof.
  unfold dirs_re. rewrite m_Group, m_Seq, m_Opt, m_Chr.
  match goal with
  | |- context [m (Star component_re) _ _ _ ?K] =>
      assert (HK : accepting K)
        by (intros p0 s0 c0; eexists; split; reflexivity);
      set (k := K) in *
  end.
  destruct r as [ | a r0 ].
  - destruct (star_components k HK 0 [] pos c (le_n _))
      as (G & r1 & c' & HG & Hloop & H1 & Htab & Hlast & Hr1 & Hnone).
    exists G, r1, c'. rewrite m_Star. cbn [List.length].
    repeat split; auto.
  - destruct (only "/" a) eqn:Ha.
    + apply only_eq in Ha. subst a.
      destruct (star_components k HK (List.length r0) r0 (S pos) c (le_n _))
        as (G & r1 & c' & HG & Hloop & H1 & Htab & Hlast & Hr1 & Hnone).
      exists ("/"%char :: G), r1, c'. rewrite m_Star, Hloop.
      cbn [List.length app forallb]. rewrite Htab.
      repeat split; auto.
      * now rewrite HG.
      * f_equal. f_equal. lia.
      * right. destruct Hlast as [-> | (G' & ->)].
        -- now exists [].
        -- now exists ("/"%char :: G').
      * discriminate.
      * discriminate.
    + destruct (star_components k HK (List.length (a :: r0)) (a :: r0) pos c
                  (le_n _))
        as (G & r1 & c' & HG & Hloop & H1 & Htab & Hlast & Hr1 & Hnone).
      exists G, r1, c'. rewrite m_Star, Hloop.
      repeat split; auto.
Qed.


Lemma firstn_S_length_app (name : text) a rest :
  firstn (S (List.length name)) (name ++ a :: rest) = name ++ [a].
Proof. induction name as [ | b name IH ]; cbn; [ reflexivity | now f_equal ]. Qed.

(** The ctags pattern on a line with a name, a tab and a path [r]. *)
Lemma ctags_here name r :
  name <> [] -> forallb (except TAB) name = true ->
  exists G r1 c,
    r = G ++ r1
    /\ match_here ctags_re false 0 (name ++ TAB :: r)
       = Some (S (List.length name) + List.length G, c)
    /\ group 1 c = name ++ [TAB]
    /\ forallb (except TAB) G = true
    /\ (G = [] \/ exists G', G = G' ++ ["/"%char])
    /\ starts_component r1 = false
    /\ (starts_slash r = false -> starts_component r = false -> G = [])
    /\ (G = [] -> starts_slash r = false).
Proof.
  intros Hne Hname.
  destruct (dirs_match (S (List.length name)) r [(1, name ++ [TAB])])
    as (G & r1 & c & HG & Hm & H1 & Hrest).
  exists G, r1, c. split; [ exact HG | ]. split; [ | split; [ | exact Hrest ] ].
  - rewrite match_here_accept, ctags_re_unfold, m_Seq, m_Group, m_Seq.
    cbn [m Nat.eqb]. fold (Plus (Chr (except TAB))).
    assert (Hrun : run (except TAB) (name ++ TAB :: r) = List.length name)
      by (apply run_app_stop; [ exact Hname | reflexivity ]).
    apply plus_top.
    + rewrite Hrun. destruct name; [ congruence | cbn; lia ].
    + rewrite Hrun, skipn_length_app. cbn [Nat.add].
      unfold only. rewrite Ascii.eqb_refl. rewrite Nat.sub_0_r.
      rewrite firstn_S_length_app. exact Hm.
  - rewrite H1. reflexivity.
Qed.


Lemma m_Bol pos s c k :
  m Bol pos s c k = if Nat.eqb pos 0 then k pos s c else None.
Proof. reflexivity. Qed.

Lemma ctags_shape l e c :
  match_here ctags_re false 0 l = Some (e, c) ->
  exists name r,
    l = name ++ TAB :: r /\ name <> []
    /\ forallb (except TAB) name = true.
Proof.
  rewrite match_here_accept, ctags_re_unfold, m_Seq, m_Group, m_Seq, m_Bol.
  cbn [Nat.eqb]. rewrite m_Seq. intro H.
  apply plus_then_char in H; [ | reflexivity ].
  destruct H as (Hn & r & Hs & _).
  pose proof (firstn_skipn (run (except TAB) l) l) as Hl. rewrite Hs in Hl.
  exists (firstn (run (except TAB) l) l), r. repeat split.
  - now symmetry.
  - intro E. apply (f_equal (@List.length _)) in E.
    rewrite firstn_length_le in E by apply run_le_length. cbn in E. lia.
  - now apply run_forallb.
Qed.

Lemma ctags_not_later must_advance pos s :
  match_here ctags_re must_advance (S pos) s = None.
Proof. reflexivity. Qed.

Lemma ctags_search_later s : forall pos, search ctags_re false (S pos) s = None.
Proof.
  induction s as [ | a s IH ]; intro pos; cbn [search];
    rewrite ctags_not_later; [ reflexivity | apply IH ].
Qed.

(** The ctags pattern can match at the start of the line only. *)
Lemma ctags_search l :
  search ctags_re false 0 l =
    match match_here ctags_re false 0 l with
    | Some (e, c) => Some (0, e, c)
    | None => None
    end.
Proof.
  destruct l as [ | a l ]; cbn [search];
    destruct (match_here ctags_re false 0 _) as [[e c] | ]; try reflexivity.
  apply ctags_search_later.
Qed.

Lemma after_tab_name name r :
  forallb (except TAB) name = true -> after_tab (name ++ TAB :: r) = r.
Proof.
  induction name as [ | a name IH ]; cbn; [ reflexivity | ].
  intro H. apply andb_true_iff in H. destruct H as [Ha H].
  unfold except in Ha. rewrite Ascii.eqb_sym in Ha.
  apply negb_true_iff in Ha. rewrite Ha. now apply IH.
Qed.

Lemma double_slash_in_field G x :
  forallb (except TAB) G = true ->
  has_double_slash (field (G ++ "/"%char :: "/"%char :: x)) = true.
Proof.
  induction G as [ | a G IH ]; cbn [app forallb field].
  - reflexivity.
  - intro H. apply andb_true_iff in H. destruct H as [Ha H].
    unfold except in Ha. rewrite Ascii.eqb_sym in Ha.
    apply negb_true_iff in Ha. rewrite Ha. cbn [has_double_slash].
    rewrite (IH H). apply orb_true_r.
Qed.

Lemma skipn_name_dirs (name G r1 : text) :
  skipn (S (List.length name + List.length G)) (name ++ TAB :: G ++ r1) = r1.
Proof.
  replace (name ++ TAB :: G ++ r1) with ((name ++ TAB :: G) ++ r1)
    by (rewrite <- app_assoc; reflexivity).
  replace (S (List.length name + List.length G))
    with (List.length (name ++ TAB :: G))
    by (rewrite length_app; cbn; lia).
  apply skipn_length_app.
Qed.

(** The ctags filter, applied to a line that it has rewritten, changes
    nothing when the path of the line holds no two slashes in a row. *)
Lemma ctags_idempotent l :
  has_double_slash (path_field l) = false ->
  filter_basename (basename_filter ctags)
    (filter_basename (basename_filter ctags) l)
  = filter_basename (basename_filter ctags) l.
Proof.
  intro Hpath. unfold filter_basename, sub. cbn [basename_filter fst snd].
  rewrite (subn_once ctags_re _ l), ctags_search.
  destruct (match_here ctags_re false 0 l) as [[e c] | ] eqn:Hm; cbn [fst].
  2:{ now rewrite subn_once, ctags_search, Hm. }
  destruct (ctags_shape l e c Hm) as (name & r & -> & Hne & Hname).
  destruct (ctags_here name r Hne Hname)
    as (G & r1 & c0 & HG & Hm0 & H1 & Htab & Hlast & Hr1 & _ & Hslash).
  rewrite Hm0 in Hm. injection Hm as <- <-.
  cbn [firstn app expand]. rewrite H1, app_nil_r, HG, skipn_name_dirs.
  assert (Hr1s : starts_slash r1 = false).
  { destruct (starts_slash r1) eqn:E; [ exfalso | reflexivity ].
    destruct r1 as [ | a r1' ]; [ discriminate | ]. cbn in E.
    apply Ascii.eqb_eq in E. subst a.
    destruct Hlast as [-> | (G' & ->)].
    - specialize (Hslash eq_refl). rewrite HG in Hslash. discriminate.
    - unfold path_field in Hpath. rewrite after_tab_name in Hpath by exact Hname.
      rewrite HG, <- app_assoc in Hpath. cbn [app] in Hpath.
      rewrite double_slash_in_field in Hpath; [ discriminate | ].
      rewrite forallb_app in Htab. now apply andb_true_iff in Htab. }
  destruct (ctags_here name r1 Hne Hname)
    as (G2 & r2 & c2 & HG2 & Hm2 & H2 & _ & _ & _ & Hnone & _).
  rewrite (Hnone Hr1s Hr1) in *. cbn [app List.length] in *.
  rewrite <- app_assoc. cbn [app].
  rewrite subn_once, ctags_search, Hm2. cbn [fst firstn app expand].
  rewrite H2, app_nil_r.
  replace (S (List.length name) + 0) with (List.length (name ++ [TAB]))
    by (rewrite length_app; cbn; lia).
  replace (name ++ TAB :: r1) with ((name ++ [TAB]) ++ r1)
    by (rewrite <- app_assoc; reflexivity).
  now rewrite skipn_length_app.
Qed.


(** ** Idempotence of the basename filter *)

(** C8, as the code has it.  Applying the basename filter twice gives
    the same as applying it once for the etags format on every line, and
    for the ctags format on every line whose path, the text between the
    first tab and the next, holds no two slashes in a row. *)
Theorem basename_filter_idempotent output_type l :
  output_type = etags
  \/ (output_type = ctags /\ has_double_slash (path_field l) = false) ->
  filter_basename (basename_filter output_type)
    (filter_basename (basename_filter output_type) l)
  = filter_basename (basename_filter output_type) l.
Proof.
  intros [-> | [-> Hpath]].
  - apply etags_idempotent.
  - now apply ctags_idempotent.
Qed.

Lemma basename_filter_idempotent_witness :
  filter_basename (basename_filter ctags)
    (filter_basename (basename_filter ctags) ctags_line_usual)
  = filter_basename (basename_filter ctags) ctags_line_usual.
Proof.
  apply (basename_filter_idempotent ctags ctags_line_usual).
  right. split; reflexivity.
Defined.

(** C8 as stated fails: on a tags line whose path is src//main.c the
    first application leaves /main.c and the second main.c. *)
Lemma basename_filter_twice_differs :
  filter_basename (basename_filter ctags) ctags_line_double_slash
    = t "main" ++ TAB :: t "/main.c" ++ TAB :: t "/^int main()$/"
  /\ filter_basename (basename_filter ctags)
       (filter_basename (basename_filter ctags) ctags_line_double_slash)
     = t "main" ++ TAB :: t "main.c" ++ TAB :: t "/^int main()$/"
  /\ filter_basename (basename_filter ctags)
       (filter_basename (basename_filter ctags) ctags_line_double_slash)
     <> filter_basename (basename_filter ctags) ctags_line_double_slash.
Proof.
  split; [ reflexivity | split; [ reflexivity | ] ].
  intro H. vm_compute in H. discriminate H.
Qed.

(** The xref and json filters are not idempotent either. *)
Example xref_filter_twice_differs :
  filter_basename (basename_filter xref) xref_line_two_paths
    = t "f function 12 aa/bb 34 eee"
  /\ filter_basename (basename_filter xref)
       (filter_basename (basename_filter xref) xref_line_two_paths)
     = t "f function 12 bb 34 eee".
Proof. split; reflexivity. Qed.

Example json_filter_twice_differs :
  filter_basename (basename_filter json)
    (filter_basename (basename_filter json) json_line_two_paths)
  <> filter_basename (basename_filter json) json_line_two_paths.
Proof. intro H. vm_compute in H. discriminate H. Qed.

End Properties.

(** * Further properties of the harness *)

Module Coverage.
Import Re Normalizer Harness Notions MoreNotions Discovery DiscoveryNotions.
Import Summary SummaryNotions Tmain TmainNotions Probe ProbeNotions.
Import Properties.

#[local] Hint Resolve framed_ret framed_raise framed_hang framed_emit
  framed_record framed_check_languages framed_subprocess_run
  framed_first_line framed_anon_normalize framed_shrink framed_normalize
  framed_compare framed_after_run : framed.

(** ** When a test case does not return *)

Lemma never_hangs_ret {A} (a : A) : never_hangs (ret a).
Proof. intros st. discriminate. Qed.

Lemma never_hangs_raise {A} e : never_hangs (@raise A e).
Proof. intros st. discriminate. Qed.

Lemma never_hangs_emit e : never_hangs (emit e).
Proof. intros st. discriminate. Qed.

Lemma never_hangs_record o x : never_hangs (record o x).
Proof. intros st. discriminate. Qed.

Lemma never_hangs_bind {A B} (c : M A) (f : A -> M B) :
  never_hangs c -> (forall a, never_hangs (f a)) -> never_hangs (bind c f).
Proof.
  intros Hc Hf st. unfold bind. specialize (Hc st).
  destruct (c st) as [s1 [a | e | ]]; cbn [snd] in *.
  - apply Hf.
  - discriminate.
  - congruence.
Qed.

Create HintDb hangs discriminated.
#[local] Hint Resolve never_hangs_ret never_hangs_raise never_hangs_emit
  never_hangs_record : hangs.

Ltac hangs_step :=
  match goal with
  | |- never_hangs (bind _ _) => apply never_hangs_bind; [ | intros ]
  | |- never_hangs (if ?b then _ else _) => destruct b
  | |- never_hangs (match ?x with _ => _ end) => destruct x
  | |- never_hangs (run_result _ _ _ _) => apply never_hangs_emit
  | |- never_hangs (when _ _) => unfold when
  | |- never_hangs (shrink _ _) => unfold shrink, run_shrink
  | |- never_hangs _ => solve [ auto with hangs ]
  end.

Lemma never_hangs_first_line l : never_hangs (first_line l).
Proof. unfold first_line. repeat hangs_step. Qed.

Lemma never_hangs_anon_normalize_sub w args :
  forall input_actual, never_hangs (anon_normalize_sub w input_actual args).
Proof.
  induction args as [ | a args IH ]; intro input_actual; simpl;
    repeat first [ apply never_hangs_first_line | apply IH | hangs_step ].
Qed.

Lemma never_hangs_anon_normalize w input_actual args :
  never_hangs (anon_normalize w input_actual args).
Proof.
  unfold anon_normalize. destruct (is_anon_normalize_needed _);
    [ apply never_hangs_anon_normalize_sub | apply never_hangs_ret ].
Qed.

#[local] Hint Resolve never_hangs_first_line never_hangs_anon_normalize
  : hangs.

Lemma never_hangs_after_run g tc w done : never_hangs (after_run g tc w done).
Proof. unfold after_run, normalize, compare. repeat hangs_step. Qed.

Lemma timeout_value_none g : timeout_value g = None <-> WITH_TIMEOUT g = 0%Z.
Proof.
  unfold timeout_value, _VG_TIMEOUT_FACTOR.
  destruct (WITH_VALGRIND g).
  - destruct (WITH_TIMEOUT g * 10 =? 0)%Z eqn:E.
    + apply Z.eqb_eq in E. split; [ lia | reflexivity ].
    + apply Z.eqb_neq in E. split; [ discriminate | lia ].
  - destruct (WITH_TIMEOUT g =? 0)%Z eqn:E.
    + apply Z.eqb_eq in E. tauto.
    + apply Z.eqb_neq in E. split; [ discriminate | tauto ].
Qed.

Lemma first_failing_none g tc w :
  first_failing g tc w = None <-> gates_pass g tc w = true.
Proof.
  unfold first_failing, gates_pass, gate_order. cbn [find forallb].
  repeat (destruct (gate_holds g tc w _); cbn [negb andb]);
    split; intro H; try reflexivity; discriminate.
Qed.

Lemma blocked g tc w st :
  gates_pass g tc w = true -> WITH_TIMEOUT g = 0%Z -> subject w = Loops ->
  run_tcase g tc w st =
    (mkState (lists st)
       (trace st ++ gate_trace w ++ [EvRun (CTagging None)]), Hangs).
Proof.
  intros Hpass H0 Hloop. rewrite run_tcase_passed by exact Hpass.
  apply timeout_value_none in H0.
  unfold bind at 1, subprocess_run. rewrite bind_emit, H0, Hloop.
  unfold hang. cbn [lists trace]. now rewrite app_assoc.
Qed.

(** X1.  Without a timeout, a subject that never exits blocks the case
    that reaches it: when the case passes the gates, no timeout is
    configured and the subject does not exit, [run_tcase] does not end.
    The tagging run, started without a deadline, is the last thing it
    has started, and no list has changed. *)
Theorem run_tcase_blocked g tc w st :
  gates_pass g tc w = true -> WITH_TIMEOUT g = 0%Z -> subject w = Loops ->
  run_tcase g tc w st =
    (mkState (lists st)
       (trace st ++ gate_trace w ++ [EvRun (CTagging None)]), Hangs).
Proof. exact (blocked g tc w st). Qed.

Lemma run_tcase_blocked_witness :
  run_tcase sample_globals (sample_case "quux" "d")
    (with_subject sample_world Loops) initial =
    (mkState no_results
       ([] ++ gate_trace (with_subject sample_world Loops)
        ++ [EvRun (CTagging None)]), Hangs).
Proof.
  apply (run_tcase_blocked sample_globals (sample_case "quux" "d")
           (with_subject sample_world Loops) initial); reflexivity.
Defined.

(** ** When a test case raises *)

(** The state after the queries of [anon_normalize_sub]. *)
Lemma anon_normalize_sub_answered w args :
  forall input_actual st,
    (forall p, In p (anon_queries input_actual args) -> anonhash w p <> []) ->
    anon_normalize_sub w input_actual args st =
      (mkState (lists st)
         (trace st
          ++ map (fun p => EvRun (CAnonhash p))
               (anon_queries input_actual args)),
       Returns (hash_pairs w (input_actual :: args))).
Proof.
  induction args as [ | a args IH ]; intros input_actual st Hall;
    cbn [anon_normalize_sub anon_queries]; rewrite bind_emit;
    unfold first_line;
    (destruct (anonhash w input_actual) as [ | actual ? ] eqn:Ha;
     [ exfalso; apply (Hall input_actual); [ now left | exact Ha ] | ]);
    rewrite bind_ret, bind_emit;
    (destruct (anonhash w (input_expected input_actual))
       as [ | expected ? ] eqn:He;
     [ exfalso; apply (Hall (input_expected input_actual));
       [ right; now left | exact He ] | ]);
    rewrite bind_ret; cbn [lists trace].
  - unfold ret, hash_pairs. cbn [map hd]. rewrite Ha, He. cbn [hd].
    now rewrite <- app_assoc.
  - unfold bind. rewrite IH.
    2:{ intros p Hp. apply Hall. right. right. exact Hp. }
    unfold ret, hash_pairs. cbn [map hd lists trace]. rewrite Ha, He.
    cbn [hd]. now rewrite <- !app_assoc.
Qed.

(** A query without an answer makes [splitlines()[0]] raise. *)
Lemma anon_normalize_sub_unanswered w args :
  forall input_actual st,
    (exists p, In p (anon_queries input_actual args) /\ anonhash w p = []) ->
    snd (anon_normalize_sub w input_actual args st)
      = Raises "IndexError"%string.
Proof.
  induction args as [ | a args IH ]; intros input_actual st (p & Hp & Hnone);
    cbn [anon_normalize_sub anon_queries] in *; rewrite bind_emit;
    unfold first_line;
    (destruct (anonhash w input_actual) as [ | actual ? ] eqn:Ha;
     [ reflexivity | ]);
    rewrite bind_ret, bind_emit;
    (destruct (anonhash w (input_expected input_actual))
       as [ | expected ? ] eqn:He;
     [ reflexivity | ]);
    rewrite bind_ret.
  - destruct Hp as [<- | [<- | []]]; congruence.
  - destruct Hp as [<- | [<- | Hp]]; try congruence.
    unfold bind.
    match goal with
    | |- context [anon_normalize_sub w a args ?s] =>
        pose proof (IH a s (ex_intro _ p (conj Hp Hnone))) as Hr;
        destruct (anon_normalize_sub w a args s) as [s1 [r | e1 | ]]
    end; cbn [snd] in *; first [ discriminate Hr | exact Hr ].
Qed.

Lemma normalize_unanswered tc w st :
  is_anon_normalize_needed (List.concat (rawout w)) = true ->
  (exists p, In p (anon_queries (t (finput tc)) (map t (extra_inputs tc)))
             /\ anonhash w p = []) ->
  snd (normalize tc w st) = Raises "IndexError"%string.
Proof.
  intros Hneed Hun. unfold normalize, anon_normalize. rewrite Hneed.
  pose proof (anon_normalize_sub_unanswered w (map t (extra_inputs tc))
                (t (finput tc)) st Hun) as Hr.
  destruct (which_ffilter w); unfold bind at 1;
    destruct (anon_normalize_sub w _ _ st) as [s1 [r | e1 | ]];
    cbn [snd] in *;
    first [ discriminate Hr | injection Hr as ->; reflexivity ].
Qed.

(** A hash that is no pattern makes [re.compile] raise. *)
Lemma compile_all_none lib anon_filters :
  (exists p, In p anon_filters /\ plain_pattern (fst p) = false
             /\ compiles lib (fst p) = false) ->
  compile_all lib anon_filters = None.
Proof.
  induction anon_filters as [ | q qs IH ]; intros (p & Hp & Hplain & Hcomp).
  - destruct Hp.
  - cbn [compile_all]. destruct Hp as [-> | Hp].
    + unfold compile. now rewrite Hplain, Hcomp.
    + destruct (compile lib (fst q)); [ | reflexivity ].
      rewrite IH; [ reflexivity | ]. now exists p.
Qed.

Lemma normalize_bad_pattern tc w st :
  which_ffilter w = false ->
  is_anon_normalize_needed (List.concat (rawout w)) = true ->
  (forall p, In p (anon_queries (t (finput tc)) (map t (extra_inputs tc))) ->
             anonhash w p <> []) ->
  (exists p, In p (hash_pairs w (t (finput tc) :: map t (extra_inputs tc)))
             /\ plain_pattern (fst p) = false
             /\ compiles (library w) (fst p) = false) ->
  snd (normalize tc w st) = Raises "re.error"%string.
Proof.
  intros Hint Hneed Hall Hbad. unfold normalize, anon_normalize.
  rewrite Hint, Hneed. unfold bind.
  rewrite (anon_normalize_sub_answered w _ _ st Hall).
  unfold run_filter. now rewrite (compile_all_none _ _ Hbad).
Qed.

Lemma after_run_raises g tc w done st e :
  snd (after_run g tc w done st) = Raises e ->
  done = Finished 0 /\ isfile_fexpected w = true
  /\ exists st1, snd (normalize tc w st1) = Raises e.
Proof.
  unfold after_run. destruct done as [rc | ].
  2:{ bind_steps. rewrite shrink_skip. discriminate. }
  bind_steps. destruct (rc =? 0)%Z eqn:Hrc; cbn [negb].
  2:{ destruct (WITH_VALGRIND g && (rc =? _VALGRIND_EXIT)%Z
                && negb (Ascii.eqb (tclass tc) "v"));
        [ | destruct (Ascii.eqb (tclass tc) "b") ];
        bind_steps; rewrite ?shrink_skip; discriminate. }
  apply Z.eqb_eq in Hrc. subst rc.
  destruct (WITH_VALGRIND g && Ascii.eqb (tclass tc) "v"); bind_steps;
    (destruct (isfile_fexpected w); cbn [negb];
     [ | destruct (Ascii.eqb (tclass tc) "b" || Ascii.eqb (tclass tc) "i");
         bind_steps; discriminate ]);
    match goal with
    | |- context [bind (normalize tc w) _ ?s] =>
        unfold bind at 1;
        destruct (normalize tc w s) as [s1 [filtered | e1 | ]] eqn:Hn
    end;
    cbn [snd];
    try (intro H; injection H as <-; repeat split; eexists;
         rewrite Hn; reflexivity);
    try discriminate;
    unfold compare; destruct (filecmp w filtered); bind_steps;
    [ cbn [Z.eqb] | destruct (diff w filtered =? 0)%Z
    | cbn [Z.eqb] | destruct (diff w filtered =? 0)%Z ];
    bind_steps;
    try destruct (Ascii.eqb (tclass tc) "b" || _);
    try destruct (Ascii.eqb (tclass tc) "b");
    bind_steps; discriminate.
Qed.

(** The run of a case that reaches the normaliser, when the normaliser
    raises. *)
Lemma normalize_raises_run g tc w st ms e :
  gates_pass g tc w = true ->
  subject w = Exits ms 0 ->
  deadline_exceeded g w = false ->
  isfile_fexpected w = true ->
  (forall st1, snd (normalize tc w st1) = Raises e) ->
  snd (run_tcase g tc w st) = Raises e.
Proof.
  intros Hpass Hsub Hdead Hexp Hn.
  rewrite (run_tcase_finished g tc w st ms 0) by assumption.
  unfold after_run. bind_steps. cbn [Z.eqb negb]. rewrite Hexp. cbn [negb].
  destruct (WITH_VALGRIND g && Ascii.eqb (tclass tc) "v"); bind_steps;
    unfold bind at 1;
    match goal with
    | |- context [normalize tc w ?s] =>
        pose proof (Hn s) as Hr;
        destruct (normalize tc w s) as [s1 [r | e1 | ]]
    end; cbn [snd] in *;
    first [ discriminate Hr | injection Hr as ->; reflexivity ].
Qed.

(** ** What a run leaves on the lists *)

Lemma normalize_keeps_lists tc w st :
  lists (fst (normalize tc w st)) = lists st.
Proof.
  rewrite (framed_normalize tc w st). cbn [fst].
  apply lists_after_normalize.
Qed.

Lemma after_run_verdict g tc w done st st' b :
  after_run g tc w done st = (st', Returns b) ->
  exists o fixed,
    o <> Fixed
    /\ lists st' =
         add_to o (case_id tc)
           (if fixed : bool then add_to Fixed (case_id tc) (lists st)
            else lists st)
    /\ b = tolerated o
    /\ possible_after g done o = true.
Proof.
  unfold after_run. destruct done as [rc | ].
  2:{ bind_steps. rewrite shrink_skip. unfold ret. intro H.
      injection H as <- <-. exists TimedOut, false. now repeat split. }
  bind_steps. destruct (negb (rc =? 0)%Z).
  { destruct (WITH_VALGRIND g && (rc =? _VALGRIND_EXIT)%Z
              && negb (Ascii.eqb (tclass tc) "v")) eqn:Hvg;
      [ | destruct (Ascii.eqb (tclass tc) "b") ];
      bind_steps; rewrite ?shrink_skip; unfold ret; intro H;
      injection H as <- <-;
      [ exists ValgrindError, false | exists KnownBug, false
      | exists FailedStatus, false ]; repeat split; try discriminate.
    apply andb_true_iff in Hvg. destruct Hvg as [Hvg _].
    apply andb_true_iff in Hvg. now destruct Hvg as [Hvg _]. }
  assert (Hend :
    forall (o : Outcome) (fixed : bool) (r : Results) (b' : bool),
      o <> Fixed ->
      r = add_to o (case_id tc)
            (if fixed then add_to Fixed (case_id tc) (lists st)
             else lists st) ->
      b' = tolerated o ->
      possible_after g (Finished rc) o = true ->
      exists o fixed,
        o <> Fixed
        /\ r = add_to o (case_id tc)
                 (if fixed : bool then add_to Fixed (case_id tc) (lists st)
                  else lists st)
        /\ b' = tolerated o
        /\ possible_after g (Finished rc) o = true).
  { intros o fixed r b' Ho Hr Hb Hp. now exists o, fixed. }
  destruct (Ascii.eqb (tclass tc) "v") eqn:Hv.
  - apply Ascii.eqb_eq in Hv. rewrite Hv. cbn [Ascii.eqb Bool.eqb orb andb].
    rewrite andb_false_r, andb_true_r.
    destruct (WITH_VALGRIND g); bind_steps;
      (destruct (negb (isfile_fexpected w));
       [ bind_steps; unfold ret; intro H; injection H as <- <-;
         cbn [lists]
       | rewrite bind_framed by auto with framed;
         destruct (snd (normalize tc w initial)) as [filtered | e | ];
         [ | intro H; discriminate H | intro H; discriminate H ];
         unfold compare; destruct (filecmp w filtered); bind_steps;
         [ cbn [Z.eqb] | destruct (diff w filtered =? 0)%Z ];
         bind_steps; unfold ret; rewrite lists_after_normalize;
         cbn [lists]; intro H; injection H as <- <-; cbn [lists] ]).
    all: first
      [ apply (Hend Passed true); [ discriminate | reflexivity | reflexivity | reflexivity ]
      | apply (Hend Passed false);
        [ discriminate | reflexivity | reflexivity | reflexivity ]
      | apply (Hend FailedDiff true);
        [ discriminate | reflexivity | reflexivity | reflexivity ]
      | apply (Hend FailedDiff false);
        [ discriminate | reflexivity | reflexivity | reflexivity ] ].
  - rewrite andb_false_r. bind_steps.
    destruct (negb (isfile_fexpected w));
      [ destruct (Ascii.eqb (tclass tc) "b" || Ascii.eqb (tclass tc) "i");
        bind_steps; unfold ret; intro H; injection H as <- <-; cbn [lists]
      | rewrite bind_framed by auto with framed;
        destruct (snd (normalize tc w initial)) as [filtered | e | ];
        [ | intro H; discriminate H | intro H; discriminate H ];
        unfold compare; destruct (filecmp w filtered); bind_steps;
        [ cbn [Z.eqb] | destruct (diff w filtered =? 0)%Z ]; bind_steps;
        try destruct (Ascii.eqb (tclass tc) "b"); cbn [orb];
        try destruct (negb (WITH_TIMEOUT g =? 0)%Z
                      && Ascii.eqb (tclass tc) "i");
        bind_steps; unfold ret; rewrite lists_after_normalize;
        cbn [lists]; intro H; injection H as <- <-; cbn [lists] ].
    all: first
      [ apply (Hend Passed true); [ discriminate | reflexivity | reflexivity | reflexivity ]
      | apply (Hend Passed false);
        [ discriminate | reflexivity | reflexivity | reflexivity ]
      | apply (Hend KnownBug false);
        [ discriminate | reflexivity | reflexivity | reflexivity ]
      | apply (Hend FailedDiff false);
        [ discriminate | reflexivity | reflexivity | reflexivity ] ].
Qed.

(** X4.  When [run_tcase] returns, it returns True exactly when it has
    put the case on the passed list or on the list of known bugs. *)
Theorem run_tcase_returns_tolerated g tc w st b :
  snd (run_tcase g tc w st) = Returns b ->
  b = classified g tc w Passed || classified g tc w KnownBug.
Proof.
  rewrite (framed_run_tcase g tc w st). cbn [snd]. unfold classified.
  destruct (run_tcase g tc w initial) as [st' e] eqn:Hrun. cbn [fst snd].
  intros ->.
  pose proof (run_tcase_gate_cases g tc w initial) as H.
  destruct (first_failing g tc w) as [gate | ] eqn:Hff.
  - destruct H as (tr & Hrun' & _). rewrite Hrun' in Hrun.
    injection Hrun as <- <-. now destruct gate.
  - clear H. apply first_failing_none in Hff.
    rewrite run_tcase_passed in Hrun by exact Hff. unfold bind in Hrun.
    destruct (subprocess_run_starts (timeout_value g) (subject w)
                (mkState (lists initial) (trace initial ++ gate_trace w)))
      as [e He].
    rewrite He in Hrun. destruct e as [done | e | ]; try discriminate.
    apply after_run_verdict in Hrun.
    destruct Hrun as (o & fixed & Ho & -> & -> & _).
    destruct o, fixed; try reflexivity; now contradiction Ho.
Qed.

Lemma run_tcase_returns_tolerated_witness :
  true = classified sample_globals (sample_case "quux" "d") sample_world Passed
         || classified sample_globals (sample_case "quux" "d") sample_world
              KnownBug.
Proof.
  apply (run_tcase_returns_tolerated sample_globals (sample_case "quux" "d")
           sample_world initial true).
  vm_compute. reflexivity.
Defined.

Lemma after_run_raises_lists g tc w done st e :
  snd (after_run g tc w done st) = Raises e ->
  lists (fst (after_run g tc w done st)) =
    if WITH_VALGRIND g && Ascii.eqb (tclass tc) "v"
    then add_to Fixed (case_id tc) (lists st) else lists st.
Proof.
  intro H. destruct (after_run_raises _ _ _ _ _ _ H) as (-> & Hexp & _).
  revert H. unfold after_run. bind_steps. cbn [Z.eqb negb].
  rewrite Hexp. cbn [negb].
  destruct (WITH_VALGRIND g && Ascii.eqb (tclass tc) "v"); bind_steps;
    rewrite bind_framed by auto with framed;
    (destruct (snd (normalize tc w initial)) as [filtered | e1 | ];
     cbn [fst snd];
     [ unfold compare; destruct (filecmp w filtered); bind_steps;
       [ cbn [Z.eqb] | destruct (diff w filtered =? 0)%Z ]; bind_steps;
       try destruct (Ascii.eqb (tclass tc) "b" || _);
       try destruct (Ascii.eqb (tclass tc) "b");
       bind_steps; intro H; discriminate H
     | intros _; now rewrite lists_after_normalize
     | intro H; discriminate H ]).
Qed.

Lemma unfinished_lists g tc w st :
  match snd (run_tcase g tc w st) with
  | Returns _ => True
  | Raises _ =>
      lists (fst (run_tcase g tc w st)) =
        if WITH_VALGRIND g && Ascii.eqb (tclass tc) "v"
        then add_to Fixed (case_id tc) (lists st) else lists st
  | Hangs => lists (fst (run_tcase g tc w st)) = lists st
  end.
Proof.
  pose proof (run_tcase_gate_cases g tc w st) as H.
  destruct (first_failing g tc w) as [gate | ] eqn:Hff.
  { destruct H as (tr & -> & _). exact I. }
  clear H. apply first_failing_none in Hff.
  rewrite run_tcase_passed by exact Hff. unfold bind at 1 3.
  assert (Hdone : forall done s,
            lists s = lists st ->
            match snd (after_run g tc w done s) with
            | Returns _ => True
            | Raises _ =>
                lists (fst (after_run g tc w done s)) =
                  if WITH_VALGRIND g && Ascii.eqb (tclass tc) "v"
                  then add_to Fixed (case_id tc) (lists st) else lists st
            | Hangs => lists (fst (after_run g tc w done s)) = lists st
            end).
  { intros done s Hs.
    destruct (snd (after_run g tc w done s)) as [b | e | ] eqn:Hend;
      [ exact I | | ].
    - now rewrite (after_run_raises_lists _ _ _ _ _ _ Hend), Hs.
    - now apply never_hangs_after_run in Hend. }
  unfold subprocess_run. rewrite bind_emit. unfold ret, hang.
  destruct (timeout_value g) as [secs | ];
    destruct (subject w) as [ms rc | ];
    try destruct (1000 * secs <? ms)%Z;
    try (apply Hdone; reflexivity).
  reflexivity.
Qed.

(** A case whose run raises, whatever the state it starts from: the
    lists keep no other trace of it than, with valgrind and class v, an
    entry on the Fixed list, and a run of this case alone exits with 0. *)
Lemma raising_run g tc w st e :
  (forall st1, snd (run_tcase g tc w st1) = Raises e) ->
  lists (fst (run_tcase g tc w st)) =
    (if WITH_VALGRIND g && Ascii.eqb (tclass tc) "v"
     then add_to Fixed (case_id tc) (lists st) else lists st)
  /\ action_run g [(tc, w)] = Returns 0%Z.
Proof.
  intro Hr. split.
  - pose proof (unfinished_lists g tc w st) as H. now rewrite Hr in H.
  - pose proof (unfinished_lists g tc w initial) as H.
    specialize (Hr initial). rewrite Hr in H.
    unfold action_run. cbn [run_cases].
    destruct (run_tcase g tc w initial) as [st' r]. cbn [fst snd] in *.
    subst r. unfold ret. f_equal. rewrite H.
    now destruct (WITH_VALGRIND g && Ascii.eqb (tclass tc) "v").
Qed.

(** X2.  A case that passes the gates, whose subject exits with 0 within
    the deadline, that has an expected file and whose raw output holds
    eight hexadecimal digits in a row, makes [run_tcase] raise the
    IndexError of [splitlines()[0]] when the subject prints nothing for
    one of the [--_anonhash] queries.  The lists keep no trace of the
    case, but for an entry on the Fixed list with valgrind and class v,
    and a run of this case alone exits with 0. *)
Theorem unanswered_hash_raises g tc w st ms :
  gates_pass g tc w = true ->
  subject w = Exits ms 0 ->
  deadline_exceeded g w = false ->
  isfile_fexpected w = true ->
  is_anon_normalize_needed (List.concat (rawout w)) = true ->
  (exists p, In p (anon_queries (t (finput tc)) (map t (extra_inputs tc)))
             /\ anonhash w p = []) ->
  snd (run_tcase g tc w st) = Raises "IndexError"%string
  /\ lists (fst (run_tcase g tc w st)) =
       (if WITH_VALGRIND g && Ascii.eqb (tclass tc) "v"
        then add_to Fixed (case_id tc) (lists st) else lists st)
  /\ action_run g [(tc, w)] = Returns 0%Z.
Proof.
  intros Hpass Hsub Hdead Hexp Hneed Hun.
  assert (Hr : forall st1,
            snd (run_tcase g tc w st1) = Raises "IndexError"%string).
  { intro st1. apply (normalize_raises_run g tc w st1 ms); try assumption.
    intro st2. now apply normalize_unanswered. }
  split; [ apply Hr | exact (raising_run g tc w st _ Hr) ].
Qed.

Lemma unanswered_hash_raises_witness :
  snd (run_tcase sample_globals (sample_case "quux" "d")
         (hashing_world (fun _ => [])) initial) = Raises "IndexError"%string
  /\ lists (fst (run_tcase sample_globals (sample_case "quux" "d")
                   (hashing_world (fun _ => [])) initial)) =
       (if WITH_VALGRIND sample_globals
           && Ascii.eqb (tclass (sample_case "quux" "d")) "v"
        then add_to Fixed (case_id (sample_case "quux" "d")) (lists initial)
        else lists initial)
  /\ action_run sample_globals
       [(sample_case "quux" "d", hashing_world (fun _ => []))] = Returns 0%Z.
Proof.
  apply (unanswered_hash_raises sample_globals (sample_case "quux" "d")
           (hashing_world (fun _ => [])) initial 10); try reflexivity.
  exists (t "Units/case/input.c"). split; [ now left | reflexivity ].
Defined.

(** X3.  When the subject prints something for each of its queries,
    [anon_normalize_sub], with [internal] true, returns one pair for each
    input, in the order of the inputs: the first line printed for the
    input and the first line printed for its path under [./Units].  It
    has started the subject twice for each input, and has touched no
    list. *)
Theorem anon_normalize_sub_pairs w input_actual args st :
  (forall p, In p (anon_queries input_actual args) -> anonhash w p <> []) ->
  anon_normalize_sub w input_actual args st =
    (mkState (lists st)
       (trace st
        ++ map (fun p => EvRun (CAnonhash p))
             (anon_queries input_actual args)),
     Returns (hash_pairs w (input_actual :: args))).
Proof. exact (anon_normalize_sub_answered w args input_actual st). Qed.

Lemma anon_normalize_sub_pairs_witness :
  anon_normalize_sub (hashing_world (fun p => [p; t "more"]))
    (t "a/Units/x.c") [t "y.c"] initial =
    (mkState (lists initial)
       (trace initial
        ++ map (fun p => EvRun (CAnonhash p))
             (anon_queries (t "a/Units/x.c") [t "y.c"])),
     Returns (hash_pairs (hashing_world (fun p => [p; t "more"]))
                [t "a/Units/x.c"; t "y.c"])).
Proof.
  apply (anon_normalize_sub_pairs (hashing_world (fun p => [p; t "more"]))
           (t "a/Units/x.c") [t "y.c"] initial).
  intros p _. discriminate.
Defined.

(** X5.  With the internal filter, a case that reaches the normaliser
    as in X2, with an answer to each query, makes [run_tcase] raise
    [re.error] when the first hash of a pair is not a plain text and
    [re.compile] refuses it.  The lists keep no trace of the case, but
    for an entry on the Fixed list with valgrind and class v, and a run
    of this case alone exits with 0. *)
Theorem bad_hash_pattern_raises g tc w st ms :
  gates_pass g tc w = true ->
  subject w = Exits ms 0 ->
  deadline_exceeded g w = false ->
  isfile_fexpected w = true ->
  which_ffilter w = false ->
  is_anon_normalize_needed (List.concat (rawout w)) = true ->
  (forall p, In p (anon_queries (t (finput tc)) (map t (extra_inputs tc))) ->
             anonhash w p <> []) ->
  (exists p, In p (hash_pairs w (inputs tc))
             /\ plain_pattern (fst p) = false
             /\ compiles (library w) (fst p) = false) ->
  snd (run_tcase g tc w st) = Raises "re.error"%string
  /\ lists (fst (run_tcase g tc w st)) =
       (if WITH_VALGRIND g && Ascii.eqb (tclass tc) "v"
        then add_to Fixed (case_id tc) (lists st) else lists st)
  /\ action_run g [(tc, w)] = Returns 0%Z.
Proof.
  intros Hpass Hsub Hdead Hexp Hint Hneed Hall Hbad.
  assert (Hr : forall st1,
            snd (run_tcase g tc w st1) = Raises "re.error"%string).
  { intro st1. apply (normalize_raises_run g tc w st1 ms); try assumption.
    intro st2. now apply normalize_bad_pattern. }
  split; [ apply Hr | exact (raising_run g tc w st _ Hr) ].
Qed.

Lemma bad_hash_pattern_raises_witness :
  snd (run_tcase sample_globals (sample_case "quux" "d")
         (hashing_world (fun _ => [t "("])) initial) = Raises "re.error"%string
  /\ lists (fst (run_tcase sample_globals (sample_case "quux" "d")
                   (hashing_world (fun _ => [t "("])) initial)) =
       (if WITH_VALGRIND sample_globals
           && Ascii.eqb (tclass (sample_case "quux" "d")) "v"
        then add_to Fixed (case_id (sample_case "quux" "d")) (lists initial)
        else lists initial)
  /\ action_run sample_globals
       [(sample_case "quux" "d", hashing_world (fun _ => [t "("]))]
     = Returns 0%Z.
Proof.
  apply (bad_hash_pattern_raises sample_globals (sample_case "quux" "d")
           (hashing_world (fun _ => [t "("])) initial 10); try reflexivity.
  - intros p _. discriminate.
  - exists (t "(", t "("). repeat split. now left.
Defined.

(** ** What is compared, and when *)

Lemma is_comparison_gate w : existsb is_comparison (gate_trace w) = false.
Proof.
  unfold gate_trace, probe_trace.
  now destruct (isfile_fargs w), (flanguages w).
Qed.

(** X6.  A case that passes the gates and whose subject exits with 0
    within the deadline, in a directory without any expected file, is
    passed without any comparison: no [--_anonhash] query, no filter and
    no diff is run.  It is also fixed when its class is b or i, or v under
    valgrind. *)
Theorem no_expected_file_passes g tc w st ms :
  gates_pass g tc w = true ->
  subject w = Exits ms 0 ->
  deadline_exceeded g w = false ->
  isfile_fexpected w = false ->
  exists tr,
    run_tcase g tc w st =
      (mkState
         (add_to Passed (case_id tc)
            (if (WITH_VALGRIND g && Ascii.eqb (tclass tc) "v")
                || Ascii.eqb (tclass tc) "b" || Ascii.eqb (tclass tc) "i"
             then add_to Fixed (case_id tc) (lists st) else lists st))
         (trace st ++ tr), Returns true)
    /\ existsb is_comparison tr = false
    /\ filter is_result tr =
         [EvResult ok (message tc w) false
            [(dq ++ "expected.tags*" ++ dq ++ " not found")%string]].
Proof.
  intros Hpass Hsub Hdead Hexp.
  rewrite (run_tcase_finished g tc w st ms 0) by assumption.
  unfold after_run. bind_steps. cbn [Z.eqb negb]. rewrite Hexp. cbn [negb].
  destruct (Ascii.eqb (tclass tc) "v") eqn:Hv.
  - apply Ascii.eqb_eq in Hv. rewrite Hv. cbn [Ascii.eqb Bool.eqb orb andb].
    rewrite andb_true_r, orb_false_r.
    destruct (WITH_VALGRIND g); bind_steps; unfold ret;
      (eexists; split; [ rewrite <- ?app_assoc; reflexivity | ]);
      rewrite !existsb_app, !filter_app, is_comparison_gate;
      unfold gate_trace, probe_trace;
      destruct (isfile_fargs w), (flanguages w); split; reflexivity.
  - rewrite andb_false_r. cbn [orb].
    destruct (Ascii.eqb (tclass tc) "b" || Ascii.eqb (tclass tc) "i");
      bind_steps; unfold ret;
      (eexists; split; [ rewrite <- ?app_assoc; reflexivity | ]);
      rewrite !existsb_app, !filter_app, is_comparison_gate;
      unfold gate_trace, probe_trace;
      destruct (isfile_fargs w), (flanguages w); split; reflexivity.
Qed.

Lemma gate_failure_quiet g tc w st gate :
  first_failing g tc w = Some gate ->
  exists tr,
    trace (fst (run_tcase g tc w st)) = trace st ++ tr
    /\ existsb is_comparison tr = false
    /\ forall bundled kept,
         fold_left (leave bundled) tr kept =
           match gate_outcome gate with
           | Some o => (fst bundled, result_kept o || snd bundled)
           | None => kept
           end.
Proof.
  intro Hff. unfold first_failing, gate_order in Hff. cbn [find] in Hff.
  destruct (gate_holds g tc w GateUnit) eqn:Hu; cbn [negb] in Hff.
  2:{ injection Hff as <-. exists []. cbn [gate_holds] in *.
      unfold run_tcase. rewrite Hu. cbn [negb]. unfold ret.
      rewrite app_nil_r. auto. }
  destruct (gate_holds g tc w GateFeature) eqn:Hf; cbn [negb] in Hff.
  2:{ injection Hff as <-. cbn [gate_holds] in *.
      unfold run_tcase. rewrite Hu. cbn [negb].
      destruct (check_features g (output_feature w) (ffeatures w))
        as [tmp feat].
      cbn [fst] in Hf. subst tmp. cbn [negb].
      destruct (isfile_fargs w); run_steps;
        destruct feat as [ | [[] [] [] [] [] [] [] []] rest ]; run_steps;
        (eexists; split;
         [ rewrite <- ?app_assoc; reflexivity
         | split; [ reflexivity | intros; reflexivity ] ]). }
  destruct (gate_holds g tc w GateLanguage) eqn:Hl; cbn [negb] in Hff.
  2:{ injection Hff as <-. cbn [gate_holds] in *.
      unfold run_tcase. rewrite Hu. cbn [negb].
      destruct (check_features g (output_feature w) (ffeatures w))
        as [tmp feat].
      cbn [fst] in Hf. subst tmp. cbn [negb]. unfold check_languages.
      destruct (flanguages w) as [lines | ]; [ | discriminate ].
      destruct (check_languages_loop (list_languages w) lines)
        as [tmp lang] eqn:Hloop.
      cbn [fst] in Hl. subst tmp.
      destruct (isfile_fargs w); run_steps; rewrite ?Hloop; cbn [negb];
        run_steps;
        (eexists; split;
         [ rewrite <- ?app_assoc; reflexivity
         | split; [ reflexivity | intros; reflexivity ] ]). }
  destruct (gate_holds g tc w GateInfiniteLoop) eqn:Hi; cbn [negb] in Hff.
  2:{ injection Hff as <-. cbn [gate_holds] in *.
      apply negb_false_iff in Hi.
      unfold run_tcase. rewrite Hu. cbn [negb].
      destruct (check_features g (output_feature w) (ffeatures w))
        as [tmp feat].
      cbn [fst] in Hf. subst tmp. cbn [negb]. unfold check_languages.
      destruct (flanguages w) as [lines | ];
        [ destruct (check_languages_loop (list_languages w) lines)
            as [tmp lang] eqn:Hloop; cbn [fst] in Hl; subst tmp | ];
        destruct (isfile_fargs w); run_steps; rewrite ?Hloop, ?Hi;
        cbn [negb]; rewrite ?Hi; run_steps;
        (eexists; split;
         [ rewrite <- ?app_assoc; reflexivity
         | split; [ reflexivity | intros; reflexivity ] ]). }
  destruct (gate_holds g tc w GateBroken) eqn:Hb; cbn [negb] in Hff.
  2:{ injection Hff as <-. cbn [gate_holds] in *.
      apply negb_true_iff in Hi. apply negb_false_iff in Hb.
      apply andb_true_iff in Hb. destruct Hb as [Hargs Hrc].
      unfold run_tcase. rewrite Hu, Hargs. cbn [negb].
      destruct (check_features g (output_feature w) (ffeatures w))
        as [tmp feat].
      cbn [fst] in Hf. subst tmp. cbn [negb]. unfold check_languages.
      destruct (flanguages w) as [lines | ];
        [ destruct (check_languages_loop (list_languages w) lines)
            as [tmp lang] eqn:Hloop; cbn [fst] in Hl; subst tmp | ];
        run_steps; rewrite ?Hloop, ?Hi, ?Hrc;
        cbn [negb]; rewrite ?Hi; run_steps;
        (eexists; split;
         [ rewrite <- ?app_assoc; reflexivity
         | split; [ reflexivity | intros; reflexivity ] ]). }
  discriminate.
Qed.

Lemma after_run_quiet g tc w done :
  existsb is_comparison (trace (fst (after_run g tc w done initial))) = true ->
  done = Finished 0 /\ isfile_fexpected w = true.
Proof.
  unfold after_run. destruct done as [rc | ].
  2:{ bind_steps. rewrite shrink_skip. intro H; discriminate H. }
  bind_steps. destruct (rc =? 0)%Z eqn:Hrc; cbn [negb].
  2:{ destruct (WITH_VALGRIND g && (rc =? _VALGRIND_EXIT)%Z
                && negb (Ascii.eqb (tclass tc) "v"));
        [ | destruct (Ascii.eqb (tclass tc) "b") ];
        bind_steps; rewrite ?shrink_skip; intro H; discriminate H. }
  apply Z.eqb_eq in Hrc. subst rc.
  destruct (isfile_fexpected w); [ now split | ]. cbn [negb].
  destruct (WITH_VALGRIND g && Ascii.eqb (tclass tc) "v"); bind_steps;
    destruct (Ascii.eqb (tclass tc) "b" || Ascii.eqb (tclass tc) "i");
    bind_steps; intro H; discriminate H.
Qed.

(** X7.  [run_tcase] asks for a hash, runs the filter of the case or
    runs diff only when the case has passed the gates, the subject has
    exited with 0 within the deadline, and an expected file exists. *)
Theorem comparison_needs_clean_exit g tc w :
  existsb is_comparison (trace (fst (run_tcase g tc w initial))) = true ->
  gates_pass g tc w = true
  /\ (exists ms, subject w = Exits ms 0)
  /\ deadline_exceeded g w = false
  /\ isfile_fexpected w = true.
Proof.
  intro H. destruct (first_failing g tc w) as [gate | ] eqn:Hff.
  { destruct (gate_failure_quiet g tc w initial gate Hff)
      as (tr & Htr & Hq & _).
    rewrite Htr in H. cbn in H. congruence. }
  apply first_failing_none in Hff. split; [ exact Hff | ].
  assert (Hdone : forall done,
            existsb is_comparison
              (trace
                 (fst (after_run g tc w done
                         (mkState (lists initial)
                            (trace initial ++ gate_trace w
                             ++ [EvRun (CTagging (timeout_value g))])))))
            = true ->
            done = Finished 0 /\ isfile_fexpected w = true).
  { intros done Hd. apply (after_run_quiet g tc w done).
    rewrite (trace_framed _ _ (framed_after_run g tc w done)) in Hd.
    cbn [trace initial app] in Hd.
    rewrite !existsb_app, is_comparison_gate in Hd. exact Hd. }
  destruct (deadline_exceeded g w) eqn:Hdead.
  { rewrite run_tcase_timed_out in H by assumption.
    apply Hdone in H. destruct H as [H _]. discriminate H. }
  destruct (subject w) as [ms rc | ] eqn:Hsub.
  - rewrite (run_tcase_finished g tc w initial ms rc) in H by assumption.
    apply Hdone in H. destruct H as [H Hexp]. injection H as ->.
    repeat split; [ now exists ms | exact Hexp ].
  - exfalso. rewrite run_tcase_passed in H by exact Hff.
    unfold bind, subprocess_run, deadline_exceeded in *.
    rewrite Hsub in *.
    destruct (timeout_value g); [ discriminate Hdead | ].
    cbn in H. rewrite existsb_app, is_comparison_gate in H. discriminate H.
Qed.

Lemma comparison_needs_clean_exit_witness :
  gates_pass sample_globals (sample_case "quux" "d")
    (hashing_world (fun p => [p])) = true
  /\ isfile_fexpected (hashing_world (fun p => [p])) = true.
Proof.
  destruct (comparison_needs_clean_exit sample_globals
              (sample_case "quux" "d") (hashing_world (fun p => [p])))
    as (H1 & _ & _ & H4); [ vm_compute; reflexivity | ].
  split; assumption.
Defined.

Lemma no_expected_file_passes_witness :
  exists tr,
    run_tcase sample_globals (sample_case "quux" "b") bare_world initial =
      (mkState
         (add_to Passed "ROOT/quux" (add_to Fixed "ROOT/quux" no_results))
         (trace initial ++ tr), Returns true)
    /\ existsb is_comparison tr = false
    /\ filter is_result tr =
         [EvResult ok (message (sample_case "quux" "b") bare_world) false
            [(dq ++ "expected.tags*" ++ dq ++ " not found")%string]].
Proof.
  apply (no_expected_file_passes sample_globals (sample_case "quux" "b")
           bare_world initial 10); reflexivity.
Defined.

(** ** The whole run *)

Lemma run_cases_ending g cases :
  forall st,
    snd (run_cases g cases st) =
      if existsb (hangs_case g) cases then Hangs else Returns tt.
Proof.
  induction cases as [ | [tc w] cases IH ]; intro st; cbn [run_cases existsb].
  - reflexivity.
  - unfold hangs_case at 1. cbn [fst snd].
    rewrite (framed_run_tcase g tc w st).
    destruct (snd (run_tcase g tc w initial)); cbn [orb snd]; auto.
Qed.

Lemma action_run_closed g cases :
  action_run g cases =
    if existsb (hangs_case g) cases then Hangs
    else Returns (if existsb (fails_run g) cases then 1%Z else 0%Z).
Proof.
  unfold action_run.
  pose proof (run_cases_ending g cases initial) as Hend.
  destruct (run_cases g cases initial) as [st [[] | e | ]] eqn:Hrun;
    cbn [snd] in Hend;
    destruct (existsb (hangs_case g) cases); try discriminate Hend;
    try reflexivity.
  f_equal. unfold exit_status.
  pose proof (run_cases_collection g FailedStatus cases _ _ Hrun) as H1.
  pose proof (run_cases_collection g FailedDiff cases _ _ Hrun) as H2.
  pose proof (run_cases_collection g TimedOut cases _ _ Hrun) as H3.
  pose proof (run_cases_collection g BrokenPrerequisite cases _ _ Hrun) as H4.
  cbn in H1, H2, H3, H4.
  rewrite H1, H2, H3, H4, !existsb_orb. reflexivity.
Qed.

Lemma existsb_Permutation {A} (f : A -> bool) l l' :
  Permutation l l' -> existsb f l = existsb f l'.
Proof.
  induction 1 as [ | x l l' _ IH | x y l | l l' l'' _ IH1 _ IH2 ];
    cbn [existsb].
  - reflexivity.
  - now rewrite IH.
  - now destruct (f x), (f y).
  - now rewrite IH1.
Qed.

(** X8.  The result of [action_run] does not depend on the order in
    which the cases are run: the same cases in another order give the
    same exit status, or fail to end alike. *)
Theorem action_run_order g cases cases' :
  Permutation cases cases' -> action_run g cases = action_run g cases'.
Proof.
  intro H. rewrite !action_run_closed.
  now rewrite (existsb_Permutation (hangs_case g) _ _ H),
    (existsb_Permutation (fails_run g) _ _ H).
Qed.

Lemma action_run_order_witness :
  action_run sample_globals
    [(sample_case "a" "d", sample_world); (sample_case "b" "b", bare_world)]
  = action_run sample_globals
      [(sample_case "b" "b", bare_world); (sample_case "a" "d", sample_world)].
Proof.
  apply (action_run_order sample_globals
           [(sample_case "a" "d", sample_world);
            (sample_case "b" "b", bare_world)]
           [(sample_case "b" "b", bare_world);
            (sample_case "a" "d", sample_world)]).
  apply perm_swap.
Defined.

(** X9.  Without a timeout, one case that passes the gates and whose
    subject never exits keeps the whole run from ending: [action_run]
    returns no exit status, whatever the other cases are. *)
Theorem action_run_blocked g cases tc w :
  WITH_TIMEOUT g = 0%Z ->
  In (tc, w) cases ->
  gates_pass g tc w = true ->
  subject w = Loops ->
  forall status, action_run g cases <> Returns status.
Proof.
  intros H0 Hin Hpass Hloop status. rewrite action_run_closed.
  assert (Hh : existsb (hangs_case g) cases = true).
  { apply existsb_exists. exists (tc, w). split; [ exact Hin | ].
    unfold hangs_case. cbn [fst snd].
    now rewrite (blocked g tc w initial Hpass H0 Hloop). }
  rewrite Hh. discriminate.
Qed.

Lemma action_run_blocked_witness :
  action_run sample_globals
    [(sample_case "a" "d", sample_world);
     (sample_case "b" "d", with_subject sample_world Loops)]
  <> Returns 0%Z.
Proof.
  apply (action_run_blocked sample_globals
           [(sample_case "a" "d", sample_world);
            (sample_case "b" "d", with_subject sample_world Loops)]
           (sample_case "b" "d") (with_subject sample_world Loops));
    try reflexivity.
  right. now left.
Defined.

(** ** The unit filter *)

Lemma unit_re_sound s c :
  rmatch unit_re s = Some c ->
  exists i s2,
    1 <= i /\ i <= run dot s /\ skipn i s = "/"%char :: s2
    /\ 1 <= run dot s2
    /\ group 1 c = firstn i s /\ group 2 c = firstn (run dot s2) s2.
Proof.
  unfold rmatch. rewrite match_here_accept.
  destruct (m unit_re 0 s [] accept) as [[e c'] | ] eqn:H; [ | discriminate ].
  intro Hc. injection Hc as ->. unfold unit_re in H.
  rewrite m_Seq, m_Group in H. apply plus_pick in H.
  destruct H as (i & Hi1 & Hi2 & HK & _). cbv beta in HK.
  rewrite m_Seq, m_Chr in HK.
  destruct (skipn i s) as [ | a s2 ] eqn:Hskip; [ discriminate | ].
  destruct (only "/" a) eqn:Ha; [ | discriminate ].
  apply only_eq in Ha. subst a. rewrite m_Group in HK.
  apply plus_pick in HK. destruct HK as (j & Hj1 & Hj2 & Hacc & Hmax).
  assert (Hj : j = run dot s2).
  { destruct (Nat.eq_dec j (run dot s2)) as [ | Hne ]; [ assumption | ].
    specialize (Hmax (run dot s2)). unfold accept in Hmax.
    assert (Hlt : j < run dot s2) by lia.
    specialize (Hmax Hlt (le_n _)). discriminate Hmax. }
  subst j. unfold accept in Hacc. injection Hacc as _ <-.
  exists i, s2. cbn [group Nat.eqb].
  repeat split; auto; f_equal; lia.
Qed.

Lemma forallb_run_all p s : forallb p s = true -> run p s = List.length s.
Proof.
  intro H. pose proof (forallb_run p s [] H) as Hle.
  rewrite app_nil_r in Hle. pose proof (run_le_length p s). lia.
Qed.

Lemma unit_re_complete C N :
  C <> [] -> N <> [] ->
  forallb dot C = true -> forallb dot N = true ->
  forallb (except "/") N = true ->
  exists c,
    rmatch unit_re (C ++ "/"%char :: N) = Some c
    /\ group 1 c = C /\ group 2 c = N.
Proof.
  intros HC HN HdC HdN HsN.
  set (s := C ++ "/"%char :: N).
  set (K := fun (pos' : nat) (s' : text) (c' : caps) =>
              m (Seq (Chr (only "/")) (Group 2 (Plus (Chr dot)))) pos' s'
                ((1, firstn (pos' - 0) s) :: c') accept).
  assert (Hrun : run dot s = List.length s).
  { apply forallb_run_all. unfold s. rewrite forallb_app. cbn [forallb].
    now rewrite HdC, HdN. }
  assert (HlenC : 1 <= List.length C) by (destruct C; cbn; [ easy | lia ]).
  assert (HlenN : 1 <= List.length N) by (destruct N; cbn; [ easy | lia ]).
  assert (Hlen : List.length s = List.length C + S (List.length N)).
  { unfold s. now rewrite length_app. }
  assert (Hat : K (0 + List.length C) (skipn (List.length C) s) []
                = Some (S (List.length C) + List.length N, [(2, N); (1, C)])).
  { unfold K, s. rewrite skipn_length_app, m_Seq, m_Chr.
    cbn [only Ascii.eqb Bool.eqb]. rewrite m_Group.
    rewrite (plus_top dot _ N _ _
               (S (List.length C) + List.length N, [(2, N); (1, C)])).
    - reflexivity.
    - rewrite forallb_run_all by exact HdN. exact HlenN.
    - rewrite forallb_run_all by exact HdN. unfold accept.
      cbn [Nat.add]. f_equal. f_equal. f_equal.
      + f_equal. replace (S (List.length C + List.length N)
                          - S (List.length C)) with (List.length N) by lia.
        now rewrite firstn_all.
      + f_equal. f_equal. rewrite Nat.sub_0_r. apply firstn_length_app. }
  assert (Hm : m unit_re 0 s [] accept
               = Some (S (List.length C) + List.length N, [(2, N); (1, C)])).
  { unfold unit_re. rewrite m_Seq, m_Group. fold K.
    destruct (m (Plus (Chr dot)) 0 s [] K) as [x | ] eqn:Hx.
    - apply plus_pick in Hx. destruct Hx as (i & Hi1 & Hi2 & HK & Hmax).
      destruct (Nat.lt_trichotomy i (List.length C)) as [Hlt | [-> | Hgt]].
      + rewrite (Hmax (List.length C)) in Hat; [ discriminate | lia | lia ].
      + now rewrite <- HK, Hat.
      + exfalso. unfold K in HK. rewrite m_Seq, m_Chr in HK.
        destruct (skipn i s) as [ | a s2 ] eqn:Hskip; [ discriminate | ].
        destruct (only "/" a) eqn:Ha; [ | discriminate ].
        apply only_eq in Ha. subst a.
        assert (Hin : In "/"%char N).
        { replace i with (S (i - S (List.length C)) + List.length C)
            in Hskip by lia.
          unfold s in Hskip. rewrite <- skipn_skipn in Hskip.
          rewrite skipn_length_app in Hskip. cbn [skipn] in Hskip.
          assert (Hin' : In "/"%char (skipn (i - S (List.length C)) N))
            by (rewrite Hskip; now left).
          revert Hin'. generalize (i - S (List.length C)). intro n.
          rewrite <- (firstn_skipn n N) at 2. intro. apply in_or_app.
          now right. }
        rewrite forallb_forall in HsN. apply HsN in Hin. discriminate Hin.
    - apply plus_fail with (i := List.length C) in Hx; [ | lia | lia ].
      congruence. }
  exists [(2, N); (1, C)]. unfold rmatch. rewrite match_here_accept, Hm.
  repeat split.
Qed.

Lemma t_app (a b : string) : t (a ++ b) = t a ++ t b.
Proof.
  unfold t. induction a as [ | x a IH ]; cbn; [ reflexivity | now f_equal ].
Qed.

Lemma t_inj a b : t a = t b -> a = b.
Proof.
  unfold t. intro H. rewrite <- (string_of_list_ascii_of_string a),
    <- (string_of_list_ascii_of_string b). now f_equal.
Qed.

Lemma has_false p s : has p s = false -> forallb (except p) (t s) = true.
Proof.
  unfold has, except. induction (t s) as [ | a l IH ]; cbn;
    [ reflexivity | ].
  destruct (Ascii.eqb p a); cbn; [ discriminate | exact IH ].
Qed.

Lemma check_units_loop_selects units name category :
  check_units_loop units name category =
    existsb (fun u => selects u name category) units.
Proof.
  induction units as [ | u units IH ]; cbn [check_units_loop existsb];
    [ reflexivity | ].
  unfold selects at 1. rewrite IH.
  destruct (rmatch unit_re (t u)) as [c | ].
  - now destruct (String.eqb (s_of (group 1 c)) category
                  && String.eqb (s_of (group 2 c)) name).
  - now destruct (String.eqb u name).
Qed.

Lemma selects_inv u name category :
  has NL u = false -> has NL name = false -> has NL category = false ->
  has "/" name = false -> name <> EmptyString -> category <> EmptyString ->
  selects u name category = true
  <-> u = name \/ u = (category ++ "/" ++ name)%string.
Proof.
  intros Hu Hn Hc Hs Hne Hce.
  apply has_false in Hu, Hn, Hc, Hs. fold dot in Hu, Hn, Hc.
  assert (Hmatch :
    exists c, rmatch unit_re (t (category ++ "/" ++ name)%string) = Some c
              /\ group 1 c = t category /\ group 2 c = t name).
  { rewrite !t_app. apply unit_re_complete; try assumption.
    - destruct category; [ now contradiction Hce | discriminate ].
    - destruct name; [ now contradiction Hne | discriminate ]. }
  unfold selects. split.
  - destruct (rmatch unit_re (t u)) as [c | ] eqn:Hm.
    + intro H. apply andb_true_iff in H. destruct H as [H1 H2].
      apply String.eqb_eq in H1, H2. right.
      apply unit_re_sound in Hm.
      destruct Hm as (i & s2 & Hi1 & Hi2 & Hskip & Hj & Hg1 & Hg2).
      apply t_inj. rewrite !t_app. cbn [t list_ascii_of_string app].
      rewrite <- H1, <- H2. unfold s_of, t.
      rewrite !list_ascii_of_string_of_list_ascii, Hg1, Hg2.
      fold (t u). rewrite <- (firstn_skipn i (t u)) at 1. f_equal.
      rewrite Hskip. f_equal.
      rewrite forallb_run_all, firstn_all; [ reflexivity | ].
      rewrite <- (firstn_skipn i (t u)), Hskip, forallb_app in Hu.
      apply andb_true_iff in Hu. destruct Hu as [_ Hu]. cbn [forallb] in Hu.
      now apply andb_true_iff in Hu.
    + intro H. apply String.eqb_eq in H. now left.
  - intros [-> | ->].
    + destruct (rmatch unit_re (t name)) as [c | ] eqn:Hm;
        [ | apply String.eqb_refl ].
      exfalso. apply unit_re_sound in Hm.
      destruct Hm as (i & s2 & _ & _ & Hskip & _).
      assert (Hin : In "/"%char (t name)).
      { rewrite <- (firstn_skipn i (t name)), Hskip. apply in_or_app.
        right. now left. }
      rewrite forallb_forall in Hs. apply Hs in Hin. discriminate Hin.
    + destruct Hmatch as (c & -> & -> & ->). unfold s_of, t.
      now rewrite !string_of_list_ascii_of_string, !String.eqb_refl.
Qed.

(** X10.  For names without newline, a case name without slash and
    non-empty names: [check_units] lets a case through exactly when no
    unit was asked for, or its name is one of the units, or its category,
    a slash and its name is one of the units. *)
Theorem check_units_selects g name category :
  (forall u, In u (UNITS g) -> has NL u = false) ->
  has NL name = false -> has NL category = false ->
  has "/" name = false -> name <> EmptyString -> category <> EmptyString ->
  check_units g name category = true
  <-> UNITS g = [] \/ In name (UNITS g)
      \/ In (category ++ "/" ++ name)%string (UNITS g).
Proof.
  intros Hu Hn Hc Hs Hne Hce. unfold check_units.
  destruct (UNITS g) as [ | u0 units ] eqn:Hunits; cbn [List.length Nat.eqb].
  { split; auto. }
  rewrite check_units_loop_selects. rewrite existsb_exists. split.
  - intros (u & Hin & Hsel).
    apply selects_inv in Hsel; try assumption; [ | now apply Hu ].
    right. destruct Hsel as [-> | ->]; auto.
  - intros [H | [H | H]]; [ discriminate H | | ].
    + exists name. split; [ exact H | ].
      apply selects_inv; auto.
    + exists (category ++ "/" ++ name)%string. split; [ exact H | ].
      apply selects_inv; auto.
Qed.

Lemma check_units_selects_witness :
  check_units (mkGlobals ["parser-c.r/simple.c"%string] [] 0 false false)
    "simple.c" "parser-c.r" = true.
Proof.
  apply (check_units_selects
           (mkGlobals ["parser-c.r/simple.c"%string] [] 0 false false)
           "simple.c" "parser-c.r");
    try reflexivity; try discriminate.
  - intros u [<- | []]. reflexivity.
  - right. right. now left.
Defined.

(** ** The feature gate and the language gate *)

Lemma mem_In x l : mem x l = true <-> In x l.
Proof.
  unfold mem. rewrite existsb_exists. split.
  - intros (y & Hin & Heq). apply String.eqb_eq in Heq. now subst y.
  - intro Hin. exists x. split; [ exact Hin | apply String.eqb_refl ].
Qed.

Lemma mem_not_In x l : mem x l = false <-> ~ In x l.
Proof.
  rewrite <- mem_In. destruct (mem x l); split; intro H; easy.
Qed.

Lemma check_features_loop_spec g features :
  match check_features_loop g features with
  | (true, x) => x = EmptyString /\ Forall (feature_met g) features
  | (false, x) =>
      exists pre post,
        features = pre ++ x :: post
        /\ Forall (feature_met g) pre /\ ~ feature_met g x
  end.
Proof.
  induction features as [ | expected features IH ]; cbn [check_features_loop].
  - split; [ reflexivity | constructor ].
  - destruct (String.eqb expected EmptyString) eqn:Hempty.
    { apply String.eqb_eq in Hempty. subst expected.
      destruct (check_features_loop g features) as [[] x].
      - destruct IH as [-> IH]. split; [ reflexivity | ].
        constructor; [ now left | exact IH ].
      - destruct IH as (pre & post & -> & Hpre & Hx).
        exists (EmptyString :: pre), post. repeat split; [ | exact Hx ].
        constructor; [ now left | exact Hpre ]. }
    apply String.eqb_neq in Hempty.
    assert (Hbad : ~ feature_met g expected ->
              exists pre post,
                expected :: features = pre ++ expected :: post
                /\ Forall (feature_met g) pre /\ ~ feature_met g expected).
    { intro H. exists [], features. repeat split; [ constructor | exact H ]. }
    destruct expected as [ | a rest ]; [ now contradiction Hempty | ].
    destruct (Ascii.eqb a "!") eqn:Hbang.
    + apply Ascii.eqb_eq in Hbang. subst a.
      assert (Hno : ~ feature_met g (String "!" rest)).
      { intros [H | [H _]]; discriminate H. }
      destruct (mem rest (_FEATURE_LIST g)); cbn [negb]; now apply Hbad.
    + assert (Hneg : negated (String a rest) = false).
      { destruct a as [[] [] [] [] [] [] [] []]; try reflexivity.
        discriminate Hbang. }
      assert (Hsame :
        (match String a rest with
         | String "!" rest0 => mem rest0 (_FEATURE_LIST g)
         | _ => false
         end = false)
        /\ match String a rest with
           | String "!" _ => false
           | _ => mem (String a rest) (_FEATURE_LIST g)
           end = mem (String a rest) (_FEATURE_LIST g)).
      { destruct a as [[] [] [] [] [] [] [] []]; try (split; reflexivity).
        discriminate Hbang. }
      destruct Hsame as [-> ->].
      destruct (mem (String a rest) (_FEATURE_LIST g)) eqn:Hmem; cbn [negb].
      * apply mem_In in Hmem.
        destruct (check_features_loop g features) as [[] x].
        -- destruct IH as [-> IH]. split; [ reflexivity | ].
           constructor; [ right; now split | exact IH ].
        -- destruct IH as (pre & post & -> & Hpre & Hx).
           exists (String a rest :: pre), post. repeat split; [ | exact Hx ].
           constructor; [ right; now split | exact Hpre ].
      * apply mem_not_In in Hmem. apply Hbad.
        intros [H | [_ H]]; [ discriminate H | now apply Hmem ].
Qed.

(** X11.  [check_features] returns True with an empty name when every
    entry it goes through is empty or names, without a leading [!], a
    feature of the subject; otherwise it returns False with the first
    entry that is not so.  An entry with a leading [!] is never met. *)
Theorem check_features_first_unmet g feature ffile :
  match check_features g feature ffile with
  | (true, x) =>
      x = EmptyString
      /\ Forall (feature_met g) (features_asked feature ffile)
  | (false, x) =>
      exists pre post,
        features_asked feature ffile = pre ++ x :: post
        /\ Forall (feature_met g) pre /\ ~ feature_met g x
  end.
Proof. exact (check_features_loop_spec g (features_asked feature ffile)). Qed.

Lemma check_languages_loop_spec langs lines :
  match check_languages_loop langs lines with
  | (true, x) => x = EmptyString /\ Forall (fun e => In e langs) lines
  | (false, x) =>
      exists pre post,
        lines = pre ++ x :: post
        /\ Forall (fun e => In e langs) pre /\ ~ In x langs
  end.
Proof.
  induction lines as [ | expected lines IH ]; cbn [check_languages_loop].
  - split; [ reflexivity | constructor ].
  - destruct (mem expected langs) eqn:Hmem; cbn [negb].
    + apply mem_In in Hmem.
      destruct (check_languages_loop langs lines) as [[] x].
      * destruct IH as [-> IH]. split; [ reflexivity | ].
        now constructor.
      * destruct IH as (pre & post & -> & Hpre & Hx).
        exists (expected :: pre), post. repeat split; [ | exact Hx ].
        now constructor.
    + apply mem_not_In in Hmem. exists [], lines.
      repeat split; [ constructor | exact Hmem ].
Qed.

(** X12.  Without a languages file [check_languages] returns True and
    starts no program.  With one it asks the subject for its languages
    once, and returns True when every line of the file, an empty line
    too, is one of them; otherwise it returns False with the first line
    that is not. *)
Theorem check_languages_first_missing langs lfile st :
  match lfile with
  | None => check_languages langs lfile st = (st, Returns (true, EmptyString))
  | Some lines =>
      exists ok x,
        check_languages langs lfile st =
          (mkState (lists st) (trace st ++ [EvRun CListLanguages]),
           Returns (ok, x))
        /\ if ok : bool
           then x = EmptyString /\ Forall (fun e => In e langs) lines
           else exists pre post,
                  lines = pre ++ x :: post
                  /\ Forall (fun e => In e langs) pre /\ ~ In x langs
  end.
Proof.
  destruct lfile as [lines | ]; [ | reflexivity ].
  pose proof (check_languages_loop_spec langs lines) as H.
  unfold check_languages. rewrite bind_emit. unfold ret.
  destruct (check_languages_loop langs lines) as [ok x].
  exists ok, x. split; [ reflexivity | ]. now destruct ok.
Qed.

(** ** What the basename filters leave of a line *)

Lemma run_component x rest :
  component x -> run path_char (x ++ "/"%char :: rest) = List.length x.
Proof. intros [_ Hx]. now apply run_app_stop. Qed.

Lemma star_joined k :
  accepting k ->
  forall comps tail fuel pos c,
    Forall component comps ->
    starts_component tail = false ->
    List.length (joined comps ++ tail) <= fuel ->
    exists c',
      star_loop component_re k fuel pos (joined comps ++ tail) c
      = Some (pos + List.length (joined comps), c')
      /\ group 1 c' = group 1 c.
Proof.
  intro Hk. induction comps as [ | x comps IH ];
    intros tail fuel pos c Hcomps Htail Hlen.
  - cbn [joined map List.concat app List.length] in *.
    destruct (Hk pos tail c) as (c' & Hc & H1). exists c'.
    rewrite Nat.add_0_r. split; [ | exact H1 ].
    destruct fuel as [ | f ]; cbn [star_loop]; [ exact Hc | ].
    now rewrite (component_miss pos tail c _ Htail).
  - inversion Hcomps as [ | ? ? Hx Hrest ]; subst.
    unfold joined in *. cbn [map List.concat] in *.
    rewrite <- !app_assoc in *. cbn [app] in *.
    fold (joined comps) in *.
    set (s := x ++ "/"%char :: joined comps ++ tail) in *.
    assert (Hrun : run path_char s = List.length x)
      by (apply run_component; exact Hx).
    assert (Hskip : skipn (run path_char s) s
                    = "/"%char :: joined comps ++ tail).
    { rewrite Hrun. apply skipn_length_app. }
    assert (Hn : 1 <= run path_char s).
    { rewrite Hrun. destruct Hx as [Hx _].
      destruct x; [ now contradiction Hx | cbn; lia ]. }
    destruct fuel as [ | f ].
    { unfold s in Hlen. rewrite length_app in Hlen. cbn in Hlen. lia. }
    assert (Hlen' : List.length (joined comps ++ tail) <= f).
    { unfold s in Hlen. rewrite length_app in Hlen. cbn in Hlen. lia. }
    destruct (IH tail f (S (pos + run path_char s))
                ((3, firstn (S (pos + run path_char s) - pos) s) :: c)
                Hrest Htail Hlen')
      as (c' & Hloop & H1).
    exists c'. split; [ | rewrite H1; reflexivity ].
    cbn [star_loop].
    match goal with
    | |- context [m component_re pos s c ?K] =>
        assert (Hhit : m component_re pos s c K
                       = Some (S (pos + run path_char s)
                               + List.length (joined comps), c'))
    end.
    { apply (component_hit pos s c _ (joined comps ++ tail) _ Hn Hskip).
      replace (Nat.ltb pos (S (pos + run path_char s))) with true
        by (symmetry; apply Nat.ltb_lt; lia).
      exact Hloop. }
    rewrite Hhit, Hrun, length_app. cbn [List.length].
    f_equal. f_equal. lia.
Qed.


Lemma dirs_exact pos lead comps tail c :
  lead = [] \/ lead = ["/"%char] ->
  Forall component comps ->
  starts_component tail = false -> starts_slash tail = false ->
  exists c',
    m dirs_re pos (lead ++ joined comps ++ tail) c accept
    = Some (pos + List.length (lead ++ joined comps), c')
    /\ group 1 c' = group 1 c.
Proof.
  intros Hlead Hcomps Htail Hslash.
  unfold dirs_re. rewrite m_Group, m_Seq, m_Opt, m_Chr.
  match goal with
  | |- context [m (Star component_re) _ _ _ ?K] =>
      assert (HK : accepting K)
        by (intros p0 s0 c0; eexists; split; reflexivity);
      set (k := K) in *
  end.
  destruct Hlead as [-> | ->]; cbn [app].
  - assert (Hfirst : match joined comps ++ tail with
                     | a :: _ => only "/" a = false
                     | [] => True
                     end).
    { destruct comps as [ | x comps ].
      - cbn. destruct tail as [ | a tail ]; [ exact I | exact Hslash ].
      - inversion Hcomps as [ | ? ? [Hx Hp] _ ]; subst.
        unfold joined. cbn [map List.concat].
        destruct x as [ | a x ]; [ now contradiction Hx | ]. cbn [app].
        cbn [forallb] in Hp. apply andb_true_iff in Hp.
        destruct Hp as [Hp _]. unfold path_char, both in Hp.
        apply andb_true_iff in Hp. destruct Hp as [Hp _].
        unfold except in Hp. unfold only. now apply negb_true_iff in Hp. }
    destruct (star_joined k HK comps tail (List.length (joined comps ++ tail))
                pos c Hcomps Htail (le_n _)) as (c' & Hloop & H1).
    exists c'. split; [ | exact H1 ]. rewrite m_Star, Hloop.
    destruct (joined comps ++ tail) as [ | a s ]; [ reflexivity | ].
    now rewrite Hfirst.
  - cbn [only Ascii.eqb Bool.eqb].
    destruct (star_joined k HK comps tail (List.length (joined comps ++ tail))
                (S pos) c Hcomps Htail (le_n _)) as (c' & Hloop & H1).
    exists c'. split; [ | exact H1 ]. rewrite m_Star, Hloop.
    cbn [List.length]. f_equal. f_equal. lia.
Qed.

Lemma ctags_exact name lead comps tail :
  name <> [] -> forallb (except TAB) name = true ->
  lead = [] \/ lead = ["/"%char] ->
  Forall component comps ->
  starts_component tail = false -> starts_slash tail = false ->
  exists c,
    match_here ctags_re false 0 (name ++ TAB :: lead ++ joined comps ++ tail)
    = Some (S (List.length name) + List.length (lead ++ joined comps), c)
    /\ group 1 c = name ++ [TAB].
Proof.
  intros Hne Hname Hlead Hcomps Htail Hslash.
  destruct (dirs_exact (S (List.length name)) lead comps tail
              [(1, name ++ [TAB])] Hlead Hcomps Htail Hslash)
    as (c & Hm & H1).
  exists c. split; [ | now rewrite H1 ].
  rewrite match_here_accept, ctags_re_unfold, m_Seq, m_Group, m_Seq.
  cbn [m Nat.eqb]. fold (Plus (Chr (except TAB))).
  set (r := lead ++ joined comps ++ tail) in *.
  assert (Hrun : run (except TAB) (name ++ TAB :: r) = List.length name)
    by (apply run_app_stop; [ exact Hname | reflexivity ]).
  apply plus_top.
  - rewrite Hrun. destruct name; [ congruence | cbn; lia ].
  - rewrite Hrun, skipn_length_app. cbn [Nat.add].
    unfold only. rewrite Ascii.eqb_refl. rewrite Nat.sub_0_r.
    rewrite firstn_S_length_app. exact Hm.
Qed.

Lemma tail_no_component base rest :
  forallb path_char base = true ->
  rest = [] \/ (exists rest', rest = TAB :: rest') ->
  starts_component (base ++ rest) = false
  /\ starts_slash (base ++ rest) = false.
Proof.
  intros Hbase Hrest. split.
  - unfold starts_component.
    destruct Hrest as [-> | (rest' & ->)].
    + rewrite app_nil_r, (forallb_run_all _ _ Hbase), skipn_all.
      apply andb_false_r.
    + rewrite (run_app_stop path_char base TAB rest' Hbase eq_refl).
      rewrite skipn_length_app. apply andb_false_r.
  - destruct base as [ | a base ]; cbn [app starts_slash].
    + destruct Hrest as [-> | (rest' & ->)]; reflexivity.
    + cbn [forallb] in Hbase. apply andb_true_iff in Hbase.
      destruct Hbase as [Ha _]. unfold path_char, both, except in Ha.
      apply andb_true_iff in Ha. destruct Ha as [Ha _].
      apply negb_true_iff in Ha. now rewrite Ascii.eqb_sym.
Qed.

(** X13.  On a line of tags, that is a name, a tab, a path and then the
    end of the line or a tab and more, the ctags filter removes the
    directories of the path, an absolute path included, and keeps
    everything else: the name, the last component of the path and what
    follows it. *)
Theorem ctags_filter_keeps_basename name lead comps base rest :
  name <> [] -> forallb (except TAB) name = true ->
  lead = [] \/ lead = ["/"%char] ->
  Forall component comps ->
  forallb path_char base = true ->
  rest = [] \/ (exists rest', rest = TAB :: rest') ->
  filter_basename (basename_filter ctags)
    (name ++ TAB :: lead ++ joined comps ++ base ++ rest)
  = name ++ TAB :: base ++ rest.
Proof.
  intros Hne Hname Hlead Hcomps Hbase Hrest.
  destruct (tail_no_component base rest Hbase Hrest) as [Htail Hslash].
  destruct (ctags_exact name lead comps (base ++ rest) Hne Hname Hlead Hcomps
              Htail Hslash) as (c & Hm & H1).
  unfold filter_basename, sub. cbn [basename_filter fst snd].
  rewrite subn_once, ctags_search, Hm. cbn [fst firstn app expand].
  rewrite H1, app_nil_r.
  replace (lead ++ joined comps ++ base ++ rest)
    with ((lead ++ joined comps) ++ base ++ rest)
    by (now rewrite <- app_assoc).
  cbn [Nat.add]. rewrite skipn_name_dirs.
  rewrite <- app_assoc. reflexivity.
Qed.

Lemma ctags_filter_keeps_basename_witness :
  filter_basename (basename_filter ctags)
    (t "main" ++ TAB :: ["/"%char] ++ joined [t "home"; t "u"; t "src"]
     ++ t "main.c" ++ TAB :: t "/^int main()$/")
  = t "main" ++ TAB :: t "main.c" ++ TAB :: t "/^int main()$/".
Proof.
  apply (ctags_filter_keeps_basename (t "main") ["/"%char]
           [t "home"; t "u"; t "src"] (t "main.c")
           (TAB :: t "/^int main()$/")).
  - discriminate.
  - reflexivity.
  - now right.
  - repeat constructor; discriminate.
  - reflexivity.
  - right. now eexists.
Defined.

Lemma is_digit_no_slash x : is_digit x = true -> except "/" x = true.
Proof.
  destruct x as [[] [] [] [] [] [] [] []]; cbn; intro H;
    try reflexivity; discriminate H.
Qed.

Lemma skipn_S_length_app {A} (a : list A) x r :
  skipn (S (List.length a)) (a ++ x :: r) = r.
Proof. induction a; [ reflexivity | assumption ]. Qed.

Lemma etags_keep l A g1 g2 tl :
  EtagsMatch l A g1 g2 tl ->
  forallb (except "/") g1 = true ->
  filter_basename (basename_filter etags) l = g1 ++ ","%char :: g2 ++ tl.
Proof.
  intros HM Hslash.
  assert (Hfree : forallb (except "/") (g1 ++ ","%char :: g2 ++ tl) = true).
  { destruct HM as (_ & _ & _ & _ & _ & Hd & Htl).
    rewrite forallb_app. cbn [forallb]. rewrite forallb_app, Hslash.
    rewrite (forallb_impl _ _ _ is_digit_no_slash Hd).
    destruct Htl as [-> | ->]; reflexivity. }
  unfold filter_basename, sub. cbn [basename_filter fst snd].
  rewrite subn_once.
  destruct (search etags_re false 0 l) as [[[b e] c] | ] eqn:Hs.
  2:{ exfalso. apply (etags_complete 0 l A g1 g2 tl HM).
      apply (search_none etags_re l 0 Hs 0). lia. }
  apply search_some in Hs. destruct Hs as (q & Hq & -> & Hm & Hleft).
  destruct q as [ | q ].
  2:{ exfalso. apply (etags_complete 0 l A g1 g2 tl HM).
      apply (Hleft 0). lia. }
  cbn [Nat.add skipn] in Hm. apply etags_sound in Hm.
  destruct Hm as (A' & h1 & h2 & tl' & HM' & He & H1 & H2 & Hmax).
  pose proof (Hmax A g1 g2 tl HM) as Hle.
  assert (Htl : skipn e l = tl').
  { apply (EtagsMatch_rest l A' h1 h2 tl' e HM'). lia. }
  cbn [fst firstn app expand]. rewrite H1, H2, Htl, app_nil_r.
  destruct HM as (Hl & _). destruct HM' as (Hl' & _).
  assert (Hlen : List.length A' = List.length A).
  { destruct (Nat.eq_dec (List.length A') (List.length A)) as [ | Hne ];
      [ assumption | exfalso ].
    assert (Hnth : nth_error l (List.length A') = Some "/"%char).
    { rewrite Hl', nth_error_app2, Nat.sub_diag by lia. reflexivity. }
    rewrite Hl, nth_error_app2 in Hnth by lia.
    destruct (List.length A' - List.length A) as [ | n ] eqn:Hn; [ lia | ].
    cbn [nth_error] in Hnth. apply nth_error_In in Hnth.
    rewrite forallb_forall in Hfree. apply Hfree in Hnth.
    discriminate Hnth. }
  rewrite Hl in Hl'.
  apply (f_equal (skipn (S (List.length A)))) in Hl'.
  rewrite skipn_S_length_app in Hl'.
  rewrite <- Hlen, skipn_S_length_app in Hl'. rewrite Hl'.
  cbn [t list_ascii_of_string].
  repeat (rewrite <- app_assoc; cbn [app]). reflexivity.
Qed.

(** X14.  On a line made of directories without newline, a slash, a
    file name without space or slash, a comma and digits up to the end of
    the line, the etags filter leaves the file name, the comma, the digits
    and the end of the line. *)
Theorem etags_filter_keeps_basename l A g1 g2 tl :
  EtagsMatch l A g1 g2 tl ->
  forallb (except "/") g1 = true ->
  filter_basename (basename_filter etags) l = g1 ++ ","%char :: g2 ++ tl.
Proof. exact (etags_keep l A g1 g2 tl). Qed.

Lemma etags_filter_keeps_basename_witness :
  filter_basename (basename_filter etags) (t "Units/a.d/input.c,120" ++ [NL])
  = t "input.c" ++ ","%char :: t "120" ++ [NL].
Proof.
  apply (etags_filter_keeps_basename (t "Units/a.d/input.c,120" ++ [NL])
           (t "Units/a.d") (t "input.c") (t "120") [NL]).
  - repeat split; try reflexivity; try discriminate. now right.
  - reflexivity.
Defined.

(** ** When hashes are looked for *)

Lemma hex8_here pos s :
  match_here hex8_re false pos s =
    if Nat.leb 8 (List.length s) && forallb is_hex_lower (firstn 8 s)
    then Some (8 + pos, []) else None.
Proof.
  unfold match_here, hex8_re.
  destruct s as [ | a1 [ | a2 [ | a3 [ | a4 [ | a5 [ | a6 [ | a7 [ | a8 s ]]]]]]]];
    cbn [m List.length Nat.leb andb firstn forallb Nat.add];
    repeat match goal with
           | |- context [is_hex_lower ?a] => destruct (is_hex_lower a)
           end;
    reflexivity.
Qed.

(** X15.  [is_anon_normalize_needed] is True exactly when the raw output
    holds eight characters in a row that are digits or letters from a to
    f in lower case. *)
Theorem anon_normalize_needed_iff rawout :
  is_anon_normalize_needed rawout = true
  <-> exists a h b,
        rawout = a ++ h ++ b /\ List.length h = 8
        /\ forallb is_hex_lower h = true.
Proof.
  unfold is_anon_normalize_needed. split.
  - destruct (search hex8_re false 0 rawout) as [[[b e] c] | ] eqn:Hs;
      [ intros _ | discriminate ].
    apply search_some in Hs. destruct Hs as (q & Hq & _ & Hm & _).
    rewrite hex8_here in Hm.
    destruct (Nat.leb 8 (List.length (skipn q rawout))) eqn:Hlen;
      [ | discriminate ].
    destruct (forallb is_hex_lower (firstn 8 (skipn q rawout))) eqn:Hhex;
      [ | discriminate ].
    apply Nat.leb_le in Hlen.
    exists (firstn q rawout), (firstn 8 (skipn q rawout)),
      (skipn 8 (skipn q rawout)).
    rewrite !firstn_skipn. repeat split; [ | exact Hhex ].
    now apply firstn_length_le.
  - intros (a & h & b & -> & Hlen & Hhex).
    destruct (search hex8_re false 0 (a ++ h ++ b)) as [x | ] eqn:Hs;
      [ reflexivity | exfalso ].
    pose proof (search_none hex8_re (a ++ h ++ b) 0 Hs (List.length a)) as Hn.
    rewrite skipn_length_app, hex8_here in Hn.
    rewrite <- Hlen, firstn_length_app, Hhex in Hn.
    rewrite !length_app, Hlen in Hn. cbn [Nat.add Nat.leb andb] in Hn.
    assert (H : List.length a <= List.length a + S (S (S (S (S (S (S (S
                  (List.length b))))))))) by lia.
    specialize (Hn H). discriminate Hn.
Qed.

(** ** The path of the expected input *)

Lemma m_StarLazy_Chr p pos s c k :
  m (StarLazy (Chr p)) pos s c k = lazy p pos s (fun pos' s' => k pos' s' c).
Proof.
  cbn [m].
  assert (H : List.length s <= List.length s) by lia. revert H.
  generalize (List.length s) at 2 3 as fuel. intro fuel. revert pos s.
  induction fuel as [ | f IH ]; intros pos s H.
  - destruct s; [ | cbn in H; lia ]. cbn [lazy].
    now destruct (k pos [] c).
  - destruct s as [ | a s ]; cbn [lazy]; destruct (k pos _ c);
      try reflexivity.
    destruct (p a); [ | reflexivity ].
    replace (Nat.ltb pos (S pos)) with true
      by (symmetry; apply Nat.ltb_lt; lia).
    apply IH. cbn in H. lia.
Qed.

Lemma lazy_first p k : forall s pos i x,
  i <= run p s ->
  k (pos + i) (skipn i s) = Some x ->
  (forall j, j < i -> k (pos + j) (skipn j s) = None) ->
  lazy p pos s k = Some x.
Proof.
  induction s as [ | a s IH ]; intros pos i x Hi Hk Hnone.
  - cbn [run] in Hi. assert (i = 0) by lia. subst i.
    rewrite Nat.add_0_r in Hk. cbn [skipn] in Hk. cbn [lazy].
    now rewrite Hk.
  - destruct i as [ | i ].
    + rewrite Nat.add_0_r in Hk. cbn [skipn] in Hk. cbn [lazy].
      now rewrite Hk.
    + cbn [lazy]. pose proof (Hnone 0 (Nat.lt_0_succ i)) as H0.
      rewrite Nat.add_0_r in H0. cbn [skipn] in H0. rewrite H0.
      cbn [run] in Hi. destruct (p a); [ | lia ].
      apply (IH (S pos) i x).
      * lia.
      * now rewrite Nat.add_succ_r in Hk.
      * intros j Hj. specialize (Hnone (S j)).
        rewrite Nat.add_succ_r in Hnone. apply Hnone. lia.
Qed.

Lemma lazy_none p k : forall s pos,
  (forall j, j <= List.length s -> k (pos + j) (skipn j s) = None) ->
  lazy p pos s k = None.
Proof.
  induction s as [ | a s IH ]; intros pos Hnone; cbn [lazy].
  - specialize (Hnone 0 (le_n _)). rewrite Nat.add_0_r in Hnone.
    cbn [skipn] in Hnone. now rewrite Hnone.
  - pose proof (Hnone 0 (Nat.le_0_l _)) as H0.
    rewrite Nat.add_0_r in H0. cbn [skipn] in H0. rewrite H0.
    destruct (p a); [ | reflexivity ].
    apply IH. intros j Hj. specialize (Hnone (S j)).
    rewrite Nat.add_succ_r in Hnone. apply Hnone. cbn. lia.
Qed.

Lemma lazy_ext p k k' :
  (forall pos s, k pos s = k' pos s) ->
  forall s pos, lazy p pos s k = lazy p pos s k'.
Proof.
  intro H. induction s as [ | a s IH ]; intro pos; cbn [lazy]; rewrite H;
    [ reflexivity | ].
  now rewrite IH.
Qed.

Lemma units_prefix_later must_advance pos s :
  match_here units_prefix_re must_advance (S pos) s = None.
Proof. reflexivity. Qed.

Lemma units_prefix_search s :
  search units_prefix_re false 0 s =
    match match_here units_prefix_re false 0 s with
    | Some (e, c) => Some (0, e, c)
    | None => None
    end.
Proof.
  assert (Hlater : forall s pos, search units_prefix_re false (S pos) s = None).
  { clear s. induction s as [ | a s IH ]; intro pos; cbn [search];
      rewrite units_prefix_later; [ reflexivity | apply IH ]. }
  destruct s as [ | a s ]; cbn [search];
    destruct (match_here units_prefix_re false 0 _) as [[e c] | ];
    try reflexivity.
  apply Hlater.
Qed.

Lemma units_prefix_here s :
  match_here units_prefix_re false 0 s =
    lazy dot 0 s
      (fun pos' s' =>
         if prefixb (t "/Units") s'
         then Some (pos' + 6, []) else None).
Proof.
  rewrite match_here_accept. unfold units_prefix_re.
  rewrite m_Seq, m_Bol. cbn [Nat.eqb]. rewrite m_Seq, m_StarLazy_Chr.
  apply lazy_ext. intros pos' s'. now rewrite m_Lit.
Qed.


Lemma prefixb_app a r : prefixb a (a ++ r) = true.
Proof.
  induction a as [ | x a IH ]; cbn; [ reflexivity | ].
  now rewrite Ascii.eqb_refl, IH.
Qed.

(** X16.  For an input path in which [/Units] occurs, with no newline
    before its first occurrence, the expected path of
    [anon_normalize_sub] is [./Units] followed by what comes after that
    first occurrence. *)
Theorem input_expected_cuts pre rest :
  forallb dot pre = true ->
  (forall j, j < List.length pre ->
     occurs_at (t "/Units") (pre ++ t "/Units" ++ rest) j = false) ->
  input_expected (pre ++ t "/Units" ++ rest) = t "./Units" ++ rest.
Proof.
  intros Hdot Hfirst. unfold input_expected, sub. f_equal.
  rewrite subn_once, units_prefix_search, units_prefix_here.
  rewrite (lazy_first dot _ (pre ++ t "/Units" ++ rest) 0 (List.length pre)
             (List.length pre + 6, [])).
  - cbn [fst firstn expand app Nat.add].
    replace (List.length pre + 6) with (6 + List.length pre) by lia.
    rewrite <- skipn_skipn, skipn_length_app. reflexivity.
  - now apply forallb_run.
  - rewrite skipn_length_app, prefixb_app. reflexivity.
  - intros j Hj. specialize (Hfirst j Hj). unfold occurs_at in Hfirst.
    now rewrite Hfirst.
Qed.

Lemma input_expected_cuts_witness :
  input_expected (t "/src/Units/parser-c.r/a.d/input.c")
  = t "./Units/parser-c.r/a.d/input.c".
Proof.
  apply (input_expected_cuts (t "/src") (t "/parser-c.r/a.d/input.c")).
  - reflexivity.
  - intros j Hj. do 4 (destruct j as [ | j ]; [ reflexivity | ]).
    cbn in Hj. lia.
Defined.

(** X17.  For an input path in which [/Units] does not occur, the
    expected path is [./Units] followed by the whole input path. *)
Theorem input_expected_without_units input :
  (forall j, occurs_at (t "/Units") input j = false) ->
  input_expected input = t "./Units" ++ input.
Proof.
  intro Hnone. unfold input_expected, sub. f_equal.
  rewrite subn_once, units_prefix_search, units_prefix_here.
  rewrite lazy_none; [ reflexivity | ].
  intros j _. specialize (Hnone j). unfold occurs_at in Hnone.
  now rewrite Hnone.
Qed.

Lemma input_expected_without_units_witness :
  input_expected (t "a.c") = t "./Unitsa.c".
Proof.
  apply (input_expected_without_units (t "a.c")).
  intro j. do 4 (destruct j as [ | j ]; [ reflexivity | ]). reflexivity.
Defined.

(** ** The name and the class of a case directory *)

Lemma skipn_last {A} (l : list A) x : forall j l' y,
  skipn j (l ++ [x]) = l' ++ [y] -> x = y.
Proof.
  intros j l' y H.
  destruct (Nat.le_gt_cases j (List.length l)) as [Hle | Hgt].
  - rewrite skipn_app in H.
    replace (j - List.length l) with 0 in H by lia. cbn [skipn] in H.
    now apply app_inj_tail in H.
  - rewrite skipn_all2 in H by (rewrite length_app; cbn; lia).
    now destruct l'.
Qed.

Lemma is_tclass_plain c :
  is_tclass c = true -> c <> NL /\ c <> "."%char /\ c <> "/"%char.
Proof.
  intro H. repeat split; intros ->; discriminate H.
Qed.

(** The end of the pattern: a dot, a class, the end of the text. *)
Lemma tcase_end_inv pos s cps x :
  m (Seq (Chr (only ".")) (Seq (Group 2 (Chr is_tclass)) Eol)) pos s cps accept
  = Some x ->
  exists a, s = ["."%char; a] \/ s = ["."%char; a; NL].
Proof.
  rewrite m_Seq, m_Chr. destruct s as [ | d s ]; [ discriminate | ].
  destruct (only "." d) eqn:Hd; [ | discriminate ].
  apply only_eq in Hd. subst d. rewrite m_Seq, m_Group, m_Chr.
  destruct s as [ | a s ]; [ discriminate | ].
  destruct (is_tclass a); [ | discriminate ]. cbn [m].
  destruct s as [ | b [ | b' s ] ]; [ | | discriminate ].
  - intros _. exists a. now left.
  - destruct (Ascii.eqb b NL) eqn:Hb; [ | discriminate ].
    apply Ascii.eqb_eq in Hb. subst b. intros _. exists a. now right.
Qed.

Lemma tcase_match B N c :
  forallb dot B = true -> forallb dot N = true ->
  forallb (except "/") N = true -> is_tclass c = true ->
  exists cps,
    rmatch tcase_re (B ++ "/"%char :: N ++ ["."%char; c]) = Some cps
    /\ group 1 cps = N /\ group 2 cps = [c].
Proof.
  intros HB HN Hslash Hc.
  destruct (is_tclass_plain c Hc) as (Hnl & Hdotc & Hslc).
  set (R := N ++ ["."%char; c]).
  set (s := B ++ "/"%char :: R).
  set (K2 := fun (pos' : nat) (s' : text) =>
               m (Seq (Chr (only ".")) (Seq (Group 2 (Chr is_tclass)) Eol))
                 pos' s' [(1, firstn (pos' - S (List.length B)) R)] accept).
  set (K1 := fun (pos' : nat) (s' : text) =>
               m (Seq (Chr (only "/"))
                    (Seq (Group 1 (Star (Chr dot)))
                       (Seq (Chr (only "."))
                          (Seq (Group 2 (Chr is_tclass)) Eol))))
                 pos' s' [] accept).
  set (x := (S (S (S (List.length B) + List.length N)), [(2, [c]); (1, N)])).
  assert (HdotR : forallb dot R = true).
  { unfold R. rewrite forallb_app, HN. cbn [forallb].
    unfold dot, except.
    destruct (Ascii.eqb NL c) eqn:E;
      [ apply Ascii.eqb_eq in E; now contradiction Hnl | reflexivity ]. }
  assert (HlenR : List.length R = List.length N + 2)
    by (unfold R; rewrite length_app; reflexivity).
  assert (H2at : K2 (S (List.length B) + List.length N)
                   (skipn (List.length N) R) = Some x).
  { unfold K2, R. rewrite skipn_length_app, m_Seq, m_Chr.
    cbn [only Ascii.eqb Bool.eqb]. rewrite m_Seq, m_Group, m_Chr, Hc.
    cbn [m]. unfold accept, x.
    replace (S (S (S (List.length B) + List.length N))
             - S (S (List.length B) + List.length N)) with 1 by lia.
    replace (S (List.length B) + List.length N - S (List.length B))
      with (List.length N) by lia.
    now rewrite firstn_length_app. }
  assert (H2only : forall j y,
            j <= List.length R ->
            K2 (S (List.length B) + j) (skipn j R) = Some y ->
            j = List.length N).
  { intros j y Hj Hy. unfold K2 in Hy. apply tcase_end_inv in Hy.
    destruct Hy as (a & [Hy | Hy]).
    - apply (f_equal (@List.length _)) in Hy.
      rewrite length_skipn in Hy. cbn in Hy. lia.
    - exfalso. unfold R in Hy.
      replace (N ++ ["."%char; c]) with ((N ++ ["."%char]) ++ [c]) in Hy
        by (now rewrite <- app_assoc).
      change ["."%char; a; NL] with (["."%char; a] ++ [NL]) in Hy.
      apply skipn_last in Hy. now apply Hnl. }
  assert (Hinner : greedy dot (S (List.length B)) R K2 = Some x).
  { destruct (greedy dot (S (List.length B)) R K2) as [y | ] eqn:Hg.
    - apply greedy_pick in Hg. destruct Hg as (j & Hj & Hy & _).
      rewrite (forallb_run_all _ _ HdotR) in Hj.
      pose proof (H2only j y Hj Hy) as ->. now rewrite <- Hy, H2at.
    - pose proof (greedy_fail dot K2 R _ Hg (List.length N)) as Hn.
      rewrite (forallb_run_all _ _ HdotR) in Hn.
      rewrite Hn in H2at by lia. discriminate H2at. }
  assert (H1at : K1 (0 + List.length B) (skipn (List.length B) s) = Some x).
  { unfold K1, s. rewrite skipn_length_app, m_Seq, m_Chr.
    cbn [only Ascii.eqb Bool.eqb]. rewrite m_Seq, m_Group, m_Star_Chr.
    cbn [Nat.add]. exact Hinner. }
  assert (Hruns : run dot s = List.length s).
  { apply forallb_run_all. unfold s. rewrite forallb_app, HB.
    cbn [forallb]. now rewrite HdotR. }
  assert (Hlens : List.length s = List.length B + S (List.length R))
    by (unfold s; rewrite length_app; reflexivity).
  assert (Hm : m tcase_re 0 s [] accept = Some x).
  { unfold tcase_re. rewrite m_Seq, m_Bol. cbn [Nat.eqb].
    rewrite m_Seq, m_Star_Chr. fold K1.
    destruct (greedy dot 0 s K1) as [y | ] eqn:Hg.
    - apply greedy_pick in Hg. destruct Hg as (i & Hi & Hy & Hmax).
      destruct (Nat.lt_trichotomy i (List.length B)) as [Hlt | [-> | Hgt]].
      + rewrite (Hmax (List.length B)) in H1at; [ discriminate | lia | lia ].
      + now rewrite <- Hy, H1at.
      + exfalso. unfold K1 in Hy. rewrite m_Seq, m_Chr in Hy.
        destruct (skipn i s) as [ | a s2 ] eqn:Hskip; [ discriminate | ].
        destruct (only "/" a) eqn:Ha; [ | discriminate ].
        apply only_eq in Ha. subst a.
        assert (Hin : In "/"%char R).
        { replace i with (S (i - S (List.length B)) + List.length B)
            in Hskip by lia.
          unfold s in Hskip. rewrite <- skipn_skipn in Hskip.
          rewrite skipn_length_app in Hskip. cbn [skipn] in Hskip.
          assert (Hin' : In "/"%char (skipn (i - S (List.length B)) R))
            by (rewrite Hskip; now left).
          revert Hin'. generalize (i - S (List.length B)). intro n.
          rewrite <- (firstn_skipn n R) at 2. intro. apply in_or_app.
          now right. }
        unfold R in Hin. apply in_app_or in Hin.
        destruct Hin as [Hin | [Hin | [Hin | []]]].
        * rewrite forallb_forall in Hslash. apply Hslash in Hin.
          discriminate Hin.
        * discriminate Hin.
        * now apply Hslc.
    - pose proof (greedy_fail dot K1 s 0 Hg (List.length B)) as Hn.
      rewrite Hn in H1at by lia. discriminate H1at. }
  exists [(2, [c]); (1, N)]. unfold rmatch.
  rewrite match_here_accept, Hm. unfold x. repeat split.
Qed.


Lemma s_of_t u : s_of (t u) = u.
Proof. apply string_of_list_ascii_of_string. Qed.

Lemma t_s_of x : t (s_of x) = x.
Proof. apply list_ascii_of_string_of_list_ascii. Qed.

Lemma dropwhile_app p a x r :
  forallb p a = true -> p x = false -> dropwhile p (a ++ x :: r) = x :: r.
Proof.
  intros Ha Hx. induction a as [ | y a IH ]; cbn [app dropwhile].
  - now rewrite Hx.
  - cbn [forallb] in Ha. apply andb_true_iff in Ha. destruct Ha as [Hy Ha].
    rewrite Hy. now apply IH.
Qed.

Lemma forallb_rev (p : ascii -> bool) l :
  forallb p l = true -> forallb p (rev l) = true.
Proof.
  rewrite !forallb_forall. intros H x Hx. apply H. now apply in_rev.
Qed.

Lemma dirname_file d0 z f :
  z <> "/"%char -> forallb (except "/") f = true ->
  dirname (s_of ((d0 ++ [z]) ++ "/"%char :: f)) = s_of (d0 ++ [z]).
Proof.
  intros Hz Hf. unfold dirname. rewrite t_s_of, rev_app_distr.
  cbn [rev]. rewrite <- app_assoc. cbn [app].
  rewrite dropwhile_app by (try apply forallb_rev; auto).
  rewrite rev_app_distr. cbn [rev app forallb].
  assert (Hoz : only "/" z = false).
  { unfold only. destruct (Ascii.eqb "/" z) eqn:E; [ | reflexivity ].
    apply Ascii.eqb_eq in E. congruence. }
  assert (Hos : only "/" "/" = true) by reflexivity.
  rewrite Hos, Hoz. cbn [andb negb dropwhile]. rewrite Hos, Hoz.
  cbn [rev]. now rewrite rev_involutive.
Qed.

Lemma remove_prefix_app p r : remove_prefix (p ++ r) p = r.
Proof.
  unfold remove_prefix, startswith.
  now rewrite t_app, prefixb_app, skipn_length_app, s_of_t.
Qed.

Lemma name_and_tclass_of base nm c :
  has NL base = false -> has NL nm = false -> has "/" nm = false ->
  is_tclass c = true ->
  name_and_tclass (base ++ "/" ++ nm ++ "." ++ String c EmptyString)
  = Some (nm, c).
Proof.
  intros Hb Hn Hs Hc. apply has_false in Hb, Hn, Hs. fold dot in Hb, Hn.
  unfold name_and_tclass. rewrite !t_app.
  cbn [t list_ascii_of_string app].
  destruct (tcase_match (t base) (t nm) c Hb Hn Hs Hc) as (cps & -> & -> & ->).
  now rewrite s_of_t.
Qed.

(** X18.  For a path that [glob] gives of the form base directory,
    slash, name, dot, class, slash, file name (the base directory without
    newline, the name without slash or newline, the class one of d, b, t,
    i, v, the file name without slash and not a backup file),
    [run_dir] queues the case with that name and class, with the case
    directory as its directory and with the same directory under the
    build directory, and goes on with the other paths. *)
Theorem run_dir_queues_case category base_dir build_base_dir glob_extra
    finput inputs nm c file :
  to_slashes finput
  = (base_dir ++ "/" ++ nm ++ "." ++ String c EmptyString ++ "/" ++ file)
      %string ->
  has "/" file = false -> accepted_file (to_slashes finput) = true ->
  has NL base_dir = false -> has NL nm = false -> has "/" nm = false ->
  is_tclass c = true ->
  let tcase_dir :=
    (base_dir ++ "/" ++ nm ++ "." ++ String c EmptyString)%string in
  run_dir_loop category base_dir build_base_dir glob_extra (finput :: inputs)
  = (mkTestCase (to_slashes finput) tcase_dir nm c category
       (build_base_dir ++ "/" ++ nm ++ "." ++ String c EmptyString)%string
       (sorted (map to_slashes (filter accepted_file (glob_extra tcase_dir))))
     :: fst (run_dir_loop category base_dir build_base_dir glob_extra inputs),
     snd (run_dir_loop category base_dir build_base_dir glob_extra inputs)).
Proof.
  intros Hshape Hfile Hacc Hb Hn Hs Hc tcase_dir.
  cbn [run_dir_loop]. rewrite Hacc. cbn [negb].
  assert (Hdir : dirname (to_slashes finput) = tcase_dir).
  { rewrite Hshape. unfold tcase_dir.
    rewrite <- (s_of_t (base_dir ++ "/" ++ nm ++ "."
                        ++ String c EmptyString ++ "/" ++ file)%string).
    rewrite <- (s_of_t (base_dir ++ "/" ++ nm ++ "."
                        ++ String c EmptyString)%string).
    rewrite !t_app. cbn [t list_ascii_of_string app].
    replace (t base_dir ++ "/"%char :: t nm
             ++ "."%char :: c :: "/"%char :: t file)
      with (((t base_dir ++ "/"%char :: t nm ++ ["."%char]) ++ [c])
            ++ "/"%char :: t file)
      by (repeat (rewrite <- app_assoc; cbn [app]); reflexivity).
    replace (t base_dir ++ "/"%char :: t nm ++ ["."%char; c])
      with ((t base_dir ++ "/"%char :: t nm ++ ["."%char]) ++ [c])
      by (repeat (rewrite <- app_assoc; cbn [app]); reflexivity).
    apply dirname_file.
    - apply (is_tclass_plain c Hc).
    - now apply has_false in Hfile. }
  rewrite Hdir. unfold tcase_dir.
  rewrite (name_and_tclass_of base_dir nm c Hb Hn Hs Hc).
  rewrite remove_prefix_app.
  destruct (run_dir_loop category base_dir build_base_dir glob_extra inputs)
    as [queue e].
  reflexivity.
Qed.

Lemma run_dir_queues_case_witness :
  run_dir_loop "parser-c.r" "Units/parser-c.r" "out/parser-c.r" (fun _ => [])
    ["Units/parser-c.r/simple.d/input.c"%string]
  = ([mkTestCase "Units/parser-c.r/simple.d/input.c"
        "Units/parser-c.r/simple.d" "simple" "d" "parser-c.r"
        "out/parser-c.r/simple.d" []], None).
Proof.
  apply (run_dir_queues_case "parser-c.r" "Units/parser-c.r" "out/parser-c.r"
           (fun _ => []) "Units/parser-c.r/simple.d/input.c" []
           "simple" "d" "input.c"); reflexivity.
Defined.

(** ** Categories *)

Lemma endswith_app x suf : endswith (x ++ suf) suf = true.
Proof. unfold endswith. rewrite rev_app_distr. apply prefixb_app. Qed.

Lemma string_app_inv_tail (a b c : string) :
  (a ++ c)%string = (b ++ c)%string -> a = b.
Proof.
  intro H. apply t_inj. apply (f_equal t) in H. rewrite !t_app in H.
  now apply app_inv_tail in H.
Qed.

Lemma normalize_category_inv p x :
  x <> "ROOT"%string -> endswith (t x) (t ".r") = false ->
  normalize_category p = (x ++ ".r")%string
  <-> p = x \/ p = (x ++ ".r")%string.
Proof.
  intros Hroot Hsuf. unfold normalize_category. split.
  - destruct (String.eqb p "ROOT" || endswith (t p) (t ".r")).
    + now right.
    + intro H. left. now apply string_app_inv_tail in H.
  - intros [-> | ->].
    + apply String.eqb_neq in Hroot. now rewrite Hroot, Hsuf.
    + now rewrite t_app, endswith_app, orb_true_r.
Qed.

(** X19.  With a non-empty argument of [--categories], a category
    directory [x.r] is run when the argument names it as [x] or as [x.r],
    and skipped, without a heading, when it names neither ([x] not ROOT
    and not itself ending in [.r]). *)
Theorem category_with_or_without_suffix arg x base_dir build_base_dir
    glob_extra inputs :
  arg <> EmptyString ->
  x <> "ROOT"%string -> endswith (t x) (t ".r") = false ->
  run_dir (categories_of arg) (x ++ ".r")%string base_dir build_base_dir
    glob_extra inputs = ([], ([], None))
  <-> ~ (In x (category_args arg)
         \/ In (x ++ ".r")%string (category_args arg)).
Proof.
  intros Harg Hroot Hsuf. apply String.eqb_neq in Harg.
  assert (Hin : In (x ++ ".r")%string (categories_of arg)
                <-> In x (category_args arg)
                    \/ In (x ++ ".r")%string (category_args arg)).
  { unfold categories_of, category_args. rewrite Harg.
    rewrite <- (map_map s_of normalize_category), in_map_iff. split.
    - intros (p & Hp & Hi).
      apply (normalize_category_inv p x Hroot Hsuf) in Hp.
      destruct Hp as [-> | ->]; auto.
    - intros [H | H]; eexists; (split; [ | exact H ]);
        apply (normalize_category_inv _ x Hroot Hsuf); auto. }
  rewrite <- Hin, <- mem_In. unfold run_dir.
  assert (Hlen : Nat.ltb 0 (List.length (categories_of arg)) = true).
  { unfold categories_of. rewrite Harg, length_map.
    destruct (t arg) as [ | a s ]; cbn [split_on]; [ reflexivity | ].
    destruct (Ascii.eqb a ","); [ reflexivity | ].
    now destruct (split_on "," s). }
  rewrite Hlen. cbn [andb].
  destruct (mem (x ++ ".r") (categories_of arg)); cbn [negb]; split;
    try discriminate; try reflexivity; intro H; now contradiction H.
Qed.

Lemma category_with_or_without_suffix_witness :
  run_dir (categories_of "parser-c,ROOT") "parser-java.r" "Units" "out"
    (fun _ => []) [] = ([], ([], None)).
Proof.
  apply (category_with_or_without_suffix "parser-c,ROOT" "parser-java"
           "Units" "out" (fun _ => []) []).
  - discriminate.
  - discriminate.
  - reflexivity.
  - intros [H | H]; cbn in H; intuition discriminate.
Defined.

(** ** The pretense map *)

Lemma pretend_match N O :
  forallb dot N = true -> forallb dot O = true ->
  forallb (except "/") O = true ->
  exists c,
    rmatch pretend_re (N ++ "/"%char :: O) = Some c
    /\ group 1 c = N /\ group 2 c = O.
Proof.
  intros HN HO Hslash.
  set (s := N ++ "/"%char :: O).
  set (K1 := fun (pos' : nat) (s' : text) =>
               m (Seq (Chr (only "/")) (Group 2 (Star (Chr dot)))) pos' s'
                 [(1, firstn (pos' - 0) s)] accept).
  set (x := (S (List.length N) + List.length O, [(2, O); (1, N)])).
  assert (H1at : K1 (0 + List.length N) (skipn (List.length N) s) = Some x).
  { unfold K1, s. rewrite skipn_length_app, m_Seq, m_Chr.
    cbn [only Ascii.eqb Bool.eqb]. rewrite m_Group, m_Star_Chr.
    apply greedy_top. rewrite (forallb_run_all _ _ HO). unfold accept, x.
    cbn [Nat.add]. rewrite Nat.sub_0_r, firstn_length_app.
    replace (S (List.length N + List.length O) - S (List.length N))
      with (List.length O) by lia.
    now rewrite firstn_all. }
  assert (Hruns : run dot s = List.length s).
  { apply forallb_run_all. unfold s. rewrite forallb_app, HN.
    cbn [forallb]. now rewrite HO. }
  assert (Hlens : List.length s = List.length N + S (List.length O))
    by (unfold s; rewrite length_app; reflexivity).
  assert (Hm : m pretend_re 0 s [] accept = Some x).
  { unfold pretend_re. rewrite m_Seq, m_Group, m_Star_Chr.
    change (greedy dot 0 s K1 = Some x).
    destruct (greedy dot 0 s K1) as [y | ] eqn:Hg.
    - apply greedy_pick in Hg. destruct Hg as (i & Hi & Hy & Hmax).
      destruct (Nat.lt_trichotomy i (List.length N)) as [Hlt | [-> | Hgt]].
      + rewrite (Hmax (List.length N)) in H1at; [ discriminate | lia | lia ].
      + now rewrite <- Hy, H1at.
      + exfalso. unfold K1 in Hy. rewrite m_Seq, m_Chr in Hy.
        destruct (skipn i s) as [ | a s2 ] eqn:Hskip; [ discriminate | ].
        destruct (only "/" a) eqn:Ha; [ | discriminate ].
        apply only_eq in Ha. subst a.
        assert (Hin : In "/"%char O).
        { replace i with (S (i - S (List.length N)) + List.length N)
            in Hskip by lia.
          unfold s in Hskip. rewrite <- skipn_skipn in Hskip.
          rewrite skipn_length_app in Hskip. cbn [skipn] in Hskip.
          assert (Hin' : In "/"%char (skipn (i - S (List.length N)) O))
            by (rewrite Hskip; now left).
          revert Hin'. generalize (i - S (List.length N)). intro n.
          rewrite <- (firstn_skipn n O) at 2. intro. apply in_or_app.
          now right. }
        rewrite forallb_forall in Hslash. apply Hslash in Hin.
        discriminate Hin.
    - pose proof (greedy_fail dot K1 s 0 Hg (List.length N)) as Hn.
      rewrite Hn in H1at by lia. discriminate H1at. }
  exists [(2, O); (1, N)]. unfold rmatch.
  rewrite match_here_accept, Hm. unfold x. repeat split.
Qed.

Lemma pretend_none p :
  forallb (except "/") p = true -> rmatch pretend_re p = None.
Proof.
  intro Hslash. unfold rmatch. rewrite match_here_accept.
  destruct (m pretend_re 0 p [] accept) as [[e c] | ] eqn:Hm;
    [ exfalso | reflexivity ].
  unfold pretend_re in Hm. rewrite m_Seq, m_Group, m_Star_Chr in Hm.
  apply greedy_pick in Hm. destruct Hm as (i & _ & Hy & _).
  rewrite m_Seq, m_Chr in Hy.
  destruct (skipn i p) as [ | a s2 ] eqn:Hskip; [ discriminate | ].
  destruct (only "/" a) eqn:Ha; [ | discriminate ].
  apply only_eq in Ha. subst a.
  assert (Hin : In "/"%char p).
  { rewrite <- (firstn_skipn i p), Hskip. apply in_or_app. right. now left. }
  rewrite forallb_forall in Hslash. apply Hslash in Hin. discriminate Hin.
Qed.

Lemma split_on_plain p :
  forallb (except ",") p = true -> split_on "," p = [p].
Proof.
  induction p as [ | a p IH ]; cbn [split_on forallb]; [ reflexivity | ].
  intro H. apply andb_true_iff in H. destruct H as [Ha Hp].
  unfold except in Ha. apply negb_true_iff in Ha.
  rewrite Ascii.eqb_sym, Ha. now rewrite (IH Hp).
Qed.

Lemma split_on_app p rest :
  forallb (except ",") p = true ->
  split_on "," (p ++ ","%char :: rest) = p :: split_on "," rest.
Proof.
  induction p as [ | a p IH ]; cbn [split_on forallb app];
    [ reflexivity | ].
  intro H. apply andb_true_iff in H. destruct H as [Ha Hp].
  unfold except in Ha. apply negb_true_iff in Ha.
  rewrite Ascii.eqb_sym, Ha. now rewrite (IH Hp).
Qed.

Lemma split_on_join pieces :
  pieces <> [] -> Forall (fun p => forallb (except ",") p = true) pieces ->
  split_on "," (join_commas pieces) = pieces.
Proof.
  induction pieces as [ | p pieces IH ]; intros Hne Hall;
    [ now contradiction Hne | ].
  inversion Hall as [ | ? ? Hp Hrest ]; subst.
  destruct pieces as [ | q pieces ]; cbn [join_commas].
  - now apply split_on_plain.
  - rewrite split_on_app by exact Hp. f_equal. apply IH; [ discriminate | ].
    exact Hrest.
Qed.

Lemma pretense_loop pairs :
  Forall (fun p => lang_name (fst p) /\ lang_name (snd p)) pairs ->
  forall r,
    make_pretense_map_loop (map pretense_entry pairs) r =
      Returns
        (r ++ List.concat
                (map (fun p => t " --_pretend-" ++ fst p ++ t "=" ++ snd p)
                   pairs)).
Proof.
  induction 1 as [ | [n o] pairs [Hn Ho] _ IH ]; intro r;
    cbn [map make_pretense_map_loop List.concat].
  - now rewrite app_nil_r.
  - destruct Hn as (Hn0 & Hnd & _). destruct Ho as (Ho0 & Hod & Hos & _).
    unfold pretense_entry at 1. cbn [fst snd].
    destruct (pretend_match n o Hnd Hod Hos) as (c & -> & -> & ->).
    destruct n as [ | a n ]; [ now contradiction Hn0 | ].
    destruct o as [ | b o ]; [ now contradiction Ho0 | ].
    rewrite IH. f_equal. now rewrite <- !app_assoc.
Qed.

(** X20.  For an argument made of entries [new/old] with commas between
    them, the names not empty and without newline, slash or comma,
    [make_pretense_map] returns, for each entry in order, a space and
    [--_pretend-new=old]. *)
Theorem make_pretense_map_entries pairs :
  pairs <> [] ->
  Forall (fun p => lang_name (fst p) /\ lang_name (snd p)) pairs ->
  make_pretense_map (s_of (join_commas (map pretense_entry pairs))) =
    Returns
      (List.concat
         (map (fun p => t " --_pretend-" ++ fst p ++ t "=" ++ snd p) pairs)).
Proof.
  intros Hne Hall. unfold make_pretense_map.
  rewrite t_s_of, split_on_join.
  - now rewrite (pretense_loop pairs Hall []).
  - destruct pairs; [ now contradiction Hne | discriminate ].
  - clear Hne. induction Hall as [ | [n o] pairs [Hn Ho] _ IH ];
      cbn [map]; constructor; [ | exact IH ].
    unfold pretense_entry. cbn [fst snd] in *. rewrite forallb_app.
    destruct Hn as (_ & _ & _ & ->). destruct Ho as (_ & _ & _ & Ho).
    cbn [forallb]. now rewrite Ho.
Qed.

Lemma make_pretense_map_entries_witness :
  make_pretense_map "CPP/C,ObjC/C" =
    Returns (t " --_pretend-CPP=C --_pretend-ObjC=C").
Proof.
  apply (make_pretense_map_entries [(t "CPP", t "C"); (t "ObjC", t "C")]).
  - discriminate.
  - repeat constructor; discriminate.
Defined.

Lemma pretense_loop_malformed p pieces :
  In p pieces -> forallb (except "/") p = true ->
  forall r, make_pretense_map_loop pieces r = Raises "NameError"%string.
Proof.
  intros Hin Hp. induction pieces as [ | q pieces IH ]; intro r;
    [ now contradiction Hin | ].
  cbn [make_pretense_map_loop].
  destruct (rmatch pretend_re q) as [c | ] eqn:Hm; [ | reflexivity ].
  destruct (group 1 c) as [ | a n ]; [ reflexivity | ].
  destruct (group 2 c) as [ | b o ]; [ reflexivity | ].
  destruct Hin as [-> | Hin]; [ | now apply IH ].
  rewrite (pretend_none p Hp) in Hm. discriminate Hm.
Qed.

(** X21.  When an entry of the argument of [--with-pretense-map] holds
    no slash, [make_pretense_map] raises NameError: the function
    [error_exit] that it calls for the error is not defined. *)
Theorem make_pretense_map_malformed arg p :
  In p (split_on "," (t arg)) -> forallb (except "/") p = true ->
  make_pretense_map arg = Raises "NameError"%string.
Proof.
  intros Hin Hp. now apply (pretense_loop_malformed p).
Qed.

Lemma make_pretense_map_malformed_witness :
  make_pretense_map "CPP/C,ObjC" = Raises "NameError"%string.
Proof.
  apply (make_pretense_map_malformed "CPP/C,ObjC" (t "ObjC")).
  - right. now left.
  - reflexivity.
Defined.

(** ** The summary *)

Lemma first_failing_fails g tc w gate :
  first_failing g tc w = Some gate -> gate_holds g tc w gate = false.
Proof.
  unfold first_failing. intro H. apply find_some in H.
  destruct H as [_ H]. now apply negb_true_iff in H.
Qed.

Lemma nothing_hidden_add g o (fixed : bool) id :
  (o = TimedOut -> WITH_TIMEOUT g <> 0%Z) ->
  (o = SkippedInfiniteLoopRisk -> WITH_TIMEOUT g = 0%Z) ->
  (o = ValgrindError -> WITH_VALGRIND g = true) ->
  nothing_hidden g
    (add_to o id (if fixed then add_to Fixed id no_results else no_results)).
Proof.
  intros Ht Hi Hv. unfold nothing_hidden.
  destruct o, fixed; cbn; repeat split; intros; try reflexivity; exfalso;
    first [ now apply Ht | (rewrite Hi in * by reflexivity; congruence)
          | (rewrite Hv in * by reflexivity; congruence) ].
Qed.

Lemma nothing_hidden_merge g r r0 :
  nothing_hidden g r -> nothing_hidden g r0 -> nothing_hidden g (merge r r0).
Proof.
  intros (H1 & H2 & H3) (K1 & K2 & K3). unfold nothing_hidden, merge; cbn.
  repeat split; intro H.
  - now rewrite H1, K1.
  - now rewrite H2, K2.
  - now rewrite H3, K3.
Qed.

Lemma nothing_hidden_empty g : nothing_hidden g no_results.
Proof. now repeat split. Qed.

Lemma run_tcase_nothing_hidden g tc w :
  nothing_hidden g (lists (fst (run_tcase g tc w initial))).
Proof.
  pose proof (run_tcase_gate_cases g tc w initial) as H.
  destruct (first_failing g tc w) as [gate | ] eqn:Hff.
  - destruct H as (tr & -> & _). cbn [fst lists initial].
    apply first_failing_fails in Hff.
    destruct gate; cbn [gate_outcome];
      try apply nothing_hidden_empty;
      apply (nothing_hidden_add g _ false); try discriminate; intros _.
    cbn [gate_holds] in Hff. apply negb_false_iff in Hff.
    apply andb_true_iff in Hff. destruct Hff as [Hff _].
    now apply Z.eqb_eq in Hff.
  - clear H. apply first_failing_none in Hff.
    rewrite run_tcase_passed by exact Hff. unfold bind at 1.
    assert (Hdone : forall done s,
              lists s = no_results ->
              (done = TimeoutExpired -> WITH_TIMEOUT g <> 0%Z) ->
              nothing_hidden g (lists (fst (after_run g tc w done s)))).
    { intros done s Hs Hto.
      destruct (after_run g tc w done s) as [st' [b | e | ]] eqn:Hrun.
      - apply after_run_verdict in Hrun.
        destruct Hrun as (o & fixed & Ho & Hl & _ & Hposs).
        cbn [fst]. rewrite Hl, Hs.
        apply nothing_hidden_add; intros ->.
        + destruct done; [ discriminate Hposs | now apply Hto ].
        + now destruct done.
        + now destruct done.
      - pose proof (after_run_raises_lists g tc w done s e) as Hl.
        rewrite Hrun in Hl. cbn [fst snd] in *. rewrite Hl by reflexivity.
        rewrite Hs.
        destruct (WITH_VALGRIND g && Ascii.eqb (tclass tc) "v").
        + repeat split.
        + apply nothing_hidden_empty.
      - exfalso. apply (never_hangs_after_run g tc w done s).
        now rewrite Hrun. }
    unfold subprocess_run. rewrite bind_emit. unfold ret, hang.
    destruct (timeout_value g) as [secs | ] eqn:Htv;
      destruct (subject w) as [ms rc | ];
      try destruct (1000 * secs <? ms)%Z;
      try (apply Hdone; [ reflexivity | ]);
      try discriminate;
      try (intros _ H0; apply timeout_value_none in H0; congruence).
    apply nothing_hidden_empty.
Qed.

Lemma run_cases_nothing_hidden g cases :
  forall st,
    nothing_hidden g (lists st) ->
    nothing_hidden g (lists (fst (run_cases g cases st))).
Proof.
  induction cases as [ | [tc w] cases IH ]; intros st Hst; cbn [run_cases].
  - exact Hst.
  - rewrite (framed_run_tcase g tc w st).
    assert (Hnext : nothing_hidden g
                      (lists (st_app st (fst (run_tcase g tc w initial))))).
    { unfold st_app. cbn [lists]. apply nothing_hidden_merge;
        [ exact Hst | apply run_tcase_nothing_hidden ]. }
    destruct (snd (run_tcase g tc w initial)); try (apply IH; exact Hnext).
    exact Hnext.
Qed.

(** X22.  After the cases of a run, the sections that [run_summary]
    leaves out are empty: no case has timed out when no timeout is
    configured, none was skipped for the risk of an infinite loop when a
    timeout is configured, and none has a valgrind error when valgrind is
    not in use. *)
Theorem summary_hides_nothing g cases :
  nothing_hidden g (lists (fst (run_cases g cases initial))).
Proof. apply run_cases_nothing_hidden. apply nothing_hidden_empty. Qed.









(** ** The tmain tests *)

Lemma aspects_loop_state tools td name build_subdir l :
  forall st buf,
    let st' := fst (fst (aspects_loop tools td name build_subdir l st buf)) in
    TMAIN_STATUS st' =
      TMAIN_STATUS st
      && negb (existsb (aspect_fails td) (reached tools td l))
    /\ TMAIN_FAILED st' =
         TMAIN_FAILED st
         ++ map (fun a =>
                   (name ++ "/" ++ aspect_name a ++ "-compare"
                    ++ snd (failed_git_marker tools td a))%string)
              (filter (aspect_fails td) (reached tools td l)).
Proof.
  induction l as [ | a l IH ]; intros st buf; cbn [aspects_loop reached].
  - cbn. now rewrite andb_true_r, app_nil_r.
  - unfold backtraces_raise.
    destruct (aspect_fails td a) eqn:Haf; cbn [andb existsb filter];
      rewrite ?Haf; cbn [orb negb andb]; unfold aspect_fails in Haf;
      unfold tmain_compare.
    + apply andb_true_iff in Haf. destruct Haf as [Hexp Hcmp].
      apply negb_true_iff in Hcmp. rewrite Hexp, andb_true_r, Hcmp.
      destruct (failed_git_marker tools td a) as [git marker] eqn:Hgit.
      cbn zeta.
      destruct (is_stderr a && core_dump td && which_gdb tools);
        [ destruct (print_backtraces_raises td) as [e | ]; cbn [negb] | ];
        cbn [fst TMAIN_STATUS TMAIN_FAILED did existsb filter map];
        try (rewrite andb_false_r, Hgit; cbn [snd]; split; reflexivity);
        match goal with
        | |- context [aspects_loop tools td name build_subdir l ?s ?b] =>
            destruct (IH s b) as [IH1 IH2]
        end;
        cbn [TMAIN_STATUS TMAIN_FAILED did] in IH1, IH2;
        rewrite IH1, IH2, Hgit, andb_false_r, <- app_assoc;
        split; reflexivity.
    + destruct (expected_txt td a); cbn [andb] in Haf.
      * apply negb_false_iff in Haf. rewrite andb_true_r, Haf.
        exact (IH (did ([] ++ [TRemove a]) st) _).
      * destruct (actual_txt td a);
          [ exact (IH (did [TRemove a] st) _) | apply IH ].
Qed.

(** The backtraces are printed after a comparison that has failed. *)
Lemma reached_fails tools td l :
  existsb (aspect_fails td) (reached tools td l)
  = existsb (aspect_fails td) l.
Proof.
  induction l as [ | a l IH ]; cbn [reached existsb]; [ reflexivity | ].
  unfold backtraces_raise.
  destruct (aspect_fails td a); cbn [andb orb]; [ reflexivity | exact IH ].
Qed.

Lemma worker_tmain_sub_state tools td name build_subdir st :
  let st' := worker (tmain_sub tools td name build_subdir) st in
  TMAIN_STATUS st' = TMAIN_STATUS st && negb (test_fails tools td)
  /\ TMAIN_FAILED st' =
       TMAIN_FAILED st
       ++ if compared tools td
          then map (fun a =>
                      (name ++ "/" ++ aspect_name a ++ "-compare"
                       ++ snd (failed_git_marker tools td a))%string)
                 (filter (aspect_fails td) (reached tools td all_aspects))
          else [].
Proof.
  unfold worker, tmain_sub, test_fails, compared, canonical.
  destruct (stderr_decodes td); cbn [negb andb].
  2:{ cbn. now rewrite andb_true_r, app_nil_r. }
  destruct (String.eqb (basename (CTAGS tools)) "ctags"); cbn [negb andb orb].
  2:{ destruct (compiles (re_library tools) (program_pattern tools));
        cbn [negb andb].
      2:{ cbn. now rewrite andb_true_r, app_nil_r. }
      destruct (returncode td =? CODE_FOR_IGNORING_THIS_TMAIN_TEST)%Z;
        cbn [negb andb].
      { cbn. now rewrite andb_true_r, app_nil_r. }
      destruct (stderr_writes td); cbn [negb andb].
      2:{ cbn. now rewrite andb_true_r, app_nil_r. }
      rewrite <- (reached_fails tools td all_aspects).
      match goal with
      | |- context [aspects_loop tools td name build_subdir ?l ?s ?b] =>
          pose proof (aspects_loop_state tools td name build_subdir l s b)
            as H;
          destruct (aspects_loop tools td name build_subdir l s b)
            as [[st2 buf] [e | ]]
      end;
        cbn [fst] in H; destruct H as [H1 H2];
        cbn [did TMAIN_STATUS TMAIN_FAILED];
        rewrite H1, H2; now destruct (tags_file td). }
  destruct (returncode td =? CODE_FOR_IGNORING_THIS_TMAIN_TEST)%Z;
    cbn [negb andb].
  { cbn. now rewrite andb_true_r, app_nil_r. }
  destruct (stderr_writes td); cbn [negb andb].
  2:{ cbn. now rewrite andb_true_r, app_nil_r. }
  rewrite <- (reached_fails tools td all_aspects).
  match goal with
  | |- context [aspects_loop tools td name build_subdir ?l ?s ?b] =>
      pose proof (aspects_loop_state tools td name build_subdir l s b) as H;
      destruct (aspects_loop tools td name build_subdir l s b)
        as [[st2 buf] [e | ]]
  end;
    cbn [fst] in H; destruct H as [H1 H2];
    cbn [did TMAIN_STATUS TMAIN_FAILED];
    rewrite H1, H2; now destruct (tags_file td).
Qed.

Lemma tmain_loop_state tools build_topdir units dirs :
  forall st,
    let st' := tmain_loop tools build_topdir units dirs st in
    TMAIN_STATUS st' =
      TMAIN_STATUS st
      && negb (existsb (fun td => selected units td && test_fails tools td)
                 dirs)
    /\ TMAIN_FAILED st' =
         TMAIN_FAILED st
         ++ List.concat (map (failed_entries tools units) dirs).
Proof.
  induction dirs as [ | td dirs IH ]; intro st;
    cbn [tmain_loop existsb map List.concat].
  - now rewrite andb_true_r, app_nil_r.
  - unfold failed_entries at 1.
    assert (Hsel : selected units td
                   = negb (Nat.ltb 0 (List.length units)
                           && negb (mem (test_name_of (subdir td)) units)))
      by reflexivity.
    rewrite !Hsel. clear Hsel.
    destruct (Nat.ltb 0 (List.length units)
              && negb (mem (test_name_of (subdir td)) units));
      cbn [negb andb orb app].
    + apply IH.
    + match goal with
      | |- context [worker (tmain_sub tools td ?n ?b) st] =>
          pose proof (worker_tmain_sub_state tools td n b st) as H;
          specialize (IH (worker (tmain_sub tools td n b) st))
      end.
      cbn zeta in *. destruct H as [H1 H2]. destruct IH as [IH1 IH2].
      rewrite IH1, IH2, H1, H2. unfold failed_entry.
      rewrite <- app_assoc, <- andb_assoc, negb_orb. split; reflexivity.
Qed.



(** A test whose error output does not decode makes no difference: the
    run of the sample directory alone returns 0 although its comparison
    would fail. *)
Example action_tmain_garbled :
  action_tmain sample_tools false [] "build" []
    [garbled_dir "list-kinds" false] = 0%Z
  /\ action_tmain sample_tools false [] "build" []
       [sample_dir "list-kinds" false] = 1%Z.
Proof. split; reflexivity. Qed.

Lemma failed_entries_status tools units dirs :
  existsb (fun td => selected units td && test_fails tools td) dirs = true
  <-> List.concat (map (failed_entries tools units) dirs) <> [].
Proof.
  induction dirs as [ | td dirs IH ]; cbn [existsb map List.concat].
  - split; [ discriminate | intro H; now contradiction H ].
  - unfold failed_entries at 1, test_fails.
    destruct (selected units td); cbn [andb orb]; [ | exact IH ].
    destruct (compared tools td); cbn [negb andb orb]; [ | exact IH ].
    rewrite <- (reached_fails tools td all_aspects).
    destruct (existsb (aspect_fails td) (reached tools td all_aspects))
      eqn:Hex; cbn [negb orb].
    + split; [ intros _ | reflexivity ].
      apply existsb_exists in Hex. destruct Hex as (a & Hin & Ha).
      assert (Hf : In a (filter (aspect_fails td)
                           (reached tools td all_aspects)))
        by (apply filter_In; now split).
      destruct (filter (aspect_fails td) (reached tools td all_aspects));
        [ now contradiction Hf | ].
      discriminate.
    + assert (Hnil : filter (aspect_fails td) (reached tools td all_aspects)
                     = []).
      { destruct (filter (aspect_fails td) (reached tools td all_aspects))
          as [ | a l ] eqn:E; [ reflexivity | exfalso ].
        assert (Hf : In a (filter (aspect_fails td)
                             (reached tools td all_aspects)))
          by (rewrite E; now left).
        apply filter_In in Hf. destruct Hf as [Hin Ha].
        assert (Hex' : existsb (aspect_fails td)
                         (reached tools td all_aspects) = true)
          by (apply existsb_exists; now exists a).
        congruence. }
      rewrite Hnil. exact IH.
Qed.

Lemma concat_map_Permutation {A B} (f : A -> list B) l l' :
  Permutation l l' ->
  Permutation (List.concat (map f l)) (List.concat (map f l')).
Proof.
  induction 1 as [ | x l l' _ IH | x y l | l l' l'' _ IH1 _ IH2 ];
    cbn [map List.concat].
  - constructor.
  - now apply Permutation_app_head.
  - rewrite !app_assoc. apply Permutation_app_tail, Permutation_app_comm.
  - now transitivity (List.concat (map f l')).
Qed.

(** X25.  After [tmain_run], started with the lists as they are when
    units.py is loaded, and whatever the order in which the tests are
    taken, TMAIN_FAILED holds, up to the order of its entries, one entry
    for each failed comparison that a test asked for gets to, and nothing
    else; the status is False exactly when the list is not empty.  A test
    gets to its comparisons as in X24, and to those of the exit code and
    of the tags only if printing the backtraces, after a failed
    comparison of the error output, does not raise. *)
Theorem tmain_failed_list tools SHOW_DIFF_OUTPUT detail build_topdir units
    dirs taken :
  Permutation dirs taken ->
  let r := tmain_run tools SHOW_DIFF_OUTPUT detail build_topdir units taken
             loaded in
  Permutation (TMAIN_FAILED (snd r))
    (List.concat (map (failed_entries tools units) dirs))
  /\ (fst r = false <-> TMAIN_FAILED (snd r) <> []).
Proof.
  intro Hperm. unfold tmain_run. cbn [fst snd did TMAIN_FAILED].
  destruct (tmain_loop_state tools build_topdir units taken
              (mkTState true (TMAIN_FAILED loaded) (events loaded)))
    as [H1 H2].
  rewrite H1, H2. cbn [TMAIN_STATUS TMAIN_FAILED loaded andb app].
  split.
  - apply Permutation_sym. now apply concat_map_Permutation.
  - rewrite <- failed_entries_status.
    destruct (existsb _ taken); cbn [negb]; split; congruence.
Qed.

Lemma tmain_failed_list_witness :
  let r := tmain_run sample_tools false [] "build" []
             [sample_dir "b" false; sample_dir "a" false] loaded in
  Permutation (TMAIN_FAILED (snd r))
    (List.concat
       (map (failed_entries sample_tools [])
          [sample_dir "a" false; sample_dir "b" false]))
  /\ (fst r = false <-> TMAIN_FAILED (snd r) <> []).
Proof.
  apply (tmain_failed_list sample_tools false [] "build" []
           [sample_dir "a" false; sample_dir "b" false]
           [sample_dir "b" false; sample_dir "a" false]).
  apply perm_swap.
Defined.

Lemma run_stop_at p g a rest :
  forallb p g = true -> p a = false ->
  firstn (run p (g ++ a :: rest)) (g ++ a :: rest) = g.
Proof.
  intros Hg Ha. rewrite (run_app_stop p g a rest Hg Ha).
  apply firstn_length_app.
Qed.

Lemma basename_of top name :
  has "/" name = false ->
  basename (top ++ "/" ++ name) = name.
Proof.
  intro Hn. apply has_false in Hn. unfold basename.
  rewrite !t_app. cbn [t list_ascii_of_string app].
  rewrite rev_app_distr. cbn [rev]. rewrite <- app_assoc. cbn [app].
  rewrite run_stop_at by (try apply forallb_rev; auto).
  now rewrite rev_involutive, s_of_t.
Qed.

(** X26.  The name of a tmain test is the name of its directory without
    the two characters of its suffix: for the directory [name.d] under
    any directory it is [name], and the build directory of the test is
    [name.d] under the build directory. *)
Theorem test_name_of_directory top name :
  has "/" name = false ->
  test_name_of (top ++ "/" ++ name ++ ".d") = name
  /\ basename (top ++ "/" ++ name ++ ".d") = (name ++ ".d")%string.
Proof.
  intro Hn.
  assert (Hb : basename (top ++ "/" ++ name ++ ".d") = (name ++ ".d")%string).
  { apply basename_of. unfold has in *. rewrite t_app, existsb_app, Hn.
    reflexivity. }
  split; [ | exact Hb ].
  unfold test_name_of. rewrite Hb, t_app, length_app.
  replace (List.length (t name) + List.length (t ".d") - 2)
    with (List.length (t name)) by (cbn; lia).
  now rewrite firstn_length_app, s_of_t.
Qed.

Lemma test_name_of_directory_witness :
  test_name_of "Tmain/list-kinds.d" = "list-kinds"%string
  /\ basename "Tmain/list-kinds.d" = "list-kinds.d"%string.
Proof.
  apply (test_name_of_directory "Tmain" "list-kinds"). reflexivity.
Defined.

(** ** What a case leaves in its build directory *)

Lemma anon_normalize_sub_neutral bundled w args :
  forall input_actual kept,
    fold_left (leave bundled)
      (trace (fst (anon_normalize_sub w input_actual args initial))) kept
    = kept.
Proof.
  induction args as [ | a args IH ]; intros input_actual kept; simpl;
    unfold first_line;
    destruct (anonhash w input_actual) as [ | actual ? ];
    try reflexivity;
    destruct (anonhash w (input_expected input_actual)) as [ | expected ? ];
    try reflexivity.
  bind_steps.
  unfold bind. rewrite (framed_anon_normalize_sub w args a _).
  specialize (IH a).
  destruct (anon_normalize_sub w a args initial) as [s0 [r | e | ]];
    cbn [fst snd] in *; unfold st_app; cbn [trace];
    rewrite ?fold_left_app; cbn [fold_left leave app]; apply IH.
Qed.

Lemma normalize_neutral bundled tc w kept :
  fold_left (leave bundled) (trace (fst (normalize tc w initial))) kept
  = kept.
Proof.
  unfold normalize, anon_normalize.
  pose proof (anon_normalize_sub_neutral bundled w (map t (extra_inputs tc))
                (t (finput tc))) as H.
  destruct (which_ffilter w);
    destruct (is_anon_normalize_needed (List.concat (rawout w)));
    try (now destruct (run_filter _ _ _ _)); unfold bind;
    destruct (anon_normalize_sub w _ _ initial) as [s0 [r | e | ]];
    try destruct (run_filter _ _ _ _);
    cbn [fst snd] in *; unfold emit, ret, raise; cbn [fst trace];
    rewrite ?fold_left_app; cbn [fold_left leave];
    try destruct (run_filter _ _ _ _); first [ apply H | reflexivity ].
Qed.

Lemma gate_left bundled w kept :
  fold_left (leave bundled) (gate_trace w) kept = (fst bundled, snd bundled).
Proof.
  unfold gate_trace, probe_trace.
  now destruct (isfile_fargs w), (flanguages w).
Qed.

Ltac left_steps :=
  unfold st_app; cbn [trace initial app];
  repeat (rewrite ?fold_left_app; cbn [fold_left leave fst snd];
          rewrite ?normalize_neutral).

Lemma after_run_left bundled g tc w done st' b :
  after_run g tc w done initial = (st', Returns b) ->
  exists o fixed,
    o <> Fixed /\ stopped o = false
    /\ lists st' =
         add_to o (case_id tc)
           (if fixed : bool then add_to Fixed (case_id tc) no_results
            else no_results)
    /\ forall kept,
         fold_left (leave bundled) (trace st') kept
         = (cmdline_kept o, result_kept o).
Proof.
  unfold after_run. destruct done as [rc | ].
  2:{ bind_steps. rewrite shrink_skip. unfold ret. intro H.
      injection H as <- _. exists TimedOut, false. now repeat split. }
  bind_steps. destruct (negb (rc =? 0)%Z).
  { destruct (WITH_VALGRIND g && (rc =? _VALGRIND_EXIT)%Z
              && negb (Ascii.eqb (tclass tc) "v"));
      [ | destruct (Ascii.eqb (tclass tc) "b") ];
      bind_steps; rewrite ?shrink_skip; unfold ret; intro H;
      injection H as <- _;
      [ exists ValgrindError, false | exists KnownBug, false
      | exists FailedStatus, false ]; now repeat split. }
  assert (Hend :
    forall (o : Outcome) (fixed : bool) (s : State),
      o <> Fixed ->
      lists s = add_to o (case_id tc)
                  (if fixed then add_to Fixed (case_id tc) no_results
                   else no_results) ->
      stopped o = false ->
      (forall kept,
         fold_left (leave bundled) (trace s) kept
         = (cmdline_kept o, result_kept o)) ->
      exists o fixed,
        o <> Fixed /\ stopped o = false
        /\ lists s = add_to o (case_id tc)
                       (if fixed : bool
                        then add_to Fixed (case_id tc) no_results
                        else no_results)
        /\ forall kept,
             fold_left (leave bundled) (trace s) kept
             = (cmdline_kept o, result_kept o)).
  { intros o fixed s Ho Hl Hs Hf. now exists o, fixed. }
  destruct (Ascii.eqb (tclass tc) "v") eqn:Hv.
  - apply Ascii.eqb_eq in Hv. rewrite Hv. cbn [Ascii.eqb Bool.eqb orb andb].
    rewrite andb_false_r, andb_true_r.
    destruct (WITH_VALGRIND g); bind_steps;
      (destruct (negb (isfile_fexpected w));
       [ bind_steps; unfold ret; intro H; injection H as <- _
       | rewrite bind_framed by auto with framed;
         destruct (snd (normalize tc w initial)) as [filtered | e | ];
         [ | intro H; discriminate H | intro H; discriminate H ];
         unfold compare; destruct (filecmp w filtered); bind_steps;
         [ cbn [Z.eqb] | destruct (diff w filtered =? 0)%Z ];
         bind_steps; unfold ret; intro H; injection H as <- _ ]).
    all: first
      [ apply (Hend Passed true);
        [ discriminate
        | cbn [lists]; rewrite ?normalize_lists; reflexivity
        | reflexivity
        | intro kept; left_steps; reflexivity ]
      | apply (Hend Passed false);
        [ discriminate
        | cbn [lists]; rewrite ?normalize_lists; reflexivity
        | reflexivity
        | intro kept; left_steps; reflexivity ]
      | apply (Hend FailedDiff true);
        [ discriminate
        | cbn [lists]; rewrite ?normalize_lists; reflexivity
        | reflexivity
        | intro kept; left_steps; reflexivity ]
      | apply (Hend FailedDiff false);
        [ discriminate
        | cbn [lists]; rewrite ?normalize_lists; reflexivity
        | reflexivity
        | intro kept; left_steps; reflexivity ] ].
  - rewrite andb_false_r. bind_steps.
    destruct (negb (isfile_fexpected w));
      [ destruct (Ascii.eqb (tclass tc) "b" || Ascii.eqb (tclass tc) "i");
        bind_steps; unfold ret; intro H; injection H as <- _
      | rewrite bind_framed by auto with framed;
        destruct (snd (normalize tc w initial)) as [filtered | e | ];
        [ | intro H; discriminate H | intro H; discriminate H ];
        unfold compare; destruct (filecmp w filtered); bind_steps;
        [ cbn [Z.eqb] | destruct (diff w filtered =? 0)%Z ]; bind_steps;
        try destruct (Ascii.eqb (tclass tc) "b"); cbn [orb];
        try destruct (negb (WITH_TIMEOUT g =? 0)%Z
                      && Ascii.eqb (tclass tc) "i");
        bind_steps; unfold ret; intro H; injection H as <- _ ].
    all: first
      [ apply (Hend Passed true);
        [ discriminate
        | cbn [lists]; rewrite ?normalize_lists; reflexivity
        | reflexivity
        | intro kept; left_steps; reflexivity ]
      | apply (Hend Passed false);
        [ discriminate
        | cbn [lists]; rewrite ?normalize_lists; reflexivity
        | reflexivity
        | intro kept; left_steps; reflexivity ]
      | apply (Hend KnownBug false);
        [ discriminate
        | cbn [lists]; rewrite ?normalize_lists; reflexivity
        | reflexivity
        | intro kept; left_steps; reflexivity ]
      | apply (Hend FailedDiff false);
        [ discriminate
        | cbn [lists]; rewrite ?normalize_lists; reflexivity
        | reflexivity
        | intro kept; left_steps; reflexivity ] ].
Qed.


Lemma run_left bundled g tc w st b :
  run_tcase g tc w initial = (st, Returns b) ->
  (check_units g (name tc) (category tc) = false
   /\ lists st = no_results /\ trace st = [])
  \/ (check_units g (name tc) (category tc) = true
      /\ exists o fixed,
           o <> Fixed
           /\ lists st =
                add_to o (case_id tc)
                  (if fixed : bool then add_to Fixed (case_id tc) no_results
                   else no_results)
           /\ forall kept,
                fold_left (leave bundled) (trace st) kept
                = (cmdline_kept o || stopped o && fst bundled,
                   result_kept o || is_broken o && snd bundled)).
Proof.
  intro Hrun.
  destruct (check_units g (name tc) (category tc)) eqn:Hu.
  2:{ left. unfold run_tcase in Hrun. rewrite Hu in Hrun. cbn [negb] in Hrun.
      unfold ret in Hrun. injection Hrun as <- _. now repeat split. }
  right. split; [ reflexivity | ].
  pose proof (run_tcase_gate_cases g tc w initial) as H.
  destruct (first_failing g tc w) as [gate | ] eqn:Hff.
  - destruct H as (tr & Hrun' & _).
    destruct (gate_failure_quiet g tc w initial gate Hff)
      as (tr' & Htr & _ & Hleft).
    specialize (Hleft bundled).
    rewrite Hrun in Htr, Hrun'. cbn [fst trace initial app] in Htr.
    injection Hrun' as -> _. cbn [trace lists initial app] in *. subst tr'.
    apply first_failing_fails in Hff.
    destruct gate; cbn [gate_outcome] in *;
      [ cbn [gate_holds] in Hff; congruence
      | exists SkippedFeature, false
      | exists SkippedLanguage, false
      | exists SkippedInfiniteLoopRisk, false
      | exists BrokenPrerequisite, false ];
      (split; [ discriminate | split; [ reflexivity | exact Hleft ] ]).
  - clear H. apply first_failing_none in Hff.
    rewrite run_tcase_passed in Hrun by exact Hff. unfold bind in Hrun.
    destruct (subprocess_run_starts (timeout_value g) (subject w)
                (mkState (lists initial) (trace initial ++ gate_trace w)))
      as [e He].
    rewrite He in Hrun. destruct e as [done | e | ]; try discriminate.
    rewrite (framed_after_run g tc w done _) in Hrun.
    destruct (after_run g tc w done initial) as [d r] eqn:Hd.
    cbn [fst snd] in Hrun. injection Hrun as <- ->.
    apply (after_run_left bundled) in Hd.
    destruct Hd as (o & fixed & Ho & Hs & Hl & Hf).
    exists o, fixed. split; [ exact Ho | ].
    unfold st_app. cbn [lists trace initial app]. rewrite merge_nil_l.
    split; [ exact Hl | ]. intro kept.
    rewrite !fold_left_app, Hf.
    destruct o; try discriminate Hs; reflexivity.
Qed.

(** X27.  When [run_tcase] returns for a case that passes the unit
    filter, whatever there was before, CMDLINE.tmp is left in the build
    directory of the case when the case is on the list of failures by
    status, of failures by diff, of timeouts, of known bugs or of
    valgrind errors, and RESULT.tmp when it is on one of these or on one
    of the three lists of skipped cases.  A passed case leaves neither.
    A case that a gate stops, skipped or with broken args.ctags, leaves
    no CMDLINE.tmp of its own, and one with broken args.ctags no
    RESULT.tmp: such a file is there exactly when [prepare_bundles] has
    copied one from the case directory.  For a case that the unit filter
    excludes the two files stay as they were. *)
Theorem build_dir_leftovers g tc w st b bundled kept :
  run_tcase g tc w initial = (st, Returns b) ->
  fold_left (leave bundled) (trace st) kept
  = if check_units g (name tc) (category tc)
    then (existsb (fun o => classified g tc w o
                            && (cmdline_kept o || stopped o && fst bundled))
            all_outcomes,
          existsb (fun o => classified g tc w o
                            && (result_kept o || is_broken o && snd bundled))
            all_outcomes)
    else kept.
Proof.
  intro Hrun. unfold classified. rewrite Hrun. cbn [fst].
  destruct (run_left bundled g tc w st b Hrun)
    as [(-> & _ & ->) | (-> & o & fixed & Ho & -> & ->)].
  - reflexivity.
  - destruct bundled as [[] []], o, fixed; try reflexivity; now contradiction Ho.
Qed.

Lemma build_dir_leftovers_witness :
  fold_left (leave (true, false))
    (trace
       (fst (run_tcase sample_globals (sample_case "quux" "d")
               (with_features sample_world ["gmake"%string]) initial)))
    (false, false)
  = (true, true).
Proof.
  apply (build_dir_leftovers sample_globals (sample_case "quux" "d")
           (with_features sample_world ["gmake"%string]) _ false
           (true, false) (false, false)).
  reflexivity.
Defined.

(** ** The guessed language *)

Lemma search_anchored_later r must_advance s :
  forall pos, search (Seq Bol r) must_advance (S pos) s = None.
Proof.
  revert must_advance.
  induction s as [ | a s IH ]; intros must_advance pos; cbn [search];
    unfold match_here; rewrite m_Seq, m_Bol; cbn [Nat.eqb];
    [ reflexivity | apply IH ].
Qed.

Lemma sub_anchored r tpl s e c :
  match_here (Seq Bol r) false 0 s = Some (e, c) -> 0 < e ->
  sub (Seq Bol r) tpl s 0 = expand tpl c ++ skipn e s.
Proof.
  intros Hm He. unfold sub, subn.
  replace (2 * List.length s + 2) with (S (S (2 * List.length s))) by lia.
  cbn [subx Nat.eqb negb andb].
  assert (Hs : search (Seq Bol r) false 0 s = Some (0, e, c)).
  { destruct s; cbn [search]; now rewrite Hm. }
  rewrite Hs. destruct e as [ | e ]; [ lia | ].
  rewrite search_anchored_later. cbn [fst firstn app Nat.sub].
  reflexivity.
Qed.

Lemma crlf_plain s :
  forallb plain s = true -> crlf_to_lf (s ++ [NL]) = s ++ [NL].
Proof.
  induction s as [ | c s IH ]; [ reflexivity | ].
  cbn [forallb]. intro H. apply andb_true_iff in H. destruct H as [Hc Hs].
  cbn [app crlf_to_lf]. specialize (IH Hs).
  destruct (s ++ [NL]) as [ | d s' ] eqn:E; [ now destruct s | ].
  unfold plain in Hc. apply andb_true_iff in Hc. destruct Hc as [Hc _].
  apply negb_true_iff in Hc. rewrite Hc. cbn [andb]. now rewrite IH.
Qed.

Lemma drop_plain s :
  forallb plain s = true -> drop_newlines (s ++ [NL]) = s.
Proof.
  unfold drop_newlines. rewrite filter_app. cbn [filter Ascii.eqb Bool.eqb NL negb].
  rewrite app_nil_r. induction s as [ | c s IH ]; [ reflexivity | ].
  cbn [forallb filter]. intro H. apply andb_true_iff in H.
  destruct H as [Hc Hs]. unfold plain in Hc. apply andb_true_iff in Hc.
  destruct Hc as [_ Hc]. rewrite Hc. now rewrite (IH Hs).
Qed.

Lemma plain_dot l : forallb plain l = true -> forallb dot l = true.
Proof.
  apply forallb_impl. intros c H. unfold plain in H.
  apply andb_true_iff in H. destruct H as [_ H]. unfold dot, except.
  now rewrite Ascii.eqb_sym.
Qed.

Lemma lang_prefix_here pre lang :
  forallb dot pre = true -> forallb dot lang = true ->
  forallb (except ":") lang = true ->
  match_here lang_prefix_re false 0 (pre ++ t ": " ++ lang)
  = Some (List.length pre + 2, []).
Proof.
  intros Hpre Hlang Hcolon.
  set (s := pre ++ t ": " ++ lang).
  set (K := fun (pos' : nat) (s' : text) =>
              m (Lit (t ": ")) pos' s' [] accept).
  assert (Hat : K (0 + List.length pre) (skipn (List.length pre) s)
                = Some (List.length pre + 2, [])).
  { unfold K, s. rewrite skipn_length_app, m_Lit, prefixb_app. reflexivity. }
  assert (Hruns : run dot s = List.length s).
  { apply forallb_run_all. unfold s. rewrite !forallb_app, Hpre, Hlang.
    reflexivity. }
  assert (Hlens : List.length s = List.length pre + (2 + List.length lang))
    by (unfold s; rewrite !length_app; reflexivity).
  rewrite match_here_accept. unfold lang_prefix_re.
  rewrite m_Seq, m_Bol. cbn [Nat.eqb]. rewrite m_Seq, m_Star_Chr.
  change (greedy dot 0 s K = Some (List.length pre + 2, [])).
  destruct (greedy dot 0 s K) as [y | ] eqn:Hg.
  - apply greedy_pick in Hg. destruct Hg as (i & Hi & Hy & Hmax).
    destruct (Nat.lt_trichotomy i (List.length pre)) as [Hlt | [-> | Hgt]].
    + rewrite (Hmax (List.length pre)) in Hat; [ discriminate | lia | lia ].
    + now rewrite <- Hy, Hat.
    + exfalso. unfold K in Hy. rewrite m_Lit in Hy.
      destruct (prefixb (t ": ") (skipn i s)) eqn:Hp; [ | discriminate ].
      replace i with (S (i - S (List.length pre)) + List.length pre)
        in Hp by lia.
      unfold s in Hp. rewrite <- skipn_skipn, skipn_length_app in Hp.
      cbn [t list_ascii_of_string app skipn] in Hp.
      destruct (i - S (List.length pre)) as [ | n ]; cbn [skipn] in Hp.
      * destruct lang as [ | a lang ]; [ discriminate Hp | ].
        discriminate Hp.
      * assert (Hin : forall x, In x (skipn n lang) -> except ":" x = true).
        { intros x Hx. rewrite forallb_forall in Hcolon. apply Hcolon.
          rewrite <- (firstn_skipn n lang). apply in_or_app. now right. }
        destruct (skipn n lang) as [ | a l ]; [ discriminate Hp | ].
        cbn [prefixb] in Hp. apply andb_true_iff in Hp.
        destruct Hp as [Ha _]. apply Ascii.eqb_eq in Ha. subst a.
        specialize (Hin ":"%char (or_introl eq_refl)). discriminate Hin.
  - pose proof (greedy_fail dot K s 0 Hg (List.length pre)) as Hn.
    rewrite Hn in Hat by lia. discriminate Hat.
Qed.

(** X28.  When the subject answers [--print-language] with one line,
    ended by a newline and without carriage return, made of some text, a
    colon, a space and a name without colon, the guessed language is that
    name, whatever colons the text before it holds. *)
Theorem guess_lang_of_answer pre lang :
  forallb plain pre = true -> forallb plain lang = true ->
  forallb (except ":") lang = true ->
  guess_lang (pre ++ t ": " ++ lang ++ [NL]) = lang.
Proof.
  intros Hpre Hlang Hcolon. unfold guess_lang.
  assert (Hall : forallb plain (pre ++ t ": " ++ lang) = true)
    by (now rewrite !forallb_app, Hpre, Hlang).
  replace (pre ++ t ": " ++ lang ++ [NL])
    with ((pre ++ t ": " ++ lang) ++ [NL])
    by (now rewrite <- !app_assoc).
  rewrite (crlf_plain _ Hall), (drop_plain _ Hall).
  unfold lang_prefix_re.
  rewrite (sub_anchored _ [] _ (List.length pre + 2) []).
  - cbn [expand app].
    replace (List.length pre + 2) with (2 + List.length pre) by lia.
    rewrite <- skipn_skipn, skipn_length_app. reflexivity.
  - apply (lang_prefix_here pre lang); auto using plain_dot.
  - lia.
Qed.

Lemma guess_lang_of_answer_witness :
  guess_lang (t "src: old/input.c" ++ t ": " ++ t "C++" ++ [NL]) = t "C++".
Proof.
  apply (guess_lang_of_answer (t "src: old/input.c") (t "C++"));
    reflexivity.
Defined.

(** ** The json filter *)

Lemma search_first r s : forall pos q e c,
  q <= List.length s ->
  (forall q', q' < q -> match_here r false (pos + q') (skipn q' s) = None) ->
  match_here r false (pos + q) (skipn q s) = Some (e, c) ->
  search r false pos s = Some (pos + q, e, c).
Proof.
  induction s as [ | a s IH ]; intros pos q e c Hq Hnone Hm.
  - cbn in Hq. assert (q = 0) by lia. subst q.
    rewrite Nat.add_0_r in *. cbn [skipn] in Hm. cbn [search].
    now rewrite Hm.
  - destruct q as [ | q ].
    + rewrite Nat.add_0_r in *. cbn [skipn] in Hm. cbn [search].
      now rewrite Hm.
    + cbn [search]. pose proof (Hnone 0 (Nat.lt_0_succ q)) as H0.
      rewrite Nat.add_0_r in H0. cbn [skipn] in H0. rewrite H0.
      rewrite Nat.add_succ_r in *. cbn [skipn] in Hm.
      apply (IH (S pos) q e c).
      * cbn in Hq. lia.
      * intros q' Hq'. specialize (Hnone (S q')).
        rewrite Nat.add_succ_r in Hnone. apply Hnone. lia.
      * exact Hm.
Qed.

Lemma json_re_unfold :
  json_re =
    Seq (Group 1 (Lit json_key))
     (Seq (Chr (only QUOTE))
     (Seq (Plus (Chr (except QUOTE)))
     (Seq (Chr (only "/"))
     (Seq (Group 2 (Plus (Chr name_char))) (Chr (only QUOTE)))))).
Proof. reflexivity. Qed.

Lemma json_miss pos s :
  prefixb json_key s = false -> match_here json_re false pos s = None.
Proof.
  intro H. rewrite match_here_accept, json_re_unfold, m_Seq, m_Group, m_Lit.
  now rewrite H.
Qed.

Lemma name_char_quote : name_char QUOTE = false.
Proof. reflexivity. Qed.

Lemma name_char_no_quote l :
  forallb name_char l = true -> forallb (except QUOTE) l = true.
Proof.
  apply forallb_impl. intros c H. unfold name_char, both in H.
  now apply andb_true_iff in H.
Qed.

Lemma json_here pos dirs base post :
  dirs <> [] -> forallb (except QUOTE) dirs = true ->
  base <> [] -> forallb name_char base = true ->
  match_here json_re false pos
    (json_key ++ QUOTE :: dirs ++ "/"%char :: base ++ QUOTE :: post)
  = Some (pos + List.length json_key + 1 + List.length dirs + 1
          + List.length base + 1,
          [(2, base); (1, json_key)]).
Proof.
  intros Hd Hdq Hb Hbn.
  set (R := dirs ++ "/"%char :: base ++ QUOTE :: post).
  set (p1 := S (pos + List.length json_key)).
  set (c1 := [(1, json_key)] : caps).
  set (x := (pos + List.length json_key + 1 + List.length dirs + 1
             + List.length base + 1, [(2, base); (1, json_key)])).
  set (K := fun (pos' : nat) (s' : text) (c' : caps) =>
              m (Seq (Chr (only "/"))
                   (Seq (Group 2 (Plus (Chr name_char))) (Chr (only QUOTE))))
                pos' s' c' accept).
  assert (HlenD : 1 <= List.length dirs) by (destruct dirs; cbn; [ easy | lia ]).
  assert (HlenB : 1 <= List.length base) by (destruct base; cbn; [ easy | lia ]).
  assert (HrunR : run (except QUOTE) R
                  = List.length dirs + 1 + List.length base).
  { unfold R.
    replace (dirs ++ "/"%char :: base ++ QUOTE :: post)
      with ((dirs ++ "/"%char :: base) ++ QUOTE :: post)
      by (now rewrite <- app_assoc).
    rewrite run_app_stop.
    - rewrite length_app. cbn [List.length]. lia.
    - rewrite forallb_app, Hdq. cbn [forallb].
      now rewrite (name_char_no_quote _ Hbn).
    - reflexivity. }
  assert (Hat : K (p1 + List.length dirs) (skipn (List.length dirs) R) c1
                = Some x).
  { unfold K, R. rewrite skipn_length_app, m_Seq, m_Chr.
    cbn [only Ascii.eqb Bool.eqb]. rewrite m_Seq, m_Group.
    assert (Hrb : run name_char (base ++ QUOTE :: post) = List.length base)
      by (apply run_app_stop; [ exact Hbn | reflexivity ]).
    apply plus_top; rewrite Hrb; [ exact HlenB | ].
    rewrite skipn_length_app, m_Chr.
    assert (Hq : only QUOTE QUOTE = true) by reflexivity.
    rewrite Hq. unfold accept, x, p1, c1. f_equal. f_equal; [ lia | ].
    f_equal. f_equal.
    replace (S (S (pos + List.length json_key) + List.length dirs)
             + List.length base
             - S (S (pos + List.length json_key) + List.length dirs))
      with (List.length base) by lia.
    apply firstn_length_app. }
  rewrite match_here_accept, json_re_unfold, m_Seq, m_Group, m_Lit.
  rewrite prefixb_app, skipn_length_app, m_Seq, m_Chr.
  assert (Hq : only QUOTE QUOTE = true) by reflexivity.
  rewrite Hq, m_Seq.
  replace (firstn (pos + List.length json_key - pos)
             (json_key ++ QUOTE :: R))
    with json_key
    by (replace (pos + List.length json_key - pos)
          with (List.length json_key) by lia;
        now rewrite firstn_length_app).
  change (m (Plus (Chr (except QUOTE))) p1 R c1 K = Some x).
  destruct (m (Plus (Chr (except QUOTE))) p1 R c1 K) as [y | ] eqn:Hy.
  - apply plus_pick in Hy. destruct Hy as (i & Hi1 & Hi2 & HK & Hmax).
    destruct (Nat.lt_trichotomy i (List.length dirs)) as [Hlt | [-> | Hgt]].
    + rewrite (Hmax (List.length dirs)) in Hat; [ discriminate | lia | lia ].
    + now rewrite <- HK, Hat.
    + exfalso. unfold K in HK. rewrite m_Seq, m_Chr in HK.
      destruct (skipn i R) as [ | a s2 ] eqn:Hskip; [ discriminate | ].
      destruct (only "/" a) eqn:Ha; [ | discriminate ].
      apply only_eq in Ha. subst a.
      replace i with (S (i - S (List.length dirs)) + List.length dirs)
        in Hskip by lia.
      unfold R in Hskip. rewrite <- skipn_skipn, skipn_length_app in Hskip.
      cbn [skipn] in Hskip.
      assert (Hn : i - S (List.length dirs) <= List.length base) by lia.
      revert Hskip Hn. generalize (i - S (List.length dirs)). intros n Hskip Hn.
      rewrite skipn_app in Hskip.
      replace (n - List.length base) with 0 in Hskip by lia.
      cbn [skipn] in Hskip.
      assert (Hin : In "/"%char (skipn n base)).
      { destruct (skipn n base) as [ | a l ] eqn:E.
        - cbn [app] in Hskip. discriminate Hskip.
        - cbn [app] in Hskip. injection Hskip as -> _. now left. }
      assert (Hin' : In "/"%char base).
      { rewrite <- (firstn_skipn n base). apply in_or_app. now right. }
      rewrite forallb_forall in Hbn. apply Hbn in Hin'. discriminate Hin'.
  - apply plus_fail with (i := List.length dirs) in Hy; [ | lia | lia ].
    congruence.
Qed.

(** X29.  On a line of json output, the json filter replaces the value
    of the first [path] entry, directories, a slash and a file name, by
    the file name, and keeps the rest of the line. *)
Theorem json_filter_keeps_basename pre dirs base post :
  (forall j, j < List.length pre ->
     occurs_at json_key
       (pre ++ json_key ++ QUOTE :: dirs ++ "/"%char :: base ++ QUOTE :: post)
       j = false) ->
  dirs <> [] -> forallb (except QUOTE) dirs = true ->
  base <> [] -> forallb name_char base = true ->
  filter_basename (basename_filter json)
    (pre ++ json_key ++ QUOTE :: dirs ++ "/"%char :: base ++ QUOTE :: post)
  = pre ++ json_key ++ QUOTE :: base ++ QUOTE :: post.
Proof.
  intros Hfirst Hd Hdq Hb Hbn.
  set (tail := json_key ++ QUOTE :: dirs ++ "/"%char :: base ++ QUOTE :: post)
    in *.
  unfold filter_basename, sub. cbn [basename_filter fst snd].
  rewrite subn_once.
  rewrite (search_first json_re (pre ++ tail) 0 (List.length pre)
             (List.length pre + List.length json_key + 1 + List.length dirs
              + 1 + List.length base + 1)
             [(2, base); (1, json_key)]).
  - cbn [fst Nat.add expand group Nat.eqb]. rewrite firstn_length_app.
    f_equal. rewrite app_nil_r.
    assert (Hlen : List.length (json_key ++ QUOTE :: dirs ++ "/"%char :: base
                                ++ [QUOTE])
                   = List.length json_key + 1 + List.length dirs + 1
                     + List.length base + 1).
    { rewrite length_app. cbn [List.length]. rewrite length_app.
      cbn [List.length]. rewrite length_app. cbn [List.length]. lia. }
    replace (List.length pre + List.length json_key + 1 + List.length dirs
             + 1 + List.length base + 1)
      with (List.length (json_key ++ QUOTE :: dirs ++ "/"%char :: base
                         ++ [QUOTE]) + List.length pre)
      by (rewrite Hlen; lia).
    rewrite <- skipn_skipn, skipn_length_app. unfold tail.
    replace (json_key ++ QUOTE :: dirs ++ "/"%char :: base ++ QUOTE :: post)
      with ((json_key ++ QUOTE :: dirs ++ "/"%char :: base ++ [QUOTE])
            ++ post)
      by (repeat (rewrite <- app_assoc; cbn [app]); reflexivity).
    rewrite skipn_length_app.
    repeat (rewrite <- app_assoc; cbn [app]). reflexivity.
  - rewrite length_app. lia.
  - intros q' Hq'. apply json_miss. apply (Hfirst q' Hq').
  - rewrite skipn_length_app. apply json_here; assumption.
Qed.

Lemma json_filter_keeps_basename_witness :
  filter_basename (basename_filter json)
    ([QUOTE] ++ t "n" ++ [QUOTE] ++ t ", "
     ++ json_key ++ QUOTE :: t "src/lib" ++ "/"%char :: t "x.c"
     ++ QUOTE :: t ", ")
  = ([QUOTE] ++ t "n" ++ [QUOTE] ++ t ", ")
    ++ json_key ++ QUOTE :: t "x.c" ++ QUOTE :: t ", ".
Proof.
  apply (json_filter_keeps_basename ([QUOTE] ++ t "n" ++ [QUOTE] ++ t ", ")
           (t "src/lib") (t "x.c") (t ", ")).
  - intros j Hj. do 5 (destruct j as [ | j ]; [ reflexivity | ]).
    cbn in Hj. lia.
  - discriminate.
  - reflexivity.
  - discriminate.
  - reflexivity.
Defined.

(** ** The counts of a run *)

Lemma listed_merge r r0 : listed (merge r r0) = listed r + listed r0.
Proof. unfold listed, merge; cbn. rewrite !length_app. lia. Qed.

Lemma run_listed g tc w :
  listed (lists (fst (run_tcase g tc w initial)))
  = if counted g (tc, w) then 1 else 0.
Proof.
  unfold counted. cbn [fst snd].
  destruct (check_units g (name tc) (category tc)) eqn:Hu; cbn [andb].
  2:{ unfold run_tcase. rewrite Hu. reflexivity. }
  destruct (run_tcase g tc w initial) as [st [b | e | ]] eqn:Hrun;
    cbn [fst snd].
  - pose proof (run_tcase_gate_cases g tc w initial) as H.
    destruct (first_failing g tc w) as [gate | ] eqn:Hff.
    + destruct H as (tr & Hrun' & _). rewrite Hrun in Hrun'.
      injection Hrun' as -> _. apply first_failing_fails in Hff.
      destruct gate; try reflexivity.
      cbn [gate_holds] in Hff. congruence.
    + clear H. apply first_failing_none in Hff.
      rewrite run_tcase_passed in Hrun by exact Hff. unfold bind in Hrun.
      destruct (subprocess_run_starts (timeout_value g) (subject w)
                  (mkState (lists initial) (trace initial ++ gate_trace w)))
        as [e He].
      rewrite He in Hrun. destruct e as [done | e | ]; try discriminate.
      apply after_run_verdict in Hrun.
      destruct Hrun as (o & fixed & Ho & -> & _).
      destruct o, fixed; try reflexivity; now contradiction Ho.
  - pose proof (unfinished_lists g tc w initial) as H.
    rewrite Hrun in H. cbn [fst snd] in H. rewrite H.
    now destruct (WITH_VALGRIND g && Ascii.eqb (tclass tc) "v").
  - pose proof (unfinished_lists g tc w initial) as H.
    rewrite Hrun in H. cbn [fst snd] in H. now rewrite H.
Qed.

Lemma run_cases_listed g cases :
  forall st,
    snd (run_cases g cases st) = Returns tt ->
    listed (lists (fst (run_cases g cases st)))
    = listed (lists st) + List.length (filter (counted g) cases).
Proof.
  induction cases as [ | [tc w] cases IH ]; intros st Hret;
    cbn [run_cases filter] in *.
  - cbn. lia.
  - rewrite (framed_run_tcase g tc w st) in *.
    pose proof (run_listed g tc w) as Hone.
    assert (Hnext :
      snd (run_cases g cases (st_app st (fst (run_tcase g tc w initial))))
      = Returns tt ->
      listed (lists (fst (run_cases g cases
                            (st_app st (fst (run_tcase g tc w initial))))))
      = listed (lists st)
        + List.length
            (if counted g (tc, w) then (tc, w) :: filter (counted g) cases
             else filter (counted g) cases)).
    { intro H. rewrite (IH _ H). unfold st_app. cbn [lists].
      rewrite listed_merge, Hone.
      destruct (counted g (tc, w)); cbn [List.length]; lia. }
    destruct (snd (run_tcase g tc w initial)); cbn [snd] in Hret;
      try (apply Hnext; exact Hret).
    discriminate Hret.
Qed.

(** X30.  When [action_run] gets to its end, the ten lists other than
    the Fixed list hold together as many entries as there are cases that
    pass the unit filter and whose run returns: the counts of the summary
    add up to the number of cases run to the end. *)
Theorem summary_counts_add_up g cases z :
  action_run g cases = Returns z ->
  listed (lists (fst (run_cases g cases initial)))
  = List.length (filter (counted g) cases).
Proof.
  unfold action_run. intro H.
  rewrite run_cases_listed; [ reflexivity | ].
  destruct (run_cases g cases initial) as [st [[] | e | ]];
    try discriminate H.
  reflexivity.
Qed.

Lemma summary_counts_add_up_witness :
  listed
    (lists
       (fst (run_cases sample_globals
               [(sample_case "a" "d", sample_world);
                (sample_case "b" "b", bare_world)] initial)))
  = 2.
Proof.
  apply (summary_counts_add_up sample_globals
           [(sample_case "a" "d", sample_world);
            (sample_case "b" "b", bare_world)] 0%Z).
  reflexivity.
Defined.

End Coverage.
